(** * PDFProcessor: the document reconstruction and lookup core

    A shallow embedding of the [PDFProcessor] class of pdf-processor.ts:
    identifier assignment ([generateUniqueId], [loadPDF]), body synthesis
    ([convertToMarkdown]), section lookup ([extractSection]), pagination
    ([paginateContent]) and search ([searchPDF]); then the other
    operations on the registry ([unloadPDF], [getPDFInfo], [restoreCache],
    [getFormattedOutline]), the reading of the outline ([processOutline],
    [getPageIndex]) and the listing and extraction of images
    ([listImages], [extractImages], [extractImage]).

    JavaScript strings are sequences of UTF-16 code units; they are
    modelled as [list N], one element per code unit, so that [length] is
    the [.length] of the source.  Page numbers, budgets and limits are
    JavaScript numbers that the program only uses as integers: they are
    [Z].  Array indices and string offsets that the program produces
    itself are [nat]. *)

From stdpp Require Import gmap list.
From Stdlib Require Import ZArith Lia Sorted.
From Stdlib Require Strings.String Strings.Ascii.
Import String.StringSyntax.
Delimit Scope string_scope with string.

Abbreviation jsstring := (list N).

(** ** String primitives *)

Module JS.

(** Literals: [js "a\nb"] is the three code units a, LINE FEED, b.  The
    two characters backslash-n of the Rocq literal stand for one line
    feed, as in the TypeScript source. *)
Fixpoint js (s : String.string) : jsstring :=
  match s with
  | String.EmptyString => []
  | String.String c r =>
      match r with
      | String.String d r' =>
          if ((Ascii.N_of_ascii c =? 92)%N && (Ascii.N_of_ascii d =? 110)%N)%bool
          then 10%N :: js r'
          else Ascii.N_of_ascii c :: js r
      | String.EmptyString => [Ascii.N_of_ascii c]
      end
  end.
Arguments js _%_string.

Definition NL : N := 10%N.
Definition HASH : N := 35%N.
Definition SLASH : N := 47%N.

(** The paragraph separator, the string of two line feeds. *)
Definition NL2 : jsstring := [NL; NL].

(** ECMAScript LineTerminator: LF, CR, LS, PS. *)
Definition isLineTerminator (c : N) : bool :=
  (c =? 10)%N || (c =? 13)%N || (c =? 8232)%N || (c =? 8233)%N.

(** What the regular expression class [\s] matches and what
    [String.prototype.trim] strips: ECMAScript WhiteSpace and
    LineTerminator. *)
Definition isWhiteSpace (c : N) : bool :=
  (c =? 9)%N || (c =? 11)%N || (c =? 12)%N || (c =? 32)%N || (c =? 160)%N
  || (c =? 5760)%N || ((8192 <=? c)%N && (c <=? 8202)%N)
  || (c =? 8239)%N || (c =? 8287)%N || (c =? 12288)%N || (c =? 65279)%N
  || isLineTerminator c.

Fixpoint dropWhile {A} (p : A -> bool) (l : list A) : list A :=
  match l with
  | [] => []
  | x :: r => if p x then dropWhile p r else l
  end.

Fixpoint takeWhile {A} (p : A -> bool) (l : list A) : list A :=
  match l with
  | [] => []
  | x :: r => if p x then x :: takeWhile p r else []
  end.

(** [s.trim()] *)
Definition trim (s : jsstring) : jsstring :=
  rev (dropWhile isWhiteSpace (rev (dropWhile isWhiteSpace s))).

(** [l.join(sep)] *)
Fixpoint join (sep : jsstring) (l : list jsstring) : jsstring :=
  match l with
  | [] => []
  | x :: r => match r with
              | [] => x
              | _ :: _ => x ++ sep ++ join sep r
              end
  end.

(** Puts a code unit in front of the first piece of a split. *)
Definition consHead (x : N) (l : list jsstring) : list jsstring :=
  match l with
  | [] => [[x]]
  | p :: ps => (x :: p) :: ps
  end.

(** [s.split(c)] for a separator of one code unit. *)
Fixpoint splitChar (c : N) (s : jsstring) : list jsstring :=
  match s with
  | [] => [[]]
  | x :: r => if (x =? c)%N then [] :: splitChar c r
              else consHead x (splitChar c r)
  end.

(** [s.split('\n\n')]: the separator is found from left to right, so
    three line feeds give a piece that starts with a line feed. *)
Fixpoint splitParagraphs (s : jsstring) : list jsstring :=
  match s with
  | [] => [[]]
  | x :: r =>
      match r with
      | y :: r' =>
          if ((x =? NL)%N && (y =? NL)%N)%bool then [] :: splitParagraphs r'
          else consHead x (splitParagraphs r)
      | [] => [[x]]
      end
  end.

Fixpoint isPrefix (p s : jsstring) : bool :=
  match p, s with
  | [], _ => true
  | _ :: _, [] => false
  | a :: p', b :: s' => (a =? b)%N && isPrefix p' s'
  end.

(** [s.startsWith(p)] *)
Definition startsWith (s p : jsstring) : bool := isPrefix p s.

(** First offset, counted from [k], at which [pat] occurs in [s]. *)
Fixpoint indexOfFrom (s pat : jsstring) (k : nat) : option nat :=
  if isPrefix pat s then Some k
  else match s with
       | [] => None
       | _ :: r => indexOfFrom r pat (S k)
       end.

(** [s.indexOf(pat, position)]; [None] is the source's -1.  The start
    is clamped to the length, and the empty pattern is found at the
    start. *)
Definition indexOf (s pat : jsstring) (position : nat) : option nat :=
  let start := Nat.min position (length s) in
  indexOfFrom (drop start s) pat start.

(** [s.includes(pat)] *)
Definition includes (s pat : jsstring) : bool :=
  match indexOf s pat 0 with Some _ => true | None => false end.

(** [s.substring(a, b)]: both ends are clamped to [0, length] and
    swapped when out of order. *)
Definition substring (s : jsstring) (a b : Z) : jsstring :=
  let clamp (x : Z) := Z.to_nat (Z.min (Z.max 0 x) (Z.of_nat (length s))) in
  let lo := Nat.min (clamp a) (clamp b) in
  let hi := Nat.max (clamp a) (clamp b) in
  take (hi - lo) (drop lo s).

(** ['#'.repeat(n)] *)
Definition hashes (n : nat) : jsstring := repeat HASH n.

(** The heading pattern [/^(#+)\s+(.+)$/] applied to one line (a string
    without line feed), giving the number of hashes (the length of
    group 1) and the title (group 2).  [#+] takes the whole run of
    hashes, [\s+] the whole run of white space after it; [.+] must then
    reach the end of the string, and [.] does not match a line
    terminator.  When nothing follows the white space, the matcher
    backtracks and gives the last white-space unit to [.+]. *)
Definition headingMatch (line : jsstring) : option (nat * jsstring) :=
  let level := length (takeWhile (N.eqb HASH) line) in
  let afterHashes := dropWhile (N.eqb HASH) line in
  let spaces := takeWhile isWhiteSpace afterHashes in
  let title := dropWhile isWhiteSpace afterHashes in
  match level, spaces, title with
  | 0, _, _ => None
  | _, [], _ => None
  | _, _, _ :: _ =>
      if forallb (fun c => negb (isLineTerminator c)) title
      then Some (level, title) else None
  | _, _ :: _, [] =>
      match rev spaces with
      | w :: _ :: _ => if isLineTerminator w then None else Some (level, [w])
      | _ => None
      end
  end.

(** The pattern [/^#+\s/] of the paginator, tested on a paragraph. *)
Definition startsHeading (paragraph : jsstring) : bool :=
  match takeWhile (N.eqb HASH) paragraph,
        dropWhile (N.eqb HASH) paragraph with
  | _ :: _, c :: _ => isWhiteSpace c
  | _, _ => false
  end.

(** Truthiness of a string: the empty string is falsy. *)
Definition truthy (s : jsstring) : bool :=
  match s with [] => false | _ :: _ => true end.

End JS.
Import JS.

(** ** Paginator *)

Module Paginator.

(** The loop of [paginateContent] over the paragraphs not yet placed.
    The source writes the heading look-ahead three times, once in each
    branch, with the same text; here it follows the branch.  Pulling
    the next paragraph is the source's [i++]: the loop goes on after
    it. *)
Fixpoint paginateLoop (charsPerPage : Z) (paragraphs : list jsstring)
    (pages : list jsstring) (currentPage : jsstring) : list jsstring :=
  match paragraphs with
  | [] =>
      if (0 <? length currentPage) then pages ++ [currentPage] else pages
  | paragraph :: rest =>
      let isHeading := startsHeading paragraph in
      let '(pages1, page1) :=
        if (length currentPage =? 0) then (pages, paragraph)
        else if (Z.of_nat (length currentPage + length paragraph + 2) <=? charsPerPage)%Z
             then (pages, currentPage ++ NL2 ++ paragraph)
             else (pages ++ [currentPage], paragraph) in
      match rest with
      | nextParagraph :: rest' =>
          if (isHeading && truthy nextParagraph
              && (Z.of_nat (length page1 + length nextParagraph + 2) <=? charsPerPage)%Z)%bool
          then paginateLoop charsPerPage rest' pages1 (page1 ++ NL2 ++ nextParagraph)
          else paginateLoop charsPerPage rest pages1 page1
      | [] => paginateLoop charsPerPage rest pages1 page1
      end
  end.

Definition paginateContent (content : jsstring) (charsPerPage : Z) : list jsstring :=
  if (Z.of_nat (length content) <=? charsPerPage)%Z then [content]
  else paginateLoop charsPerPage (splitParagraphs content) [] [].

End Paginator.
Import Paginator.

(** ** Markdown synthesizer *)

Module Synthesizer.

#[local] Set Warnings "-register-all".

(** [interface OutlineItem].  [page] is optional in the source; an
    absent [children] and an empty one are treated alike there. *)
Inductive OutlineItem : Type :=
  mkOutlineItem {
    title : jsstring;
    page : option Z;
    level : nat;
    children : list OutlineItem
  }.

(** [interface FlatSection] *)
Record FlatSection : Type :=
  mkFlatSection {
    fs_title : jsstring;
    fs_level : nat;
    startPage : Z;
    endPage : Z
  }.

(** Truthiness of an optional number, as in [if (item.page)]:
    neither absent nor zero. *)
Definition truthyPage (p : option Z) : option Z :=
  match p with
  | Some q => if (q =? 0)%Z then None else Some q
  | None => None
  end.

(** One turn of the [for] loop of [flattenOutline] on [item], with
    [nextItem] for [items[i + 1]]; the inner loop is the recursive call
    on the children. *)
Fixpoint flattenItem (nPages : nat) (item : OutlineItem)
    (nextItem : option OutlineItem) {struct item} : list FlatSection :=
  (match truthyPage (page item) with
   | Some p =>
       let endPage :=
         match nextItem ≫= (fun n => truthyPage (page n)) with
         | Some q => (q - 1)%Z
         | None => Z.of_nat nPages
         end in
       [ {| fs_title := title item; fs_level := level item;
            startPage := p; endPage := endPage |} ]
   | None => []
   end)
  ++ (fix loop (items : list OutlineItem) : list FlatSection :=
        match items with
        | [] => []
        | it :: rest => flattenItem nPages it (head rest) ++ loop rest
        end) (children item).

(** [flattenOutline(items)]; [nPages] is [pages.length], which the
    closure of the source captures. *)
Fixpoint flattenOutline (nPages : nat) (items : list OutlineItem) : list FlatSection :=
  match items with
  | [] => []
  | item :: rest => flattenItem nPages item (head rest) ++ flattenOutline nPages rest
  end.

(** [sections.sort((a, b) => a.startPage - b.startPage)]: the sort of
    the language is stable, so it is an insertion sort that keeps the
    order of sections with equal [startPage]. *)
Fixpoint insertSection (s : FlatSection) (l : list FlatSection) : list FlatSection :=
  match l with
  | [] => [s]
  | x :: r => if (startPage s <=? startPage x)%Z then s :: l
              else x :: insertSection s r
  end.

Definition sortSections (l : list FlatSection) : list FlatSection :=
  foldr insertSection [] l.

(** [pages[p - 1]], [None] for [undefined]. *)
Definition pageAt (pages : list jsstring) (p : Z) : option jsstring :=
  if (p - 1 <? 0)%Z then None else pages !! Z.to_nat (p - 1).

(** [if (pages[p - 1]?.trim()) markdown += pages[p - 1] + '\n\n'] *)
Definition emitPage (pages : list jsstring) (markdown : jsstring) (p : Z) : jsstring :=
  match pageAt pages p with
  | Some text => if truthy (trim text) then markdown ++ text ++ NL2 else markdown
  | None => markdown
  end.

(** The integers from [lo] to [hi], both included. *)
Definition rangeZ (lo hi : Z) : list Z :=
  map (fun i => (lo + Z.of_nat i)%Z) (seq 0 (Z.to_nat (hi - lo + 1))).

(** [for (let p = lo; p <= hi; p++)] around [emitPage]. *)
Definition emitPages (pages : list jsstring) (markdown : jsstring) (lo hi : Z) : jsstring :=
  fold_left (emitPage pages) (rangeZ lo hi) markdown.

(** The body of [for (const section of sections)], on the pair of
    [markdown] and [lastEndPage]. *)
Definition emitSection (pages : list jsstring) (st : jsstring * Z)
    (section : FlatSection) : jsstring * Z :=
  let '(markdown, lastEndPage) := st in
  let markdown1 :=
    if (lastEndPage + 1 <? startPage section)%Z
    then emitPages pages markdown (lastEndPage + 1) (startPage section - 1)
    else markdown in
  let headingPrefix := hashes (fs_level section + 1) in
  let markdown2 := markdown1 ++ headingPrefix ++ js " " ++ fs_title section ++ NL2 in
  let markdown3 := emitPages pages markdown2 (startPage section) (endPage section) in
  (markdown3, endPage section).

Definition convertToMarkdown (pages : list jsstring)
    (outline : option (list OutlineItem)) : jsstring :=
  match outline with
  | None | Some [] => join NL2 pages
  | Some items =>
      let sections := sortSections (flattenOutline (length pages) items) in
      let '(markdown, lastEndPage) := fold_left (emitSection pages) sections ([], 0%Z) in
      let markdown' :=
        if (lastEndPage <? Z.of_nat (length pages))%Z
        then emitPages pages markdown (lastEndPage + 1) (Z.of_nat (length pages))
        else markdown in
      trim markdown'
  end.

End Synthesizer.
Import Synthesizer.

(** ** The services of the platform

    What the program asks of the JavaScript runtime and of Node's [path]
    module, and does not implement itself. *)

Class Runtime : Type := {
  (** [String.prototype.toLowerCase] *)
  toLowerCase : jsstring -> jsstring;
  (** [new RegExp(query, ignoreCase ? 'gi' : 'g')]: [None] when the
      constructor throws; otherwise the function that [exec] computes
      from the text and [lastIndex], giving [match.index] and the new
      [lastIndex] (the end of the match), or [None] for [null]. *)
  newRegExp : jsstring -> bool -> option (jsstring -> nat -> option (nat * nat));
  (** [path.normalize] and [path.sep] *)
  path_normalize : jsstring -> jsstring;
  path_sep : N;
  (** [new URL(s).pathname], [None] when the constructor throws *)
  urlPathname : jsstring -> option jsstring
}.

(** What ECMAScript guarantees of [exec] on a global pattern: the match
    starts at or after [lastIndex] and lies within the text. *)
Definition execInBounds (exec : jsstring -> nat -> option (nat * nat)) : Prop :=
  forall text lastIndex index lastIndex',
    exec text lastIndex = Some (index, lastIndex') ->
    lastIndex <= index /\ index <= lastIndex' /\ lastIndex' <= length text.

Definition RegExpLawful (rt : Runtime) : Prop :=
  forall query ignoreCase exec,
    newRegExp query ignoreCase = Some exec -> execInBounds exec.

(** ** Document store *)

Module Store.

(** The metadata dictionary of the decoder, which the core only keeps. *)
Definition Metadata : Type := list (jsstring * jsstring).

(** [interface LoadedPDF] *)
Record LoadedPDF : Type :=
  mkLoadedPDF {
    id : jsstring;
    path : jsstring;
    pageCount : nat;
    markdown : jsstring;
    metadata : option Metadata;
    outline : option (list OutlineItem)
  }.

(** The errors the operations throw. *)
Inductive Error : Type :=
| PdfNotFound
| SectionNotFound (suggestions : list jsstring)
| PageOutOfRange (totalPages : nat)
| InvalidRegularExpression
| FailedToLoad.

(** What the decoder hands over for one source: the page texts (one
    per page, so [numPages] is their number), the outline and the
    metadata. *)
Record Decoded : Type :=
  mkDecoded {
    d_pages : list jsstring;
    d_outline : option (list OutlineItem);
    d_metadata : option Metadata
  }.

End Store.
Import Store.

(** ** Identifier assignment and loading *)

Module Loader.
Section WithRuntime.
Context {rt : Runtime}.

Definition isUrl (filePath : jsstring) : bool :=
  startsWith filePath (js "http://") || startsWith filePath (js "https://").

(** [s.split(c).filter(p => p.length > 0)] *)
Definition nonEmptyParts (c : N) (s : jsstring) : list jsstring :=
  List.filter (fun p => 0 <? length p) (splitChar c s).

(** The normalized locator of a stored document, as computed for
    [existingPaths]. *)
Definition normalizedOf (p : jsstring) : jsstring :=
  if isUrl p then p else path_normalize p.

(** [parts.slice(-i).join(separator)] *)
Definition candidate (separator : jsstring) (parts : list jsstring) (i : nat) : jsstring :=
  join separator (drop (length parts - i) parts).

(** The [for] loop over [i]; [None] when it ends without [return]. *)
Fixpoint candidateLoop (existingPaths : gmap jsstring jsstring)
    (normalizedPath separator : jsstring) (parts : list jsstring)
    (indices : list nat) : option jsstring :=
  match indices with
  | [] => None
  | i :: later =>
      let candidateId := candidate separator parts i in
      match existingPaths !! candidateId with
      | None => Some candidateId
      | Some existingPath =>
          if negb (truthy existingPath) then Some candidateId
          else if decide (existingPath = normalizedPath) then Some candidateId
          else candidateLoop existingPaths normalizedPath separator parts later
      end
  end.

Definition generateUniqueId (loadedPDFs : gmap jsstring LoadedPDF)
    (filePath : jsstring) : jsstring :=
  let '(normalizedPath, parts) :=
    if isUrl filePath then
      match urlPathname filePath with
      | Some urlPath => (filePath, nonEmptyParts SLASH urlPath)
      | None => (filePath, nonEmptyParts SLASH filePath)
      end
    else
      let normalizedPath := path_normalize filePath in
      (normalizedPath, nonEmptyParts path_sep normalizedPath) in
  if (length parts =? 0) then js "unknown.pdf"
  else
    let existingPaths : gmap jsstring jsstring :=
      (fun pdf => normalizedOf (path pdf)) <$> loadedPDFs in
    let lastPart := List.last parts [] in
    if decide (existingPaths !! lastPart = Some normalizedPath) then lastPart
    else
      let separator := if isUrl filePath then [SLASH] else [path_sep] in
      match candidateLoop existingPaths normalizedPath separator parts
              (seq 1 (length parts)) with
      | Some candidateId => candidateId
      | None => join separator parts
      end.

(** [loadPDF(filePath)]: [decoded] is what fetching and decoding the
    source gave, [None] when any of it throws.  The result is the new
    registry together with the value returned to the caller. *)
Definition loadPDF (loadedPDFs : gmap jsstring LoadedPDF) (filePath : jsstring)
    (decoded : option Decoded)
    : Error + (gmap jsstring LoadedPDF * (jsstring * nat)) :=
  match decoded with
  | None => inl FailedToLoad
  | Some doc =>
      let numPages := length (d_pages doc) in
      let markdown := convertToMarkdown (d_pages doc) (d_outline doc) in
      let id := generateUniqueId loadedPDFs filePath in
      inr (<[ id := {| id := id; path := filePath; pageCount := numPages;
                       markdown := markdown; metadata := d_metadata doc;
                       outline := d_outline doc |} ]> loadedPDFs,
           (id, numPages))
  end.

End WithRuntime.
End Loader.
Import Loader.

(** ** Section lookup *)

Module SectionLocator.
Section WithRuntime.
Context {rt : Runtime}.

(** [interface SectionPage] *)
Record SectionPage : Type :=
  mkSectionPage {
    sp_page : Z;
    totalPages : nat;
    content : jsstring;
    section : jsstring
  }.

(** The variables of the scanning loop of [extractSection];
    [sectionStart] is [None] for the source's -1. *)
Record Scan : Type :=
  mkScan {
    sectionStart : option nat;
    sectionLevel : nat;
    sectionEnd : nat;
    matchedTitle : jsstring
  }.

(** The loop over [lines], from line [i] on.  Returning without a
    recursive call is the source's [break]. *)
Fixpoint scanLines (normalizedQuery : jsstring) (lines : list jsstring)
    (i : nat) (st : Scan) : Scan :=
  match lines with
  | [] => st
  | line :: rest =>
      match headingMatch line with
      | Some (level, rawTitle) =>
          let title := trim (toLowerCase rawTitle) in
          match sectionStart st with
          | None =>
              if includes title normalizedQuery || includes normalizedQuery title
              then scanLines normalizedQuery rest (S i)
                     {| sectionStart := Some i; sectionLevel := level;
                        sectionEnd := sectionEnd st; matchedTitle := rawTitle |}
              else scanLines normalizedQuery rest (S i) st
          | Some _ =>
              if level <=? sectionLevel st
              then {| sectionStart := sectionStart st; sectionLevel := sectionLevel st;
                      sectionEnd := i; matchedTitle := matchedTitle st |}
              else scanLines normalizedQuery rest (S i) st
          end
      | None => scanLines normalizedQuery rest (S i) st
      end
  end.

(** [findSimilarSections]: the first five heading titles. *)
Definition findSimilarSections (markdown query : jsstring) : list jsstring :=
  take 5 (omap (fun line => snd <$> headingMatch line) (splitChar NL markdown)).

Definition extractSection (loadedPDFs : gmap jsstring LoadedPDF)
    (pdfId sectionTitle : jsstring) (page charsPerPage : Z) : Error + SectionPage :=
  match loadedPDFs !! pdfId with
  | None => inl PdfNotFound
  | Some pdf =>
      let normalizedQuery := trim (toLowerCase sectionTitle) in
      let lines := splitChar NL (markdown pdf) in
      let st := scanLines normalizedQuery lines 0
                  {| sectionStart := None; sectionLevel := 0;
                     sectionEnd := length lines; matchedTitle := [] |} in
      match sectionStart st with
      | None => inl (SectionNotFound (findSimilarSections (markdown pdf) sectionTitle))
      | Some start =>
          let fullContent :=
            trim (join [NL] (take (sectionEnd st - start) (drop start lines))) in
          let pages := paginateContent fullContent charsPerPage in
          if ((page <? 1)%Z || (Z.of_nat (length pages) <? page)%Z)%bool
          then inl (PageOutOfRange (length pages))
          else
            inr {| sp_page := page; totalPages := length pages;
                   content := default [] (pages !! Z.to_nat (page - 1));
                   section := matchedTitle st |}
      end
  end.

End WithRuntime.
End SectionLocator.
Import SectionLocator.

(** ** Search *)

Module SearchEngine.
Section WithRuntime.
Context {rt : Runtime}.

(** An element of the [matches] array of [searchPDF]. *)
Record Match : Type :=
  mkMatch {
    m_text : jsstring;
    m_context : jsstring;
    m_section : jsstring
  }.

(** [interface SearchResult]; [page] is always 0 in [searchPDF]. *)
Record SearchResult : Type :=
  mkSearchResult {
    r_page : Z;
    r_section : jsstring;
    r_matches : list (jsstring * jsstring)
  }.

(** The closure [findSectionForPosition] of [searchPDF], with the
    markdown it captures: the lines of the text before the position
    are searched from the last to the first. *)
Definition findSectionForPosition (markdown : jsstring) (position : nat) : jsstring :=
  let textBeforeMatch := take position markdown in
  let lines := splitChar NL textBeforeMatch in
  match omap (fun line => snd <$> headingMatch line) (rev lines) with
  | title :: _ => title
  | [] => js "Document Start"
  end.

(** [maxResults && totalMatches >= maxResults]: an absent limit and the
    limit 0 are both falsy. *)
Definition limitReached (maxResults : option Z) (totalMatches : nat) : bool :=
  match maxResults with
  | Some k => negb (k =? 0)%Z && (k <=? Z.of_nat totalMatches)%Z
  | None => false
  end.

(** The entry pushed for a match at [position]; [matchedLength] is
    [matchedText.length] in the regular-expression branch and
    [query.length] in the literal one. *)
Definition matchAt (markdown : jsstring) (contextChars : Z)
    (position matchedLength : nat) : Match :=
  let matchedText := take matchedLength (drop position markdown) in
  let contextStart := Z.max 0 (Z.of_nat position - contextChars) in
  let contextEnd :=
    Z.min (Z.of_nat (length markdown))
          (Z.of_nat position + Z.of_nat matchedLength + contextChars) in
  let context := substring markdown contextStart contextEnd in
  {| m_text := matchedText; m_context := trim context;
     m_section := findSectionForPosition markdown position |}.

(** The [while] loop of the regular-expression branch.  Each turn
    costs one unit of [fuel]; [None] is a loop still running when the
    fuel is spent. *)
Fixpoint regexScan (fuel : nat) (exec : jsstring -> nat -> option (nat * nat))
    (markdown : jsstring) (maxResults : option Z) (contextChars : Z)
    (lastIndex : nat) (matches : list Match) (totalMatches : nat)
    : option (list Match) :=
  match fuel with
  | 0 => None
  | S fuel' =>
      match exec markdown lastIndex with
      | None => Some matches
      | Some (index, lastIndex') =>
          if limitReached maxResults totalMatches then Some matches
          else
            let m := matchAt markdown contextChars index (lastIndex' - index) in
            let lastIndex'' := if index =? lastIndex' then S lastIndex' else lastIndex' in
            regexScan fuel' exec markdown maxResults contextChars
              lastIndex'' (matches ++ [m]) (S totalMatches)
      end
  end.

(** The [while] loop of the literal branch. *)
Fixpoint literalScan (fuel : nat) (markdown markdownText searchText query : jsstring)
    (maxResults : option Z) (contextChars : Z)
    (position : nat) (matches : list Match) (totalMatches : nat)
    : option (list Match) :=
  match fuel with
  | 0 => None
  | S fuel' =>
      match indexOf markdownText searchText position with
      | None => Some matches
      | Some position' =>
          if limitReached maxResults totalMatches then Some matches
          else
            let m := matchAt markdown contextChars position' (length query) in
            literalScan fuel' markdown markdownText searchText query
              maxResults contextChars
              (position' + length query) (matches ++ [m]) (S totalMatches)
      end
  end.

(** [groupedBySection]: a [Map] keeps its keys in the order of their
    first insertion. *)
Fixpoint groupInsert (m : Match) (groups : list (jsstring * list (jsstring * jsstring)))
    : list (jsstring * list (jsstring * jsstring)) :=
  match groups with
  | [] => [(m_section m, [(m_text m, m_context m)])]
  | (s, sectionMatches) :: later =>
      if decide (s = m_section m)
      then (s, sectionMatches ++ [(m_text m, m_context m)]) :: later
      else (s, sectionMatches) :: groupInsert m later
  end.

Definition groupBySection (matches : list Match) : list SearchResult :=
  map (fun g => {| r_page := 0; r_section := fst g; r_matches := snd g |})
      (fold_left (fun groups m => groupInsert m groups) matches []).

(** The matches collected by [searchPDF], before they are grouped. *)
Definition searchMatches (fuel : nat) (pdf : LoadedPDF) (query : jsstring)
    (caseSensitive regex : bool) (maxResults : option Z) (contextChars : Z)
    : option (Error + list Match) :=
  if regex then
    match newRegExp query (negb caseSensitive) with
    | None => Some (inl InvalidRegularExpression)
    | Some exec =>
        inr <$> regexScan fuel exec (markdown pdf) maxResults contextChars 0 [] 0
    end
  else
    let searchText := if caseSensitive then query else toLowerCase query in
    let markdownText :=
      if caseSensitive then markdown pdf else toLowerCase (markdown pdf) in
    inr <$> literalScan fuel (markdown pdf) markdownText searchText query
              maxResults contextChars 0 [] 0.

(** [searchPDF]; the outer [option] is [None] when [fuel] turns of
    the scanning loop were not enough. *)
Definition searchPDF (fuel : nat) (loadedPDFs : gmap jsstring LoadedPDF)
    (pdfId query : jsstring) (caseSensitive regex : bool)
    (maxResults : option Z) (contextChars : Z)
    : option (Error + list SearchResult) :=
  match loadedPDFs !! pdfId with
  | None => Some (inl PdfNotFound)
  | Some pdf =>
      match searchMatches fuel pdf query caseSensitive regex maxResults contextChars with
      | None => None
      | Some (inl e) => Some (inl e)
      | Some (inr matches) =>
          if length matches =? 0 then Some (inr [])
          else Some (inr (groupBySection matches))
      end
  end.

(** The number of match entries of a result, over all its groups. *)
Definition totalEntries (results : list SearchResult) : nat :=
  foldr (fun r n => length (r_matches r) + n) 0 results.

End WithRuntime.
End SearchEngine.
Import SearchEngine.

(** ** A runtime to run the definitions on

    Lower-casing of the ASCII letters only, patterns without
    metacharacters (so that [exec] is a search for the pattern itself,
    without regard to the case of the ASCII letters when the pattern
    ignores case, and the empty pattern matches the empty string
    everywhere), POSIX paths that are already normal, and URLs of the
    form scheme://host/path. *)

Module Sample.

Definition asciiLower (c : N) : N :=
  if ((65 <=? c)%N && (c <=? 90)%N)%bool then (c + 32)%N else c.

Definition literalExec (pattern text : jsstring) (lastIndex : nat) : option (nat * nat) :=
  if length text <? lastIndex then None
  else (fun i => (i, i + length pattern)) <$> indexOf text pattern lastIndex.

Definition pathnameOf (url : jsstring) : option jsstring :=
  match indexOf url (js "://") 0 with
  | Some i => Some (dropWhile (fun c => negb (c =? SLASH)%N) (drop (i + 3) url))
  | None => None
  end.

#[export] Instance runtime : Runtime := {|
  toLowerCase := map asciiLower;
  newRegExp := fun query ignoreCase =>
    Some (if ignoreCase
          then fun text => literalExec (map asciiLower query) (map asciiLower text)
          else literalExec query);
  path_normalize := fun p => p;
  path_sep := SLASH;
  urlPathname := pathnameOf
|}.

End Sample.

(** ** The other operations on the registry *)

Module Registry.
Section WithRuntime.
Context {rt : Runtime}.

(** What [getPDFInfo] returns. *)
Record PDFInfo : Type :=
  mkPDFInfo {
    i_id : jsstring;
    i_path : jsstring;
    i_pageCount : nat;
    i_metadata : option Metadata
  }.

Definition getPDFInfo (loadedPDFs : gmap jsstring LoadedPDF) (pdfId : jsstring)
    : Error + PDFInfo :=
  match loadedPDFs !! pdfId with
  | None => inl PdfNotFound
  | Some pdf =>
      inr {| i_id := id pdf; i_path := path pdf; i_pageCount := pageCount pdf;
             i_metadata := metadata pdf |}
  end.

(** [unloadPDF]: the registry after [Map.delete], and what [delete]
    returned, true when the key was there. *)
Definition unloadPDF (loadedPDFs : gmap jsstring LoadedPDF) (pdfId : jsstring)
    : gmap jsstring LoadedPDF * bool :=
  (delete pdfId loadedPDFs,
   match loadedPDFs !! pdfId with Some _ => true | None => false end).

(** [restoreCache]: every entry of the cache file is loaded again from
    its path, and an entry that fails to load is passed over.
    [fetchAndDecode] is what reading and decoding a path gives. *)
Definition restoreCache (loadedPDFs : gmap jsstring LoadedPDF)
    (cacheData : list (jsstring * jsstring))
    (fetchAndDecode : jsstring -> option Decoded) : gmap jsstring LoadedPDF :=
  fold_left
    (fun registry item =>
       match loadPDF registry (snd item) (fetchAndDecode (snd item)) with
       | inr (registry', _) => registry'
       | inl _ => registry
       end)
    cacheData loadedPDFs.

(** [extractOutline]: [None] is the source's [null]. *)
Definition extractOutline (loadedPDFs : gmap jsstring LoadedPDF) (pdfId : jsstring)
    : Error + option (list OutlineItem) :=
  match loadedPDFs !! pdfId with
  | None => inl PdfNotFound
  | Some pdf =>
      match outline pdf with
      | None | Some [] => inr None
      | Some items => inr (Some items)
      end
  end.

(** One turn of the loop of [formatOutlineAsText]: the line of the item,
    then its children with two more spaces of indent. *)
Fixpoint formatItem (indent : jsstring) (item : OutlineItem) {struct item} : jsstring :=
  (indent ++ title item ++ [NL])
  ++ (fix loop (items : list OutlineItem) : jsstring :=
        match items with
        | [] => []
        | it :: rest => formatItem (indent ++ js "  ") it ++ loop rest
        end) (children item).

Fixpoint formatOutlineAsText (items : list OutlineItem) (indent : jsstring) : jsstring :=
  match items with
  | [] => []
  | item :: rest => formatItem indent item ++ formatOutlineAsText rest indent
  end.

Definition getFormattedOutline (loadedPDFs : gmap jsstring LoadedPDF) (pdfId : jsstring)
    : Error + jsstring :=
  match extractOutline loadedPDFs pdfId with
  | inl e => inl e
  | inr None => inr (js "No outline/TOC found in this PDF.")
  | inr (Some items) => inr (formatOutlineAsText items [])
  end.

End WithRuntime.
End Registry.
Import Registry.

(** ** Reading the outline of the decoder *)

Module OutlineReader.

#[local] Set Warnings "-register-all".

(** A reference to a page object: [num] and [gen]. *)
Record PageRef : Type := mkPageRef { num : Z; gen : Z }.

(** What [doc.getPage(i + 1)] gives: it throws, or it is a page with its
    [ref], if it has one. *)
Inductive PageSlot : Type :=
| PageFails
| PageWithRef (ref : option PageRef).

(** The [dest] of a raw outline item: the name of a destination, or a
    destination array, of which only the first element counts, and only
    when it is a reference object. *)
Inductive RawDest : Type :=
| DestName (name : jsstring)
| DestArray (first : option PageRef).

(** What [doc.getDestination(name)] gives: it throws, it is [null], or
    it is a destination array. *)
Inductive DestLookup : Type :=
| LookupFails
| LookupNull
| LookupArray (first : option PageRef).

(** An item of [doc.getOutline()]. *)
Inductive RawItem : Type :=
  mkRawItem {
    r_title : jsstring;
    r_dest : option RawDest;
    r_items : list RawItem
  }.

(** The document as the outline reader sees it. *)
Record Doc : Type :=
  mkDoc {
    pageSlots : list PageSlot;
    getDestination : jsstring -> DestLookup
  }.

Definition numPages (doc : Doc) : nat := length (pageSlots doc).

Definition sameRef (a b : PageRef) : bool :=
  ((num a =? num b)%Z && (gen a =? gen b)%Z)%bool.

(** The loop of [getPageIndex] from page index [i] on.  A page that
    throws ends the search: the [catch] around the loop returns
    [null]. *)
Fixpoint getPageIndexFrom (slots : list PageSlot) (i : nat) (pageRef : PageRef)
    : option nat :=
  match slots with
  | [] => None
  | PageFails :: _ => None
  | PageWithRef pageRefObj :: later =>
      match pageRefObj with
      | Some r => if sameRef r pageRef then Some i
                  else getPageIndexFrom later (S i) pageRef
      | None => getPageIndexFrom later (S i) pageRef
      end
  end.

Definition getPageIndex (doc : Doc) (pageRef : PageRef) : option nat :=
  getPageIndexFrom (pageSlots doc) 0 pageRef.

(** The page an item points to, as [processOutline] resolves it: an
    absent or empty [dest] and a failed lookup give no page. *)
Definition resolvePage (doc : Doc) (dest : option RawDest) : option Z :=
  match dest with
  | None => None
  | Some (DestName name) =>
      if truthy name then
        match getDestination doc name with
        | LookupArray (Some pageRef) =>
            (fun pageIndex => Z.of_nat pageIndex + 1)%Z <$> getPageIndex doc pageRef
        | _ => None
        end
      else None
  | Some (DestArray first) =>
      match first with
      | Some pageRef =>
          (fun pageIndex => Z.of_nat pageIndex + 1)%Z <$> getPageIndex doc pageRef
      | None => None
      end
  end.

Fixpoint processItem (doc : Doc) (level : nat) (item : RawItem) {struct item} : OutlineItem :=
  {| title := r_title item;
     level := level;
     page := resolvePage doc (r_dest item);
     children :=
       (fix loop (items : list RawItem) : list OutlineItem :=
          match items with
          | [] => []
          | it :: rest => processItem doc (S level) it :: loop rest
          end) (r_items item) |}.

Fixpoint processOutline (doc : Doc) (outline : list RawItem) (level : nat)
    : list OutlineItem :=
  match outline with
  | [] => []
  | item :: rest => processItem doc level item :: processOutline doc rest level
  end.

End OutlineReader.
Import OutlineReader.

(** ** Images of a page *)

Module Images.

(** The [format] of an image. *)
Inductive Format : Type :=
| FormatUnknown
| FormatJpeg
| FormatPng
| FormatRaw.

(** An image object of [page.objs]: [width] and [height], 0 for one
    that is absent, and the bytes of [data], none for an absent one. *)
Record ImageObj : Type :=
  mkImageObj {
    o_width : Z;
    o_height : Z;
    o_data : list N
  }.

(** What [page.objs.get(imageName)] gives: it throws, it is [null] or
    [undefined], or it is an image object. *)
Inductive ObjLookup : Type :=
| ObjFails
| ObjAbsent
| ObjFound (imageObj : ImageObj).

(** [interface ImageInfo] *)
Record ImageInfo : Type :=
  mkImageInfo {
    im_page : Z;
    im_index : nat;
    im_width : Z;
    im_height : Z;
    im_format : Format;
    im_data : option (list N)
  }.

(** [interface ExtractedImage] *)
Record ExtractedImage : Type :=
  mkExtractedImage {
    e_page : Z;
    e_index : nat;
    e_width : Z;
    e_height : Z;
    e_format : Format;
    e_base64 : jsstring
  }.

(** A page as the image functions see it: the operator list, as the
    pairs of [fnArray[i]] and [argsArray[i][0]]; the objects; and what
    rendering the whole page at a resolution gives, the rounded width
    and height of the viewport and the PNG, or nothing when it
    throws. *)
Record Page : Type :=
  mkPage {
    operators : list (Z * jsstring);
    objs : jsstring -> ObjLookup;
    renderWhole : Z -> option (Z * Z * list N)
  }.

(** What the image functions ask of the canvas, of [Buffer] and of the
    decoder: the PNG [convertRawImageToPNG] gets for a raw image, or
    nothing when it throws; the base64 text of bytes; and the pages of
    the document read again from a path, nothing when reading or
    decoding throws, and no page where [getPage] or [getOperatorList]
    throws. *)
Class ImageServices : Type := {
  convertRawImageToPNG : ImageObj -> option (list N);
  toBase64 : list N -> jsstring;
  openDocument : jsstring -> option (list (option Page))
}.

(** The errors the image functions throw. *)
Inductive ImagesError : Type :=
| ImagesPdfNotFound
| ImagesReadFailed.

(** A number that is truthy. *)
Definition truthyZ (z : Z) : bool := negb (z =? 0)%Z.

(** [fn === 85 || fn === 82 || fn === 83] *)
Definition isImageOp (fn : Z) : bool :=
  ((fn =? 85)%Z || (fn =? 82)%Z || (fn =? 83)%Z)%bool.

(** [data[0] === 0xFF && data[1] === 0xD8] *)
Definition isJpeg (data : list N) : bool :=
  match data with
  | d0 :: d1 :: _ => ((d0 =? 255)%N && (d1 =? 216)%N)%bool
  | _ => false
  end.

(** [data[0] === 0x89 && data[1] === 0x50] *)
Definition isPng (data : list N) : bool :=
  match data with
  | d0 :: d1 :: _ => ((d0 =? 137)%N && (d1 =? 80)%N)%bool
  | _ => false
  end.

(** The loop of [listImagesFromPage] over the operators, with the
    counter [imageIndex]: the images it pushes from here on. *)
Fixpoint listLoop (page : Page) (pageNum : Z) (ops : list (Z * jsstring))
    (imageIndex : nat) : list ImageInfo :=
  match ops with
  | [] => []
  | (fn, imageName) :: later =>
      if isImageOp fn then
        match objs page imageName with
        | ObjFound imageObj =>
            if (truthyZ (o_width imageObj) && truthyZ (o_height imageObj))%bool then
              {| im_page := pageNum; im_index := imageIndex;
                 im_width := o_width imageObj; im_height := o_height imageObj;
                 im_format :=
                   if 0 <? length (o_data imageObj) then
                     if isJpeg (o_data imageObj) then FormatJpeg
                     else if isPng (o_data imageObj) then FormatPng
                     else FormatRaw
                   else FormatUnknown;
                 im_data := None |}
              :: listLoop page pageNum later (S imageIndex)
            else listLoop page pageNum later imageIndex
        | _ => listLoop page pageNum later imageIndex
        end
      else listLoop page pageNum later imageIndex
  end.

Definition listImagesFromPage (page : Page) (pageNum : Z) : list ImageInfo :=
  listLoop page pageNum (operators page) 0.

Section WithServices.
Context {services : ImageServices}.

(** The [format] and [imageData] of an image object in
    [extractImagesFromPage]; [None] when [imageData] stays undefined or
    the conversion throws. *)
Definition imageDataOf (imageObj : ImageObj) : option (Format * list N) :=
  if 0 <? length (o_data imageObj) then
    if isJpeg (o_data imageObj) then Some (FormatJpeg, o_data imageObj)
    else if isPng (o_data imageObj) then Some (FormatPng, o_data imageObj)
    else if (truthyZ (o_width imageObj) && truthyZ (o_height imageObj))%bool then
      (fun png => (FormatPng, png)) <$> convertRawImageToPNG imageObj
    else None
  else None.

(** The first loop of [extractImagesFromPage]. *)
Fixpoint extractLoop (page : Page) (pageNum : Z) (ops : list (Z * jsstring))
    (imageIndex : nat) : list ImageInfo :=
  match ops with
  | [] => []
  | (fn, imageName) :: later =>
      if isImageOp fn then
        match objs page imageName with
        | ObjFound imageObj =>
            match imageDataOf imageObj with
            | Some (format, imageData) =>
                {| im_page := pageNum; im_index := imageIndex;
                   im_width := o_width imageObj; im_height := o_height imageObj;
                   im_format := format; im_data := Some imageData |}
                :: extractLoop page pageNum later (S imageIndex)
            | None => extractLoop page pageNum later imageIndex
            end
        | _ => extractLoop page pageNum later imageIndex
        end
      else extractLoop page pageNum later imageIndex
  end.

(** [extractImagesFromPage]: the embedded images, or the whole page
    rendered as one image when there is none and [dpi] is positive. *)
Definition extractImagesFromPage (page : Page) (pageNum dpi : Z) : list ImageInfo :=
  let images := extractLoop page pageNum (operators page) 0 in
  if ((length images =? 0) && (0 <? dpi)%Z)%bool then
    match renderWhole page dpi with
    | Some (width, height, pngData) =>
        [ {| im_page := pageNum; im_index := 0; im_width := width; im_height := height;
             im_format := FormatPng; im_data := Some pngData |} ]
    | None => []
    end
  else images.

(** The loop of [listImages] over the pages, from [pageNum] on;
    [None] when a page throws. *)
Fixpoint listPages (pages : list (option Page)) (pageNum : Z) : option (list ImageInfo) :=
  match pages with
  | [] => Some []
  | None :: _ => None
  | Some page :: later =>
      app (listImagesFromPage page pageNum) <$> listPages later (pageNum + 1)%Z
  end.

Definition listImages (loadedPDFs : gmap jsstring LoadedPDF) (pdfId : jsstring)
    : ImagesError + list ImageInfo :=
  match loadedPDFs !! pdfId with
  | None => inl ImagesPdfNotFound
  | Some pdf =>
      match openDocument (path pdf) with
      | None => inl ImagesReadFailed
      | Some doc =>
          match listPages doc 1 with
          | Some images => inr images
          | None => inl ImagesReadFailed
          end
      end
  end.

(** The images of a page as [extractImages] pushes them. *)
Definition encoded (pageImages : list ImageInfo) : list ExtractedImage :=
  omap (fun imgInfo =>
          (fun data =>
             {| e_page := im_page imgInfo; e_index := im_index imgInfo;
                e_width := im_width imgInfo; e_height := im_height imgInfo;
                e_format := im_format imgInfo; e_base64 := toBase64 data |})
          <$> im_data imgInfo)
       pageImages.

(** The loop of [extractImages] over [pagesToProcess]. *)
Fixpoint extractPages (doc : list (option Page)) (pagesToProcess : list Z) (dpi : Z)
    : option (list ExtractedImage) :=
  match pagesToProcess with
  | [] => Some []
  | pageNum :: later =>
      if ((pageNum <? 1)%Z || (Z.of_nat (length doc) <? pageNum)%Z)%bool
      then extractPages doc later dpi
      else
        match doc !! Z.to_nat (pageNum - 1) with
        | Some (Some page) =>
            app (encoded (extractImagesFromPage page pageNum dpi))
            <$> extractPages doc later dpi
        | _ => None
        end
  end.

Definition extractImages (loadedPDFs : gmap jsstring LoadedPDF) (pdfId : jsstring)
    (pageNumbers : option (list Z)) (dpi : Z) : ImagesError + list ExtractedImage :=
  match loadedPDFs !! pdfId with
  | None => inl ImagesPdfNotFound
  | Some pdf =>
      match openDocument (path pdf) with
      | None => inl ImagesReadFailed
      | Some doc =>
          let pagesToProcess :=
            match pageNumbers with
            | Some given => given
            | None => map (fun i => Z.of_nat i + 1)%Z (seq 0 (length doc))
            end in
          match extractPages doc pagesToProcess dpi with
          | Some images => inr images
          | None => inl ImagesReadFailed
          end
      end
  end.

(** [extractImage]: [None] is the source's [null]. *)
Definition extractImage (loadedPDFs : gmap jsstring LoadedPDF) (pdfId : jsstring)
    (pageNumber imageIndex dpi : Z) : ImagesError + option ExtractedImage :=
  match extractImages loadedPDFs pdfId (Some [pageNumber]) dpi with
  | inl e => inl e
  | inr images =>
      inr (List.find (fun img => ((e_page img =? pageNumber)%Z
                                  && (Z.of_nat (e_index img) =? imageIndex)%Z)%bool)
                     images)
  end.

End WithServices.
End Images.
Import Images.


(** ** Auxiliary definitions of the proofs *)

Module Aux.

(** Where the paragraph goes: onto the current page, or onto a new
    one. *)
Definition place (B : Z) (pages : list jsstring) (currentPage paragraph : jsstring)
    : list jsstring * jsstring :=
  if (length currentPage =? 0) then (pages, paragraph)
  else if (Z.of_nat (length currentPage + length paragraph + 2) <=? B)%Z
       then (pages, currentPage ++ NL2 ++ paragraph)
       else (pages ++ [currentPage], paragraph).

(** Whether the heading look-ahead pulls the next paragraph. *)
Definition pulls (B : Z) (paragraph page1 nextParagraph : jsstring) : bool :=
  startsHeading paragraph && truthy nextParagraph
  && (Z.of_nat (length page1 + length nextParagraph + 2) <=? B)%Z.

(** The number of offsets of [s] at which [pat] occurs. *)
Fixpoint occurrences (pat s : jsstring) : nat :=
  (if isPrefix pat s then 1 else 0)
  + match s with
    | [] => 0
    | _ :: r => occurrences pat r
    end.

(** The outline nodes with a resolved target page, in depth-first
    document order: title, level and target page. *)
Fixpoint resolvedNodes (item : OutlineItem) : list (jsstring * nat * Z) :=
  (match truthyPage (page item) with
   | Some p => [(title item, level item, p)]
   | None => []
   end)
  ++ flat_map resolvedNodes (children item).

(** The end pages as the specification words them: the start page of
    the next flattened section minus 1, or the last page when none
    follows. *)
Fixpoint specSections (nPages : nat) (nodes : list (jsstring * nat * Z)) : list FlatSection :=
  match nodes with
  | [] => []
  | (t, l, p) :: later =>
      {| fs_title := t; fs_level := l; startPage := p;
         endPage := match later with
                    | (_, _, q) :: _ => (q - 1)%Z
                    | [] => Z.of_nat nPages
                    end |}
      :: specSections nPages later
  end.

(** The flattening of the specification. *)
Definition specFlatten (nPages : nat) (items : list OutlineItem) : list FlatSection :=
  specSections nPages (flat_map resolvedNodes items).

(** The title, level and start page of a flattened section. *)
Definition sectionHead (s : FlatSection) : jsstring * nat * Z :=
  (fs_title s, fs_level s, startPage s).

(** The outline of the example: two entries at the top level, which
    [processOutline] numbers 0. *)
Definition chapters : list OutlineItem :=
  [ {| title := js "Chapter 1"; page := Some 2%Z; level := 0; children := [] |};
    {| title := js "Chapter 2"; page := Some 3%Z; level := 0; children := [] |} ].

(** An outline with a nested entry: A at page 1 with the child A1 at
    page 2, then B at page 3. *)
Definition nested : list OutlineItem :=
  [ {| title := js "A"; page := Some 1%Z; level := 0;
       children := [ {| title := js "A1"; page := Some 2%Z; level := 1;
                        children := [] |} ] |};
    {| title := js "B"; page := Some 3%Z; level := 0; children := [] |} ].

(** An outline without children. *)
Definition isFlat (items : list OutlineItem) : Prop :=
  Forall (fun item => children item = []) items.

(** An outline whose entries of the top level all have a target page. *)
Definition allResolved (items : list OutlineItem) : Prop :=
  Forall (fun item => truthyPage (page item) <> None) items.

(** The first lines of [generateUniqueId]: the normalized locator and
    its segments. *)
Definition locate {rt : Runtime} (filePath : jsstring) : jsstring * list jsstring :=
  if isUrl filePath then
    match urlPathname filePath with
    | Some urlPath => (filePath, nonEmptyParts SLASH urlPath)
    | None => (filePath, nonEmptyParts SLASH filePath)
    end
  else (path_normalize filePath, nonEmptyParts path_sep (path_normalize filePath)).

(** The rest of [generateUniqueId], from the segments on. *)
Definition pickId {rt : Runtime} (existingPaths : gmap jsstring jsstring)
    (normalizedPath separator : jsstring) (parts : list jsstring) : jsstring :=
  if (length parts =? 0) then js "unknown.pdf"
  else
    if decide (existingPaths !! List.last parts [] = Some normalizedPath)
    then List.last parts []
    else
      match candidateLoop existingPaths normalizedPath separator parts
              (seq 1 (length parts)) with
      | Some candidateId => candidateId
      | None => join separator parts
      end.

(** The first heading line of a body: its number of hashes and its
    title. *)
Definition firstHeading (markdown : jsstring) : option (nat * jsstring) :=
  head (omap headingMatch (splitChar NL markdown)).

(** Lower-casing leaves a string of white space a string of white
    space (no white-space character has a case mapping). *)
Definition LowerKeepsBlank (rt : Runtime) : Prop :=
  forall s, forallb isWhiteSpace s = true ->
            forallb isWhiteSpace (toLowerCase s) = true.

(** The two scanning loops of [searchPDF] have one shape: [next] looks
    for a match from the state [s] and gives the state to go on from
    and the entry to push. *)
Fixpoint scanLoop {St : Type} (fuel : nat) (next : St -> option (St * Match))
    (maxResults : option Z) (s : St) (matches : list Match) (totalMatches : nat)
    : option (list Match) :=
  match fuel with
  | 0 => None
  | S fuel' =>
      match next s with
      | None => Some matches
      | Some (s', m) =>
          if limitReached maxResults totalMatches then Some matches
          else scanLoop fuel' next maxResults s' (matches ++ [m]) (S totalMatches)
      end
  end.

(** All the entries of a scan without limit. *)
Fixpoint scanAll {St : Type} (fuel : nat) (next : St -> option (St * Match)) (s : St)
    : option (list Match) :=
  match fuel with
  | 0 => None
  | S fuel' =>
      match next s with
      | None => Some []
      | Some (s', m) => cons m <$> scanAll fuel' next s'
      end
  end.

(** Where the scan goes on after a match from [index] to [lastIndex]:
    one further when the match is empty. *)
Definition advance (hit : nat * nat) : nat :=
  if fst hit =? snd hit then S (snd hit) else snd hit.

Definition hitMatch (markdown : jsstring) (contextChars : Z) (hit : nat * nat) : Match :=
  matchAt markdown contextChars (fst hit) (snd hit - fst hit).

Definition regexNext (exec : jsstring -> nat -> option (nat * nat))
    (markdown : jsstring) (contextChars : Z) (lastIndex : nat) : option (nat * Match) :=
  match exec markdown lastIndex with
  | None => None
  | Some hit => Some (advance hit, hitMatch markdown contextChars hit)
  end.

Definition literalNext (markdown markdownText searchText query : jsstring)
    (contextChars : Z) (position : nat) : option (nat * Match) :=
  match indexOf markdownText searchText position with
  | None => None
  | Some position' =>
      Some (position' + length query, matchAt markdown contextChars position' (length query))
  end.

(** The matches of a pattern in a text, scanned from [lastIndex]: each is
    what [exec] finds from where the one before ended, one position
    further after an empty match, until [exec] finds nothing. *)
Inductive Hits (exec : jsstring -> nat -> option (nat * nat)) (text : jsstring)
    : nat -> list (nat * nat) -> Prop :=
| Hits_done lastIndex :
    exec text lastIndex = None -> Hits exec text lastIndex []
| Hits_more lastIndex hit later :
    exec text lastIndex = Some hit ->
    Hits exec text (advance hit) later ->
    Hits exec text lastIndex (hit :: later).

(** The number of entries a search returns when there are [total]
    matches: a limit that is absent or 0 does not limit. *)
Definition expectedCount (maxResults : option Z) (total : nat) : nat :=
  match maxResults with
  | Some k => if (k =? 0)%Z then total else Nat.min (Z.to_nat k) total
  | None => total
  end.

(** A document of the given body, and the registry that holds it under
    the identifier doc. *)
Definition documentOf (body : jsstring) : LoadedPDF :=
  {| id := js "doc"; path := js "/tmp/doc.pdf"; pageCount := 1;
     markdown := body; metadata := None; outline := None |}.

Definition oneDocument (body : jsstring) : gmap jsstring LoadedPDF :=
  {[ js "doc" := documentOf body ]}.

(** What the search for a in the body aa returns without limit. *)
Definition allOfAA : list SearchResult :=
  [ {| r_page := 0; r_section := js "Document Start";
       r_matches := [(js "a", js "aa"); (js "a", js "aa")] |} ].

(** A body with two sections; the first heading is at offset 0, the
    second at offset 19, and the word World is at offset 8. *)
Definition twoSections : jsstring := js "# Hello World\nbody\n# Two\nmore".

(** A decoded document of one page, and the registry after it was
    loaded from /a/report.pdf. *)
Definition reportDoc : Decoded :=
  {| d_pages := [js "text"]; d_outline := None; d_metadata := None |}.

Definition reportStore : gmap jsstring LoadedPDF :=
  <[ js "report.pdf" :=
       {| id := js "report.pdf"; path := js "/a/report.pdf"; pageCount := 1;
          markdown := js "text"; metadata := None; outline := None |} ]> ∅.

(** What [convertToMarkdown] appends to the body, piece by piece: the
    heading of a section, or the text of a page given by its number. *)
Inductive Piece : Type :=
| PHeading (level : nat) (title : jsstring)
| PPage (p : Z).

(** The pages the emission does not skip: those with a text that is not
    blank. *)
Definition nonBlankPage (pages : list jsstring) (p : Z) : bool :=
  match pageAt pages p with
  | Some text => truthy (trim text)
  | None => false
  end.

Definition pagePieces (pages : list jsstring) (lo hi : Z) : list Piece :=
  map PPage (List.filter (nonBlankPage pages) (rangeZ lo hi)).

Definition sectionPieces (pages : list jsstring) (st : list Piece * Z)
    (section : FlatSection) : list Piece * Z :=
  (fst st
     ++ (if (snd st + 1 <? startPage section)%Z
         then pagePieces pages (snd st + 1) (startPage section - 1) else [])
     ++ [PHeading (fs_level section) (fs_title section)]
     ++ pagePieces pages (startPage section) (endPage section),
   endPage section).

Definition bodyPieces (pages : list jsstring) (items : list OutlineItem) : list Piece :=
  let st := fold_left (sectionPieces pages)
              (sortSections (flattenOutline (length pages) items)) ([], 0%Z) in
  fst st
    ++ (if (snd st <? Z.of_nat (length pages))%Z
        then pagePieces pages (snd st + 1) (Z.of_nat (length pages)) else []).

Definition renderPiece (pages : list jsstring) (piece : Piece) : jsstring :=
  match piece with
  | PHeading l t => hashes (l + 1) ++ js " " ++ t ++ NL2
  | PPage p => default [] (pageAt pages p) ++ NL2
  end.

Definition render (pages : list jsstring) (pieces : list Piece) : jsstring :=
  flat_map (renderPiece pages) pieces.

(** The test of [extractSection] on a heading: the title, lower-cased
    and trimmed, contains the query or is contained in it. *)
Definition titleMatches {rt : Runtime} (normalizedQuery rawTitle : jsstring) : bool :=
  includes (trim (toLowerCase rawTitle)) normalizedQuery
  || includes normalizedQuery (trim (toLowerCase rawTitle)).

(** The variables of the scanning loop of [extractSection] before its
    first turn. *)
Definition scanStart (lines : list jsstring) : Scan :=
  {| sectionStart := None; sectionLevel := 0;
     sectionEnd := length lines; matchedTitle := [] |}.

(** The groups [searchPDF] builds from the matches, as pairs of a label
    and its entries. *)
Definition groupsOf (matches : list Match) : list (jsstring * list (jsstring * jsstring)) :=
  fold_left (fun groups m => groupInsert m groups) matches [].

(** The entries of the matches attributed to a section, in the order of
    the scan. *)
Definition entriesOf (s : jsstring) (matches : list Match) : list (jsstring * jsstring) :=
  map (fun m => (m_text m, m_context m))
      (List.filter (fun m => bool_decide (m_section m = s)) matches).

(** A title that survives the writing of its heading line and the
    reading of it: it is not empty, has no line terminator, and neither
    starts nor ends with white space. *)
Definition cleanTitle (t : jsstring) : Prop :=
  forallb (fun c => negb (isLineTerminator c)) t = true
  /\ (exists a rest, t = a :: rest /\ isWhiteSpace a = false)
  /\ (exists front z, t = front ++ [z] /\ isWhiteSpace z = false).

(** The page numbers among the pieces of a body, and its headings. *)
Definition pagesOf (pieces : list Piece) : list Z :=
  omap (fun piece => match piece with PPage p => Some p | PHeading _ _ => None end) pieces.

Definition headingsOf (pieces : list Piece) : list (nat * jsstring) :=
  omap (fun piece => match piece with PHeading l t => Some (l, t) | PPage _ => None end)
       pieces.

(** An outline of one level whose entries point to pages in ascending
    order, from [lo] on and within the document of [nPages] pages. *)
Fixpoint ascending (lo : Z) (nPages : nat) (items : list OutlineItem) : Prop :=
  match items with
  | [] => True
  | item :: rest =>
      children item = []
      /\ exists p, page item = Some p /\ (lo <= p <= Z.of_nat nPages)%Z
                   /\ ascending (p + 1) nPages rest
  end.

(** Sections in ascending order of start page. *)
Definition startsLe (a b : FlatSection) : Prop := (startPage a <= startPage b)%Z.


(** An identifier in use for another locator: the registry maps it to
    a path that is not empty and is not the normalized locator. *)
Definition takenByOther (existingPaths : gmap jsstring jsstring)
    (normalizedPath candidateId : jsstring) : Prop :=
  exists existingPath,
    existingPaths !! candidateId = Some existingPath
    /\ truthy existingPath = true /\ existingPath <> normalizedPath.

(** The map [existingPaths] of [generateUniqueId]. *)
Definition existingPathsOf {rt : Runtime} (loadedPDFs : gmap jsstring LoadedPDF)
    : gmap jsstring jsstring :=
  (fun pdf => normalizedOf (path pdf)) <$> loadedPDFs.

(** The separator [generateUniqueId] joins the segments with. *)
Definition separatorOf {rt : Runtime} (filePath : jsstring) : jsstring :=
  if isUrl filePath then [SLASH] else [path_sep].

(** A registry in which every document is stored under its own
    identifier. *)
Definition keyed (loadedPDFs : gmap jsstring LoadedPDF) : Prop :=
  forall k pdf, loadedPDFs !! k = Some pdf -> id pdf = k.


(** The registry after /x/b.pdf and then a/b.pdf were loaded, each a
    document of one page. *)
Definition crowdedStore : gmap jsstring LoadedPDF :=
  <[ js "a/b.pdf" :=
       {| id := js "a/b.pdf"; path := js "a/b.pdf"; pageCount := 1;
          markdown := js "text"; metadata := None; outline := None |} ]>
    (<[ js "b.pdf" :=
          {| id := js "b.pdf"; path := js "/x/b.pdf"; pageCount := 1;
             markdown := js "text"; metadata := None; outline := None |} ]> ∅).


(** The nodes of an outline, in depth-first document order. *)
Fixpoint nodesOf (item : OutlineItem) : list OutlineItem :=
  item :: flat_map nodesOf (children item).

(** The titles of an outline with the depth of their nodes, from
    [depth] for the nodes of the top, in depth-first document order. *)
Fixpoint titlesAt (depth : nat) (item : OutlineItem) : list (jsstring * nat) :=
  (title item, depth) :: flat_map (titlesAt (S depth)) (children item).

(** The same for the outline as the decoder gives it. *)
Fixpoint rawTitlesAt (depth : nat) (item : RawItem) : list (jsstring * nat) :=
  (r_title item, depth) :: flat_map (rawTitlesAt (S depth)) (r_items item).

(** A line of the formatted outline: the indent, two spaces for each
    level of depth, the title and a line feed. *)
Definition outlineLine (indent : jsstring) (entry : jsstring * nat) : jsstring :=
  indent ++ repeat 32%N (2 * snd entry) ++ fst entry ++ [NL].

(** A page number that is the number of a page of the document whose
    reference the decoder could read. *)
Definition pageOfDoc (doc : Doc) (p : Z) : Prop :=
  (1 <= p <= Z.of_nat (numPages doc))%Z
  /\ exists r, pageSlots doc !! Z.to_nat (p - 1) = Some (PageWithRef (Some r)).

(** A raw outline of two entries, the first with a child, and a
    document of three pages to resolve it in. *)
Definition rawSample : list RawItem :=
  [ mkRawItem (js "A") (Some (DestArray (Some (mkPageRef 11 0))))
      [ mkRawItem (js "A1") (Some (DestName (js "a1"))) [] ];
    mkRawItem (js "B") (Some (DestArray (Some (mkPageRef 99 0)))) [] ].

Definition docSample : Doc :=
  {| pageSlots := [ PageWithRef (Some (mkPageRef 10 0));
                    PageWithRef (Some (mkPageRef 11 0));
                    PageWithRef (Some (mkPageRef 12 0)) ];
     getDestination := fun name =>
       if bool_decide (name = js "a1") then LookupArray (Some (mkPageRef 12 0))
       else LookupNull |}.


(** An image object that [listImagesFromPage] lists, and one that
    [extractImagesFromPage] extracts. *)
Definition listed (imageObj : ImageObj) : bool :=
  truthyZ (o_width imageObj) && truthyZ (o_height imageObj).

Definition extracted {services : ImageServices} (imageObj : ImageObj) : bool :=
  match imageDataOf imageObj with Some _ => true | None => false end.

(** A page on which the two agree for the object of every image
    operator. *)
Definition sameImages {services : ImageServices} (page : Page) : Prop :=
  forall fn imageName imageObj,
    In (fn, imageName) (operators page) -> isImageOp fn = true ->
    objs page imageName = ObjFound imageObj ->
    listed imageObj = extracted imageObj.

(** The page, index and size of an image. *)
Definition placeOf (info : ImageInfo) : Z * nat * Z * Z :=
  (im_page info, im_index info, im_width info, im_height info).

Definition placeOfExtracted (img : ExtractedImage) : Z * nat * Z * Z :=
  (e_page img, e_index img, e_width img, e_height img).

(** The test of [extractImage] on an image. *)
Definition isImageAt (pageNumber imageIndex : Z) (img : ExtractedImage) : bool :=
  (e_page img =? pageNumber)%Z && (Z.of_nat (e_index img) =? imageIndex)%Z.

(** A page with a JPEG image and a raw image, between them an operator
    that paints no image; and the same page with, first, an image
    object that has a size and no data. *)
Definition photoObjs (imageName : jsstring) : ObjLookup :=
  if bool_decide (imageName = js "photo") then
    ObjFound {| o_width := 10; o_height := 20; o_data := [255; 216; 255]%N |}
  else if bool_decide (imageName = js "scan") then
    ObjFound {| o_width := 5; o_height := 5; o_data := [1; 2; 3]%N |}
  else if bool_decide (imageName = js "mask") then
    ObjFound {| o_width := 8; o_height := 8; o_data := [] |}
  else ObjAbsent.

Definition photoPage : Page :=
  {| operators := [(85, js "photo"); (31, js ""); (82, js "scan")]%Z;
     objs := photoObjs; renderWhole := fun _ => None |}.

Definition maskPage : Page :=
  {| operators := [(83, js "mask"); (85, js "photo")]%Z;
     objs := photoObjs; renderWhole := fun _ => None |}.

(** Services to run the image functions on: the conversion of a raw
    image puts the signature of a PNG in front of the data, the bytes
    stand for their base64 text, and the document at /a/report.pdf has
    the page of the photo and that at /a/mask.pdf the page of the
    mask. *)
Definition sampleServices : ImageServices :=
  {| convertRawImageToPNG := fun imageObj => Some (137%N :: 80%N :: o_data imageObj);
     toBase64 := fun data => data;
     openDocument := fun p =>
       if bool_decide (p = js "/a/report.pdf") then Some [Some photoPage]
       else if bool_decide (p = js "/a/mask.pdf") then Some [Some maskPage]
       else None |}.

Definition maskStore : gmap jsstring LoadedPDF :=
  <[ js "mask.pdf" :=
       {| id := js "mask.pdf"; path := js "/a/mask.pdf"; pageCount := 1;
          markdown := js "text"; metadata := None; outline := None |} ]> ∅.


(** Whether the loop of [paginateContent] begins a page with an empty
    paragraph: the paragraph is met while the current page is empty, or
    it does not fit the current page.  The page begun is then empty,
    which the loop reads as no page begun. *)
Fixpoint startsEmptyPage (B : Z) (paragraphs : list jsstring) (currentPage : jsstring)
    : bool :=
  match paragraphs with
  | [] => false
  | paragraph :: rest =>
      let page1 := snd (place B [] currentPage paragraph) in
      if (length page1 =? 0) then true
      else
        match rest with
        | nextParagraph :: rest' =>
            if pulls B paragraph page1 nextParagraph
            then startsEmptyPage B rest' (page1 ++ NL2 ++ nextParagraph)
            else startsEmptyPage B rest page1
        | [] => false
        end
  end.

(** The number of characters of the strings of a list, each counted
    with a separator of two characters. *)
Definition spread (l : list jsstring) : nat :=
  foldr (fun x n => length x + 2 + n) 0 l.

(** The lines of a section as the specification words it: the heading
    line at [start], of level [lvl], and the lines after it up to the
    next heading line of the same or a shallower level, which is left
    out; heading lines of a deeper level belong to the section. *)
Definition inSection (lvl : nat) (line : jsstring) : bool :=
  match headingMatch line with
  | Some (level, _) => negb (level <=? lvl)
  | None => true
  end.

Definition sectionLines (lines : list jsstring) (start lvl : nat) : list jsstring :=
  match drop start lines with
  | [] => []
  | heading :: later => heading :: takeWhile (inSection lvl) later
  end.

(** The pages of a section. *)
Definition sectionPages (lines : list jsstring) (start lvl : nat) (charsPerPage : Z)
    : list jsstring :=
  paginateContent (trim (join [NL] (sectionLines lines start lvl))) charsPerPage.




(** A body with a section that has a deeper section in it, and a
    section of the same level after it. *)
Definition nestedSections : jsstring := js "# One\nintro\n## Part\ndeep\n# Two\nend".

End Aux.
Import Aux.

(** * Properties *)

(** ** Strings *)

Section StringFacts.

Lemma consHead_not_nil (x : N) (l : list jsstring) : consHead x l <> [].
Proof. destruct l; discriminate. Qed.

Lemma splitParagraphs_step (x y : N) (r : jsstring) :
  splitParagraphs (x :: y :: r)
  = if ((x =? NL)%N && (y =? NL)%N)%bool then [] :: splitParagraphs r
    else consHead x (splitParagraphs (y :: r)).
Proof. reflexivity. Qed.

Lemma splitChar_step (c x : N) (r : jsstring) :
  splitChar c (x :: r)
  = if (x =? c)%N then [] :: splitChar c r else consHead x (splitChar c r).
Proof. reflexivity. Qed.

Lemma splitParagraphs_not_nil (s : jsstring) : splitParagraphs s <> [].
Proof.
  destruct s as [|x [|y r]]; try discriminate.
  rewrite splitParagraphs_step.
  destruct ((x =? NL)%N && (y =? NL)%N)%bool;
    [discriminate | apply consHead_not_nil].
Qed.

Lemma splitChar_not_nil (c : N) (s : jsstring) : splitChar c s <> [].
Proof.
  destruct s as [|x r]; try discriminate.
  rewrite splitChar_step.
  destruct (x =? c)%N; [discriminate | apply consHead_not_nil].
Qed.

Lemma join_consHead (sep : jsstring) (x : N) (l : list jsstring) :
  l <> [] -> join sep (consHead x l) = x :: join sep l.
Proof.
  destruct l as [|p [|q r]]; simpl; intros H; congruence.
Qed.

Lemma join_cons (sep x : jsstring) (l : list jsstring) :
  l <> [] -> join sep (x :: l) = x ++ sep ++ join sep l.
Proof. destruct l; simpl; congruence. Qed.

Lemma join_snoc (sep x : jsstring) (l : list jsstring) :
  l <> [] -> join sep (l ++ [x]) = join sep l ++ sep ++ x.
Proof.
  induction l as [|a l IH]; [congruence|]. intros _.
  destruct l as [|b l]; [reflexivity|].
  change ((a :: b :: l) ++ [x]) with (a :: ((b :: l) ++ [x])).
  rewrite join_cons by (simpl; discriminate).
  rewrite IH by discriminate.
  rewrite (join_cons sep a (b :: l)) by discriminate.
  now rewrite <- !app_assoc.
Qed.

Lemma join_app (sep : jsstring) (l1 l2 : list jsstring) :
  l1 <> [] -> l2 <> [] ->
  join sep (l1 ++ l2) = join sep l1 ++ sep ++ join sep l2.
Proof.
  induction l1 as [|a l1 IH]; [congruence|]. intros _ H2.
  destruct l1 as [|b l1].
  - simpl app. now rewrite join_cons.
  - change ((a :: b :: l1) ++ l2) with (a :: ((b :: l1) ++ l2)).
    rewrite join_cons by (simpl; discriminate).
    rewrite IH by (discriminate || assumption).
    rewrite (join_cons sep a (b :: l1)) by discriminate.
    now rewrite <- !app_assoc.
Qed.

(** Splitting at the paragraph separator and joining with it again
    gives the text back. *)
Lemma join_splitParagraphs (s : jsstring) : join NL2 (splitParagraphs s) = s.
Proof.
  assert (H : forall n (t : jsstring), length t <= n -> join NL2 (splitParagraphs t) = t).
  { induction n as [|n IH]; intros t Hlen.
    - destruct t; [reflexivity | simpl in Hlen; lia].
    - destruct t as [|x [|y r]]; try reflexivity.
      rewrite splitParagraphs_step.
      destruct ((x =? NL)%N && (y =? NL)%N)%bool eqn:E.
      + apply andb_true_iff in E as [Ex Ey].
        apply N.eqb_eq in Ex, Ey. subst x y.
        rewrite join_cons by apply splitParagraphs_not_nil.
        rewrite IH by (simpl in Hlen; lia). reflexivity.
      + rewrite join_consHead by apply splitParagraphs_not_nil.
        rewrite IH by (simpl in Hlen |- *; lia). reflexivity. }
  now apply (H (length s)).
Qed.

Lemma join_splitChar (c : N) (s : jsstring) : join [c] (splitChar c s) = s.
Proof.
  induction s as [|x r IH]; [reflexivity|].
  rewrite splitChar_step. destruct (x =? c)%N eqn:E.
  - apply N.eqb_eq in E. subst x.
    rewrite join_cons by apply splitChar_not_nil. now rewrite IH.
  - rewrite join_consHead by apply splitChar_not_nil. now rewrite IH.
Qed.

End StringFacts.

(** ** Paginator *)

Section PaginatorFacts.

Lemma paginateLoop_nil B pages cur :
  paginateLoop B [] pages cur
  = if (0 <? length cur) then pages ++ [cur] else pages.
Proof. reflexivity. Qed.

Lemma paginateLoop_one B p pages cur :
  paginateLoop B [p] pages cur
  = paginateLoop B [] (fst (place B pages cur p)) (snd (place B pages cur p)).
Proof.
  unfold place. cbn [paginateLoop].
  destruct (length cur =? 0); [reflexivity|].
  destruct (Z.of_nat (length cur + length p + 2) <=? B)%Z; reflexivity.
Qed.

Lemma paginateLoop_two B p q rest pages cur :
  paginateLoop B (p :: q :: rest) pages cur
  = let pl := place B pages cur p in
    if pulls B p (snd pl) q
    then paginateLoop B rest (fst pl) (snd pl ++ NL2 ++ q)
    else paginateLoop B (q :: rest) (fst pl) (snd pl).
Proof.
  unfold place, pulls. cbn [paginateLoop].
  destruct (length cur =? 0); [reflexivity|].
  destruct (Z.of_nat (length cur + length p + 2) <=? B)%Z; reflexivity.
Qed.

Lemma length_glue (a b : jsstring) : length (a ++ NL2 ++ b) = length a + length b + 2.
Proof. rewrite !length_app. simpl. lia. Qed.

(** Every page is within the budget or is one of the paragraphs. *)
Lemma paginateLoop_pages (B : Z) (all : list jsstring) :
  let ok page := (Z.of_nat (length page) <= B)%Z \/ In page all in
  forall n paragraphs pages cur,
    length paragraphs <= n ->
    (forall p, In p paragraphs -> In p all) ->
    Forall ok pages -> ok cur ->
    Forall ok (paginateLoop B paragraphs pages cur).
Proof.
  intros ok. induction n as [|n IH]; intros ps pages cur Hn Hin Hpages Hcur.
  - destruct ps; [|simpl in Hn; lia].
    rewrite paginateLoop_nil. destruct (0 <? length cur); auto.
    apply Forall_app; auto.
  - assert (Hplace : forall p, In p all ->
              Forall ok (fst (place B pages cur p)) /\ ok (snd (place B pages cur p))).
    { intros p Hp. unfold place.
      destruct (length cur =? 0); [split; [assumption | right; assumption]|].
      destruct (Z.of_nat (length cur + length p + 2) <=? B)%Z eqn:E; cbn [fst snd].
      - split; [assumption|]. left. rewrite length_glue.
        apply Z.leb_le in E. exact E.
      - split; [|right; assumption]. apply Forall_app; auto. }
    destruct ps as [|p [|q rest]].
    + rewrite paginateLoop_nil. destruct (0 <? length cur); auto.
      apply Forall_app; auto.
    + rewrite paginateLoop_one.
      destruct (Hplace p) as [H1 H2]; [apply Hin; now left|].
      rewrite paginateLoop_nil.
      destruct (0 <? length _); auto. apply Forall_app; auto.
    + rewrite paginateLoop_two. cbv zeta.
      destruct (Hplace p) as [H1 H2]; [apply Hin; now left|].
      destruct (pulls B p (snd (place B pages cur p)) q) eqn:E.
      * apply IH; auto.
        -- simpl in Hn. lia.
        -- intros x Hx. apply Hin. now right; right.
        -- left. unfold pulls in E.
           apply andb_true_iff in E as [_ E].
           rewrite length_glue. apply Z.leb_le in E. exact E.
      * apply IH; auto.
        -- simpl in Hn. simpl. lia.
        -- intros x Hx. apply Hin. now right.
Qed.

End PaginatorFacts.

Section PaginatorClaims.

Lemma place_page (B : Z) (pages pages' : list jsstring) (cur p : jsstring) :
  snd (place B pages cur p) = snd (place B pages' cur p).
Proof.
  unfold place. destruct (length cur =? 0); [reflexivity|].
  destruct (Z.of_nat (length cur + length p + 2) <=? B)%Z; reflexivity.
Qed.

Lemma startsEmptyPage_one (B : Z) (p cur : jsstring) :
  startsEmptyPage B [p] cur = (length (snd (place B [] cur p)) =? 0).
Proof. cbn [startsEmptyPage]. now destruct (length _ =? 0). Qed.

Lemma startsEmptyPage_two (B : Z) (p q : jsstring) (rest : list jsstring) (cur : jsstring) :
  startsEmptyPage B (p :: q :: rest) cur
  = if (length (snd (place B [] cur p)) =? 0) then true
    else if pulls B p (snd (place B [] cur p)) q
         then startsEmptyPage B rest (snd (place B [] cur p) ++ NL2 ++ q)
         else startsEmptyPage B (q :: rest) (snd (place B [] cur p)).
Proof. reflexivity. Qed.

Lemma length_zero_nil (s : jsstring) : (length s =? 0) = false <-> s <> [].
Proof. destruct s; cbn; split; congruence. Qed.

(** Placing a paragraph loses nothing of the text. *)
Lemma place_join (B : Z) (pages : list jsstring) (cur p : jsstring)
    (rest : list jsstring) :
  cur <> [] ->
  join NL2 (fst (place B pages cur p) ++ [snd (place B pages cur p)] ++ rest)
  = join NL2 (pages ++ [cur] ++ p :: rest).
Proof.
  intros Hc. unfold place. rewrite (proj2 (length_zero_nil cur) Hc).
  destruct (Z.of_nat (length cur + length p + 2) <=? B)%Z; cbn [fst snd].
  - destruct pages as [|a pages'].
    + simpl app. destruct rest.
      * reflexivity.
      * rewrite !join_cons by discriminate. now rewrite <- !app_assoc.
    + rewrite !(join_app NL2 (a :: pages')) by discriminate.
      do 2 f_equal. simpl app. destruct rest.
      * reflexivity.
      * rewrite !join_cons by discriminate. now rewrite <- !app_assoc.
  - now rewrite <- app_assoc.
Qed.

Lemma glue_join (pages : list jsstring) (cur q : jsstring) (rest : list jsstring) :
  join NL2 (pages ++ [cur ++ NL2 ++ q] ++ rest)
  = join NL2 (pages ++ [cur] ++ q :: rest).
Proof.
  destruct pages as [|a pages'].
  - simpl app. destruct rest.
    + reflexivity.
    + rewrite !join_cons by discriminate. now rewrite <- !app_assoc.
  - rewrite !(join_app NL2 (a :: pages')) by discriminate.
    do 2 f_equal. simpl app. destruct rest.
    + reflexivity.
    + rewrite !join_cons by discriminate. now rewrite <- !app_assoc.
Qed.

(** When no page is begun with an empty paragraph, nothing is lost. *)
Lemma paginateLoop_kept (B : Z) :
  forall n paragraphs pages cur,
    length paragraphs <= n -> cur <> [] ->
    startsEmptyPage B paragraphs cur = false ->
    join NL2 (paginateLoop B paragraphs pages cur)
    = join NL2 (pages ++ [cur] ++ paragraphs).
Proof.
  assert (Hnz : forall c : jsstring, c <> [] -> (0 <? length c) = true).
  { intros [|? ?] H; [congruence | reflexivity]. }
  induction n as [|n IH]; intros ps pages cur Hn Hcur Hkept.
  - destruct ps; [|simpl in Hn; lia].
    rewrite paginateLoop_nil, Hnz by assumption. reflexivity.
  - destruct ps as [|p [|q rest]].
    + rewrite paginateLoop_nil, Hnz by assumption. reflexivity.
    + rewrite startsEmptyPage_one in Hkept.
      rewrite (place_page B [] pages) in Hkept. apply length_zero_nil in Hkept.
      rewrite paginateLoop_one, paginateLoop_nil, Hnz by assumption.
      exact (place_join B pages cur p [] Hcur).
    + rewrite startsEmptyPage_two in Hkept.
      rewrite !(place_page B [] pages) in Hkept.
      destruct (length (snd (place B pages cur p)) =? 0) eqn:E1; [discriminate|].
      apply length_zero_nil in E1.
      rewrite paginateLoop_two. cbv zeta.
      destruct (pulls B p (snd (place B pages cur p)) q).
      * rewrite IH; [| simpl in Hn; lia
                     | destruct (snd (place B pages cur p)); [congruence | discriminate]
                     | exact Hkept].
        rewrite glue_join. now apply place_join.
      * rewrite IH; [| simpl in Hn |- *; lia | exact E1 | exact Hkept].
        now apply place_join.
Qed.

Lemma paginateLoop_kept_start (B : Z) (paragraphs : list jsstring) :
  startsEmptyPage B paragraphs [] = false ->
  join NL2 (paginateLoop B paragraphs [] []) = join NL2 paragraphs.
Proof.
  intros Hkept. destruct paragraphs as [|p [|q rest]]; [reflexivity| |].
  - rewrite startsEmptyPage_one in Hkept. unfold place in Hkept.
    cbn [length Nat.eqb snd] in Hkept. apply length_zero_nil in Hkept.
    rewrite paginateLoop_one, paginateLoop_nil. unfold place. cbn [length Nat.eqb fst snd].
    destruct p; [congruence | reflexivity].
  - rewrite startsEmptyPage_two in Hkept. unfold place in Hkept.
    cbn [length Nat.eqb snd] in Hkept.
    destruct (length p =? 0) eqn:E1; [discriminate|]. apply length_zero_nil in E1.
    rewrite paginateLoop_two. unfold place. cbn [length Nat.eqb fst snd]. cbv zeta.
    destruct (pulls B p p q).
    + rewrite (paginateLoop_kept B (length rest)); [| lia | | exact Hkept].
      * exact (glue_join [] p q rest).
      * destruct p; [congruence | discriminate].
    + rewrite (paginateLoop_kept B (length (q :: rest))); [| lia | exact E1 | exact Hkept].
      reflexivity.
Qed.

Lemma spread_app (a b : list jsstring) : spread (a ++ b) = spread a + spread b.
Proof.
  induction a as [|x a IH]; [reflexivity|]. cbn [app]. unfold spread in *.
  cbn [foldr]. rewrite IH. lia.
Qed.

Lemma spread_join (l : list jsstring) :
  l <> [] -> length (join NL2 l) + 2 = spread l.
Proof.
  induction l as [|x [|y r] IH]; intros Hne; [congruence | cbn; lia|].
  rewrite (join_cons NL2 x (y :: r)) by discriminate.
  specialize (IH ltac:(discriminate)).
  assert (Hs : spread (x :: y :: r) = length x + 2 + spread (y :: r)) by reflexivity.
  rewrite !length_app, Hs. cbn [length NL2]. lia.
Qed.

(** The pages hold at most the characters of the pages so far, the
    current page and the paragraphs to come, and two fewer when a page
    is begun with an empty paragraph: that paragraph and its separator
    are lost. *)
Lemma paginateLoop_spread (B : Z) :
  forall n paragraphs pages cur,
    length paragraphs <= n ->
    spread (paginateLoop B paragraphs pages cur)
    + (if startsEmptyPage B paragraphs cur then 2 else 0)
    <= spread pages + (if length cur =? 0 then 0 else length cur + 2) + spread paragraphs.
Proof.
  assert (Hend : forall pages cur,
            spread (paginateLoop B [] pages cur)
            = spread pages + (if length cur =? 0 then 0 else length cur + 2)).
  { intros pages cur. rewrite paginateLoop_nil.
    destruct cur as [|c cur]; cbn [length Nat.ltb Nat.leb Nat.eqb]; [lia|].
    rewrite spread_app. unfold spread at 2. cbn [foldr length]. lia. }
  assert (Hplace : forall pages cur p,
            spread (fst (place B pages cur p))
            + (if length (snd (place B pages cur p)) =? 0 then 2
               else length (snd (place B pages cur p)) + 2)
            = spread pages + (if length cur =? 0 then 0 else length cur + 2)
              + (length p + 2)).
  { intros pages cur p. unfold place.
    destruct (length cur =? 0) eqn:Ec; cbn [fst snd].
    - destruct (length p =? 0) eqn:Ep; [apply Nat.eqb_eq in Ep|]; lia.
    - destruct (Z.of_nat (length cur + length p + 2) <=? B)%Z; cbn [fst snd].
      + rewrite length_glue.
        replace (length cur + length p + 2 =? 0) with false
          by (symmetry; apply Nat.eqb_neq; lia).
        lia.
      + rewrite spread_app. unfold spread at 2. cbn [foldr].
        destruct (length p =? 0) eqn:Ep; [apply Nat.eqb_eq in Ep|]; lia. }
  induction n as [|n IH]; intros ps pages cur Hn.
  - destruct ps; [|simpl in Hn; lia]. rewrite Hend. cbn. lia.
  - destruct ps as [|p [|q rest]].
    + rewrite Hend. cbn. lia.
    + rewrite paginateLoop_one, Hend, startsEmptyPage_one, (place_page B [] pages).
      pose proof (Hplace pages cur p) as H. unfold spread at 3. cbn [foldr].
      destruct (length (snd (place B pages cur p)) =? 0); lia.
    + rewrite paginateLoop_two, startsEmptyPage_two, !(place_page B [] pages). cbv zeta.
      pose proof (Hplace pages cur p) as H.
      assert (Hs : spread (p :: q :: rest) = length p + 2 + spread (q :: rest))
        by reflexivity.
      assert (Hs' : spread (q :: rest) = length q + 2 + spread rest) by reflexivity.
      assert (Hn1 : length (q :: rest) <= n) by (simpl in Hn |- *; lia).
      assert (Hn2 : length rest <= n) by (simpl in Hn; lia).
      destruct (length (snd (place B pages cur p)) =? 0) eqn:E1; cbn iota.
      * assert (Hnp : pulls B p (snd (place B pages cur p)) q = false).
        { unfold pulls. apply Nat.eqb_eq in E1.
          assert (Hp : p = []).
          { revert E1. unfold place.
            destruct (length cur =? 0); [|destruct (_ <=? _)%Z]; cbn [fst snd].
            - now destruct p.
            - rewrite length_glue. lia.
            - now destruct p. }
          subst p. reflexivity. }
        rewrite Hnp.
        pose proof (IH (q :: rest) (fst (place B pages cur p))
                      (snd (place B pages cur p)) Hn1) as H1.
        rewrite E1 in H1.
        destruct (startsEmptyPage B (q :: rest) (snd (place B pages cur p))); lia.
      * destruct (pulls B p (snd (place B pages cur p)) q).
        -- pose proof (IH rest (fst (place B pages cur p))
                         (snd (place B pages cur p) ++ NL2 ++ q) Hn2) as H1.
           rewrite length_glue in H1.
           replace (length (snd (place B pages cur p)) + length q + 2 =? 0) with false
             in H1 by (symmetry; apply Nat.eqb_neq; lia).
           lia.
        -- pose proof (IH (q :: rest) (fst (place B pages cur p))
                         (snd (place B pages cur p)) Hn1) as H1.
           rewrite E1 in H1. lia.
Qed.

(** C2, as the program has it: the pages of [paginateContent] joined
    with the paragraph separator are the text exactly when the text
    fits the budget or no page is begun with an empty paragraph.  An
    empty paragraph put onto a page that has text is kept; one that
    begins a page is lost with its separator. *)
Theorem paginateContent_join (content : jsstring) (B : Z) :
  (0 < B)%Z ->
  join NL2 (paginateContent content B) = content
  <-> (Z.of_nat (length content) <= B)%Z
      \/ startsEmptyPage B (splitParagraphs content) [] = false.
Proof.
  intros HB. unfold paginateContent.
  destruct (Z.of_nat (length content) <=? B)%Z eqn:E.
  - apply Z.leb_le in E. split; [now left | reflexivity].
  - apply Z.leb_gt in E. split.
    + intros Hjoin. right.
      destruct (startsEmptyPage B (splitParagraphs content) []) eqn:Hlost; [|reflexivity].
      exfalso.
      pose proof (paginateLoop_spread B (length (splitParagraphs content))
                    (splitParagraphs content) [] [] (le_n _)) as Hs.
      rewrite Hlost in Hs. cbn [spread foldr length Nat.eqb] in Hs.
      rewrite <- (spread_join (splitParagraphs content)) in Hs
        by apply splitParagraphs_not_nil.
      rewrite join_splitParagraphs in Hs.
      assert (Hlen : length (join NL2 (paginateLoop B (splitParagraphs content) [] []))
                     = length content) by now rewrite Hjoin.
      destruct (paginateLoop B (splitParagraphs content) [] []) as [|pg pgs] eqn:Hp.
      * cbn in Hlen. lia.
      * rewrite <- (spread_join (pg :: pgs)) in Hs by discriminate. lia.
    + intros [H|H]; [lia|].
      rewrite paginateLoop_kept_start by exact H. apply join_splitParagraphs.
Qed.

(** The text a, four line feeds, b with the budget 5: the empty
    paragraph goes onto the page of a, and nothing is lost. *)
Lemma paginateContent_join_witness :
  join NL2 (paginateContent (js "a\n\n\n\nb") 5) = js "a\n\n\n\nb".
Proof.
  destruct (paginateContent_join (js "a\n\n\n\nb") 5) as [_ H]; [lia|].
  apply H. right. vm_compute. reflexivity.
Defined.

(** C2 as stated fails: an empty paragraph that starts a page is
    lost.  The text is a, four line feeds, b, and the budget is 2. *)
Lemma paginateContent_join_counterexample :
  (0 < 2)%Z
  /\ paginateContent (js "a\n\n\n\nb") 2 = [js "a"; js "b"]
  /\ join NL2 (paginateContent (js "a\n\n\n\nb") 2) <> js "a\n\n\n\nb".
Proof. split; [lia|]. split; [reflexivity|]. vm_compute. discriminate. Qed.

(** C5: every page of [paginateContent] is within the budget, unless
    it is a single paragraph of the text that is longer than the
    budget, which is then a page whole. *)
Theorem paginateContent_within_budget (content : jsstring) (B : Z) :
  (0 < B)%Z ->
  forall page, In page (paginateContent content B) ->
    (Z.of_nat (length page) <= B)%Z
    \/ (In page (splitParagraphs content) /\ (B < Z.of_nat (length page))%Z).
Proof.
  intros HB page Hin.
  assert (H : (Z.of_nat (length page) <= B)%Z \/ In page (splitParagraphs content)).
  { unfold paginateContent in Hin.
    destruct (Z.of_nat (length content) <=? B)%Z eqn:E.
    - destruct Hin as [<-|[]]. left. now apply Z.leb_le.
    - assert (Hall : Forall (fun pg => (Z.of_nat (length pg) <= B)%Z
                                      \/ In pg (splitParagraphs content))
                       (paginateLoop B (splitParagraphs content) [] [])).
      { apply (paginateLoop_pages B (splitParagraphs content)
                 (length (splitParagraphs content))); auto.
        left. simpl. lia. }
      rewrite Forall_forall in Hall. apply Hall, list_elem_of_In, Hin. }
  destruct H as [H|H]; [now left|].
  destruct (Z_le_gt_dec (Z.of_nat (length page)) B); [now left|].
  right. split; [assumption | lia].
Qed.

Lemma paginateContent_within_budget_witness :
  (Z.of_nat (length (js "abcdefgh")) <= 4)%Z
  \/ (In (js "abcdefgh") (splitParagraphs (js "abcdefgh\n\nij"))
      /\ (4 < Z.of_nat (length (js "abcdefgh")))%Z).
Proof.
  apply (paginateContent_within_budget (js "abcdefgh\n\nij") 4); [lia|].
  vm_compute. auto.
Defined.

End PaginatorClaims.

(** ** Markdown synthesizer *)

Section SynthesizerClaims.

(** C4, as the program has it: a heading has [level + 1] hashes, so the
    top-level entries Chapter 1 (page 2) and Chapter 2 (page 3) over the
    pages Intro, Ch1 body, Ch2 body give headings of one hash. *)
Theorem convertToMarkdown_chapters :
  convertToMarkdown [js "Intro"; js "Ch1 body"; js "Ch2 body"] (Some chapters)
  = js "Intro\n\n# Chapter 1\n\nCh1 body\n\n# Chapter 2\n\nCh2 body".
Proof. vm_compute. reflexivity. Qed.

(** C4 as stated fails: the body does not have headings of two
    hashes. *)
Lemma convertToMarkdown_chapters_counterexample :
  convertToMarkdown [js "Intro"; js "Ch1 body"; js "Ch2 body"] (Some chapters)
  <> js "Intro\n\n## Chapter 1\n\nCh1 body\n\n## Chapter 2\n\nCh2 body".
Proof. vm_compute. discriminate. Qed.

(** The sections the program makes are, in this order, the nodes with a
    resolved target page in depth-first order: a node without one is
    dropped, and its children are still visited. *)
Lemma flattenItem_heads (nPages : nat) :
  forall item nextItem,
    map sectionHead (flattenItem nPages item nextItem) = resolvedNodes item.
Proof.
  fix IH 1. intros [t p l ch] nextItem. cbn [flattenItem resolvedNodes].
  cbn [children title level page].
  rewrite map_app. f_equal.
  - destruct (truthyPage p); reflexivity.
  - induction ch as [|c ch IHch]; [reflexivity|].
    cbn [flat_map]. rewrite map_app, IH, IHch. reflexivity.
Qed.

Lemma flattenOutline_heads (nPages : nat) (items : list OutlineItem) :
  map sectionHead (flattenOutline nPages items) = flat_map resolvedNodes items.
Proof.
  induction items as [|item rest IH]; [reflexivity|].
  cbn [flattenOutline flat_map]. now rewrite map_app, flattenItem_heads, IH.
Qed.

(** On an outline of one level whose entries all have a target page, the
    end pages of the program are those of the specification. *)
Lemma flattenOutline_flat (nPages : nat) (items : list OutlineItem) :
  isFlat items -> allResolved items ->
  flattenOutline nPages items = specFlatten nPages items.
Proof.
  unfold specFlatten.
  induction items as [|[t p l ch] rest IH]; [reflexivity|].
  intros Hflat Hres.
  inversion Hflat as [|? ? Hch Hflat']; subst.
  inversion Hres as [|? ? Hp Hres']; subst.
  cbn [children page] in Hch, Hp. subst ch.
  cbn [flattenOutline flat_map flattenItem resolvedNodes children title level page].
  destruct (truthyPage p) as [q|] eqn:Ep; [|congruence].
  rewrite !app_nil_r. cbn [app specSections]. rewrite <- IH by assumption.
  f_equal. f_equal.
  destruct rest as [|[t' p' l' ch'] rest']; [reflexivity|].
  inversion Hflat' as [|? ? Hch' _]; subst.
  inversion Hres' as [|? ? Hp' _]; subst.
  cbn [children page] in Hch', Hp'. subst ch'.
  cbn [head mbind option_bind page flat_map resolvedNodes children title level].
  destruct (truthyPage p'); [reflexivity | congruence].
Qed.

(** C3 on the outline [nested] over four pages: the program ends A at
    page 2 and A1 at page 4, where the claim has page 1 for A (A1 starts
    at 2) and page 2 for A1 (B starts at 3). *)
Theorem flattenOutline_nested :
  flattenOutline 4 nested
  = [ {| fs_title := js "A"; fs_level := 0; startPage := 1; endPage := 2 |};
      {| fs_title := js "A1"; fs_level := 1; startPage := 2; endPage := 4 |};
      {| fs_title := js "B"; fs_level := 0; startPage := 3; endPage := 4 |} ]
  /\ specFlatten 4 nested
  = [ {| fs_title := js "A"; fs_level := 0; startPage := 1; endPage := 1 |};
      {| fs_title := js "A1"; fs_level := 1; startPage := 2; endPage := 2 |};
      {| fs_title := js "B"; fs_level := 0; startPage := 3; endPage := 4 |} ].
Proof. split; reflexivity. Qed.

(** C1 on the outline [nested] over four pages: pages 2, 3 and 4 are
    emitted under more than one heading. *)
Theorem convertToMarkdown_nested :
  convertToMarkdown [js "P1"; js "P2"; js "P3"; js "P4"] (Some nested)
  = js "# A\n\nP1\n\nP2\n\n## A1\n\nP2\n\nP3\n\nP4\n\n# B\n\nP3\n\nP4"
  /\ occurrences (js "P2")
       (convertToMarkdown [js "P1"; js "P2"; js "P3"; js "P4"] (Some nested)) = 2.
Proof. split; vm_compute; reflexivity. Qed.

(** *** The body, piece by piece *)

Lemma in_rangeZ (lo hi p : Z) : In p (rangeZ lo hi) <-> (lo <= p <= hi)%Z.
Proof.
  unfold rangeZ. rewrite in_map_iff. split.
  - intros (i & <- & Hi). apply in_seq in Hi. lia.
  - intros H. exists (Z.to_nat (p - lo)). split; [lia|]. apply in_seq. lia.
Qed.

Lemma emitPage_fold (pages : list jsstring) (l : list Z) :
  forall markdown,
    fold_left (emitPage pages) l markdown
    = markdown ++ render pages (map PPage (List.filter (nonBlankPage pages) l)).
Proof.
  induction l as [|p l IH]; intros md; cbn [fold_left List.filter map].
  - unfold render. cbn. now rewrite app_nil_r.
  - rewrite IH. unfold emitPage, nonBlankPage.
    destruct (pageAt pages p) as [text|] eqn:E; [|reflexivity].
    destruct (truthy (trim text)); [|reflexivity].
    unfold render. cbn [map flat_map renderPiece]. rewrite E.
    cbn [default]. now rewrite <- !app_assoc.
Qed.

Lemma emitPages_pieces (pages : list jsstring) (markdown : jsstring) (lo hi : Z) :
  emitPages pages markdown lo hi = markdown ++ render pages (pagePieces pages lo hi).
Proof. apply emitPage_fold. Qed.

Lemma render_app (pages : list jsstring) (a b : list Piece) :
  render pages (a ++ b) = render pages a ++ render pages b.
Proof. apply flat_map_app. Qed.

Lemma render_heading (pages : list jsstring) (l : nat) (t : jsstring) :
  render pages [PHeading l t] = hashes (l + 1) ++ js " " ++ t ++ NL2.
Proof. unfold render. cbn [flat_map renderPiece]. now rewrite app_nil_r. Qed.

Lemma emitSection_pieces (pages : list jsstring) (sections : list FlatSection) :
  forall pieces lastEndPage,
    fold_left (emitSection pages) sections (render pages pieces, lastEndPage)
    = (render pages (fst (fold_left (sectionPieces pages) sections (pieces, lastEndPage))),
       snd (fold_left (sectionPieces pages) sections (pieces, lastEndPage))).
Proof.
  induction sections as [|s rest IH]; intros pieces last; [reflexivity|].
  cbn [fold_left].
  assert (Hstep : emitSection pages (render pages pieces, last) s
                  = (render pages (fst (sectionPieces pages (pieces, last) s)),
                     snd (sectionPieces pages (pieces, last) s))).
  { unfold emitSection, sectionPieces. cbn [fst snd]. f_equal.
    rewrite !render_app, emitPages_pieces.
    rewrite render_heading.
    destruct (last + 1 <? startPage s)%Z.
    - rewrite emitPages_pieces. now rewrite <- !app_assoc.
    - change (render pages []) with (@nil N). cbn [app]. now rewrite <- !app_assoc. }
  rewrite Hstep. destruct (sectionPieces pages (pieces, last) s) as [pieces1 last1].
  apply IH.
Qed.

(** The body is the pieces rendered one after the other, trimmed. *)
Lemma convertToMarkdown_pieces (pages : list jsstring) (items : list OutlineItem) :
  items <> [] ->
  convertToMarkdown pages (Some items) = trim (render pages (bodyPieces pages items)).
Proof.
  intros Hne. unfold convertToMarkdown, bodyPieces.
  destruct items as [|item rest]; [congruence|].
  change (@nil N) with (render pages []) at 1.
  rewrite emitSection_pieces.
  set (st := fold_left (sectionPieces pages) _ _).
  destruct (snd st <? Z.of_nat (length pages))%Z.
  - now rewrite emitPages_pieces, render_app.
  - now rewrite app_nil_r.
Qed.

Lemma in_pagePieces (pages : list jsstring) (lo hi p : Z) :
  (lo <= p <= hi)%Z -> nonBlankPage pages p = true ->
  In (PPage p) (pagePieces pages lo hi).
Proof.
  intros H Hnb. unfold pagePieces. apply in_map, List.filter_In.
  split; [now apply in_rangeZ | exact Hnb].
Qed.

Lemma sectionPieces_covered (pages : list jsstring) (sections : list FlatSection) :
  forall pieces last,
    (forall p, (1 <= p <= last)%Z -> nonBlankPage pages p = true -> In (PPage p) pieces) ->
    forall p,
      (1 <= p <= snd (fold_left (sectionPieces pages) sections (pieces, last)))%Z ->
      nonBlankPage pages p = true ->
      In (PPage p) (fst (fold_left (sectionPieces pages) sections (pieces, last))).
Proof.
  induction sections as [|s rest IH]; intros pieces last Hcov; [exact Hcov|].
  cbn [fold_left]. unfold sectionPieces at 2 4. cbn [fst snd].
  apply IH. intros p Hp Hnb.
  destruct (Z_le_gt_dec p last) as [Hle|Hgt].
  - apply in_or_app. left. apply Hcov; [lia | exact Hnb].
  - apply in_or_app. right. apply in_or_app.
    destruct (Z_lt_ge_dec p (startPage s)) as [Hlt|Hge].
    + left. replace (last + 1 <? startPage s)%Z with true
        by (symmetry; apply Z.ltb_lt; lia).
      apply in_pagePieces; [lia | exact Hnb].
    + right. right. apply in_pagePieces; [lia | exact Hnb].
Qed.

(** No page is dropped: whatever the outline, every page with a text
    that is not blank is among the pieces of the body. *)
Lemma bodyPieces_covers (pages : list jsstring) (items : list OutlineItem) (p : Z) :
  (1 <= p <= Z.of_nat (length pages))%Z ->
  nonBlankPage pages p = true ->
  In (PPage p) (bodyPieces pages items).
Proof.
  intros Hp Hnb. unfold bodyPieces.
  set (st := fold_left (sectionPieces pages) _ _).
  destruct (Z_le_gt_dec p (snd st)) as [Hle|Hgt].
  - apply in_or_app. left. unfold st in *.
    apply sectionPieces_covered; [|lia|exact Hnb].
    intros q Hq. lia.
  - apply in_or_app. right.
    replace (snd st <? Z.of_nat (length pages))%Z with true
      by (symmetry; apply Z.ltb_lt; lia).
    apply in_pagePieces; [lia | exact Hnb].
Qed.

(** The pieces of the body of the outline [nested] over four pages: the
    pages 2, 3 and 4 come twice. *)
Example bodyPieces_nested :
  bodyPieces [js "P1"; js "P2"; js "P3"; js "P4"] nested
  = [ PHeading 0 (js "A"); PPage 1; PPage 2;
      PHeading 1 (js "A1"); PPage 2; PPage 3; PPage 4;
      PHeading 0 (js "B"); PPage 3; PPage 4 ].
Proof. reflexivity. Qed.

End SynthesizerClaims.

(** ** Identifier assignment *)

Section LoaderClaims.
Context {rt : Runtime}.

Lemma generateUniqueId_pickId (loadedPDFs : gmap jsstring LoadedPDF) (filePath : jsstring) :
  generateUniqueId loadedPDFs filePath
  = pickId ((fun pdf => normalizedOf (path pdf)) <$> loadedPDFs)
      (fst (locate filePath))
      (if isUrl filePath then [SLASH] else [path_sep])
      (snd (locate filePath)).
Proof.
  unfold generateUniqueId, locate, pickId.
  destruct (isUrl filePath); [destruct (urlPathname filePath)|]; reflexivity.
Qed.

Lemma locate_normalized (filePath : jsstring) :
  fst (locate filePath) = normalizedOf filePath.
Proof.
  unfold locate, normalizedOf.
  destruct (isUrl filePath); [destruct (urlPathname filePath)|]; reflexivity.
Qed.











End LoaderClaims.

(** ** Section lookup *)

Section LocatorClaims.
Context {rt : Runtime}.

Lemma dropWhile_all {A} (p : A -> bool) (l : list A) :
  forallb p l = true -> dropWhile p l = [].
Proof.
  induction l as [|x r IH]; [reflexivity|]. cbn [forallb dropWhile].
  intros H. apply andb_true_iff in H as [-> H]. now apply IH.
Qed.

Lemma trim_blank (s : jsstring) : forallb isWhiteSpace s = true -> trim s = [].
Proof. intros H. unfold trim. now rewrite (dropWhile_all _ s H). Qed.

Lemma includes_empty (s : jsstring) : includes s [] = true.
Proof. unfold includes, indexOf. cbn [Nat.min drop]. destruct s; reflexivity. Qed.

Lemma dropWhile_app_stop {A} (p : A -> bool) (l : list A) (x : A) :
  p x = false -> exists l', dropWhile p (l ++ [x]) = l' ++ [x].
Proof.
  intros Hx. induction l as [|y r [l' IH]].
  - exists []. simpl. now rewrite Hx.
  - cbn [app dropWhile]. destruct (p y).
    + exists l'. exact IH.
    + exists (y :: r). reflexivity.
Qed.

(** Trimming keeps a first character that is not white space. *)
Lemma trim_keeps_head (x : N) (r : jsstring) :
  isWhiteSpace x = false -> exists r', trim (x :: r) = x :: r'.
Proof.
  intros Hx. unfold trim. cbn [dropWhile]. rewrite Hx.
  change (rev (x :: r)) with (rev r ++ [x]).
  destruct (dropWhile_app_stop isWhiteSpace (rev r) x Hx) as [l' ->].
  exists (rev l'). now rewrite rev_app_distr.
Qed.

(** A heading line starts with a hash. *)
Lemma headingMatch_hash (line : jsstring) (lvl : nat) (t : jsstring) :
  headingMatch line = Some (lvl, t) -> exists r, line = HASH :: r.
Proof.
  unfold headingMatch. destruct line as [|c r]; [discriminate|].
  cbn [takeWhile]. destruct (HASH =? c)%N eqn:E; [|discriminate].
  apply N.eqb_eq in E. subst c. intros _. now exists r.
Qed.

Lemma splitParagraphs_head (x : N) (r : jsstring) :
  x <> NL -> exists p ps, splitParagraphs (x :: r) = (x :: p) :: ps.
Proof.
  intros Hx. destruct r as [|y r]; [now exists [], []|].
  rewrite splitParagraphs_step.
  apply N.eqb_neq in Hx. rewrite Hx. cbn [andb].
  destruct (splitParagraphs (y :: r)) as [|p ps] eqn:E.
  - now apply splitParagraphs_not_nil in E.
  - now exists p, ps.
Qed.

(** Once a page is begun or closed, the paginator returns a page. *)
Lemma paginateLoop_not_nil (B : Z) :
  forall n paragraphs pages cur,
    length paragraphs <= n ->
    pages <> [] \/ cur <> [] ->
    paginateLoop B paragraphs pages cur <> [].
Proof.
  assert (Hend : forall pages cur, pages <> [] \/ cur <> [] ->
            paginateLoop B [] pages cur <> []).
  { intros pages cur H. rewrite paginateLoop_nil.
    destruct cur as [|c cur]; cbn [length Nat.ltb Nat.leb].
    - destruct H; congruence.
    - destruct pages; discriminate. }
  assert (Hplace : forall pages cur p, pages <> [] \/ cur <> [] ->
            fst (place B pages cur p) <> [] \/ snd (place B pages cur p) <> []).
  { intros pages cur p H. unfold place.
    destruct cur as [|c cur]; cbn [length Nat.eqb fst snd].
    - left. destruct H; congruence.
    - destruct (Z.of_nat _ <=? B)%Z; cbn [fst snd].
      + right. discriminate.
      + left. destruct pages; discriminate. }
  induction n as [|n IH]; intros ps pages cur Hn H.
  - destruct ps; [now apply Hend | simpl in Hn; lia].
  - destruct ps as [|p [|q rest]].
    + now apply Hend.
    + rewrite paginateLoop_one. apply Hend, Hplace, H.
    + rewrite paginateLoop_two. cbv zeta.
      destruct (pulls B p (snd (place B pages cur p)) q).
      * apply IH; [simpl in Hn; lia|].
        right. destruct (snd (place B pages cur p)); discriminate.
      * apply IH; [simpl in Hn |- *; lia | apply Hplace, H].
Qed.

Lemma paginateContent_not_nil (x : N) (r : jsstring) (B : Z) :
  x <> NL -> paginateContent (x :: r) B <> [].
Proof.
  intros Hx. unfold paginateContent.
  destruct (Z.of_nat (length (x :: r)) <=? B)%Z; [discriminate|].
  destruct (splitParagraphs_head x r Hx) as (p & ps & ->).
  destruct ps as [|q rest].
  - rewrite paginateLoop_one. unfold place. cbn [length Nat.eqb fst snd].
    rewrite paginateLoop_nil. cbn [length Nat.ltb Nat.leb]. discriminate.
  - rewrite paginateLoop_two. unfold place. cbn [length Nat.eqb fst snd]. cbv zeta.
    destruct (pulls B (x :: p) (x :: p) q).
    + apply (paginateLoop_not_nil B (length rest)); [lia | right; discriminate].
    + apply (paginateLoop_not_nil B (length (q :: rest))); [lia | right; discriminate].
Qed.

(** While no section is found, the scan stops at the first heading line
    whose title matches the query, and records its title and level. *)
Lemma scanLines_first (nq : jsstring) :
  forall lines i st,
    sectionStart st = None ->
    let st' := scanLines nq lines i st in
    match sectionStart st' with
    | None =>
        forall line lvl raw,
          In line lines -> headingMatch line = Some (lvl, raw) ->
          titleMatches nq raw = false
    | Some start =>
        exists k line lvl raw,
          start = i + k /\ lines !! k = Some line
          /\ headingMatch line = Some (lvl, raw) /\ titleMatches nq raw = true
          /\ matchedTitle st' = raw /\ sectionLevel st' = lvl
          /\ forall j line' lvl' raw',
               j < k -> lines !! j = Some line' ->
               headingMatch line' = Some (lvl', raw') -> titleMatches nq raw' = false
    end.
Proof.
  induction lines as [|line rest IH]; intros i st Hs; cbn [scanLines].
  - rewrite Hs. intros line lvl raw [].
  - destruct (headingMatch line) as [[lvl raw]|] eqn:Hm.
    + rewrite Hs. fold (titleMatches nq raw).
      destruct (titleMatches nq raw) eqn:Ht.
      * match goal with |- context [scanLines _ _ _ ?s] => set (st1 := s) end.
        assert (Hk : sectionStart (scanLines nq rest (S i) st1) = Some i
                     /\ matchedTitle (scanLines nq rest (S i) st1) = raw
                     /\ sectionLevel (scanLines nq rest (S i) st1) = lvl).
        { clear. generalize (S i). revert st1.
          assert (H : forall ls n s, sectionStart s = Some i ->
                    sectionStart (scanLines nq ls n s) = Some i
                    /\ matchedTitle (scanLines nq ls n s) = matchedTitle s
                    /\ sectionLevel (scanLines nq ls n s) = sectionLevel s).
          { induction ls as [|l ls IHl]; intros n s Hs0; cbn [scanLines]; [auto|].
            destruct (headingMatch l) as [[lv rw]|]; [|now apply IHl].
            rewrite Hs0. destruct (lv <=? sectionLevel s); [cbn; auto | now apply IHl]. }
          intros st1 n. now apply H. }
        destruct Hk as (-> & Hk2 & Hk3).
        exists 0, line, lvl, raw. rewrite Nat.add_0_r.
        split; [reflexivity|]. split; [reflexivity|]. split; [exact Hm|].
        split; [exact Ht|]. split; [exact Hk2|]. split; [exact Hk3|].
        intros j ? ? ? Hj. lia.
      * specialize (IH (S i) st Hs). cbv zeta in IH.
        destruct (sectionStart (scanLines nq rest (S i) st)) as [start|].
        -- destruct IH as (k & l & lv & rw & -> & H1 & H2 & H3 & H4 & H5 & H6).
           exists (S k), l, lv, rw.
           split; [lia|]. split; [exact H1|]. split; [exact H2|]. split; [exact H3|].
           split; [exact H4|]. split; [exact H5|].
           intros [|j] line' lvl' raw' Hj Hl Hh.
           ++ cbn in Hl. injection Hl as <-. rewrite Hm in Hh. now injection Hh as <- <-.
           ++ apply (H6 j line' lvl' raw'); [lia | exact Hl | exact Hh].
        -- intros l lv rw [<-|Hin] Hh.
           ++ rewrite Hm in Hh. now injection Hh as <- <-.
           ++ now apply (IH l lv rw).
    + specialize (IH (S i) st Hs). cbv zeta in IH.
      destruct (sectionStart (scanLines nq rest (S i) st)) as [start|].
      * destruct IH as (k & l & lv & rw & -> & H1 & H2 & H3 & H4 & H5 & H6).
        exists (S k), l, lv, rw.
           split; [lia|]. split; [exact H1|]. split; [exact H2|]. split; [exact H3|].
           split; [exact H4|]. split; [exact H5|].
        intros [|j] line' lvl' raw' Hj Hl Hh.
        -- cbn in Hl. injection Hl as <-. congruence.
        -- apply (H6 j line' lvl' raw'); [lia | exact Hl | exact Hh].
      * intros l lv rw [<-|Hin] Hh; [congruence | now apply (IH l lv rw)].
Qed.

(** Once a section is found, the scan ends it at the first heading line
    of its level or above, or leaves its end where it was. *)
Lemma scanLines_boundary (nq : jsstring) :
  forall lines i st start,
    sectionStart st = Some start ->
    i + length lines <= sectionEnd st ->
    let st' := scanLines nq lines i st in
    (forall j line lvl raw,
        i + j < sectionEnd st' -> lines !! j = Some line ->
        headingMatch line = Some (lvl, raw) -> sectionLevel st < lvl)
    /\ (sectionEnd st' = sectionEnd st
        \/ exists j line lvl raw,
             sectionEnd st' = i + j /\ lines !! j = Some line
             /\ headingMatch line = Some (lvl, raw) /\ lvl <= sectionLevel st).
Proof.
  induction lines as [|line rest IH]; intros i st start Hs He; cbn [scanLines].
  - split; [intros j ? ? ? _ Hl; discriminate | now left].
  - cbn [length] in He.
    destruct (headingMatch line) as [[lvl raw]|] eqn:Hm.
    + rewrite Hs. destruct (lvl <=? sectionLevel st) eqn:El.
      * apply Nat.leb_le in El. cbn [sectionEnd]. split.
        -- intros j ? ? ? Hj. lia.
        -- right. exists 0, line, lvl, raw. rewrite Nat.add_0_r.
           split; [reflexivity|]. split; [reflexivity|]. split; [exact Hm | exact El].
      * apply Nat.leb_gt in El.
        destruct (IH (S i) st start Hs) as [H1 H2]; [lia|]. split.
        -- intros [|j] l lv rw Hj Hl Hh.
           ++ cbn in Hl. injection Hl as <-. rewrite Hm in Hh. injection Hh as <- <-. lia.
           ++ apply (H1 j l lv rw); [lia | exact Hl | exact Hh].
        -- destruct H2 as [H2|(j & l & lv & rw & H2 & H3 & H4 & H5)]; [now left|].
           right. exists (S j), l, lv, rw.
           split; [lia|]. split; [exact H3|]. split; [exact H4 | exact H5].
    + destruct (IH (S i) st start Hs) as [H1 H2]; [lia|]. split.
      * intros [|j] l lv rw Hj Hl Hh.
        -- cbn in Hl. injection Hl as <-. congruence.
        -- apply (H1 j l lv rw); [lia | exact Hl | exact Hh].
      * destruct H2 as [H2|(j & l & lv & rw & H2 & H3 & H4 & H5)]; [now left|].
        right. exists (S j), l, lv, rw.
           split; [lia|]. split; [exact H3|]. split; [exact H4 | exact H5].
Qed.

Lemma scanLines_keeps (nq : jsstring) :
  forall lines i st start,
    sectionStart st = Some start ->
    sectionStart (scanLines nq lines i st) = Some start
    /\ matchedTitle (scanLines nq lines i st) = matchedTitle st
    /\ sectionLevel (scanLines nq lines i st) = sectionLevel st.
Proof.
  induction lines as [|l ls IH]; intros n s start Hs; cbn [scanLines]; [auto|].
  destruct (headingMatch l) as [[lv rw]|]; [|now apply IH].
  rewrite Hs. destruct (lv <=? sectionLevel s); [cbn; auto | now apply IH].
Qed.

(** The whole scan: where the section found starts and ends. *)
Lemma scanLines_section (nq : jsstring) :
  forall lines i st,
    sectionStart st = None -> sectionEnd st = i + length lines ->
    let st' := scanLines nq lines i st in
    forall start,
      sectionStart st' = Some start ->
      (i <= start /\ start < sectionEnd st' /\ sectionEnd st' <= i + length lines)
      /\ (forall j line lvl raw,
            start < i + j -> i + j < sectionEnd st' -> lines !! j = Some line ->
            headingMatch line = Some (lvl, raw) -> sectionLevel st' < lvl)
      /\ (sectionEnd st' = i + length lines
          \/ exists j line lvl raw,
               sectionEnd st' = i + j /\ lines !! j = Some line
               /\ headingMatch line = Some (lvl, raw) /\ lvl <= sectionLevel st').
Proof.
  induction lines as [|line rest IH]; intros i st Hs He; cbn [scanLines].
  - intros start Hst. congruence.
  - cbn [length] in He.
    assert (Hskip : forall start,
              sectionStart (scanLines nq rest (S i) st) = Some start ->
              (i <= start /\ start < sectionEnd (scanLines nq rest (S i) st)
               /\ sectionEnd (scanLines nq rest (S i) st) <= i + length (line :: rest))
              /\ (forall j l lv rw,
                    start < i + j -> i + j < sectionEnd (scanLines nq rest (S i) st) ->
                    (line :: rest) !! j = Some l ->
                    headingMatch l = Some (lv, rw) ->
                    sectionLevel (scanLines nq rest (S i) st) < lv)
              /\ (sectionEnd (scanLines nq rest (S i) st) = i + length (line :: rest)
                  \/ exists j l lv rw,
                       sectionEnd (scanLines nq rest (S i) st) = i + j
                       /\ (line :: rest) !! j = Some l
                       /\ headingMatch l = Some (lv, rw)
                       /\ lv <= sectionLevel (scanLines nq rest (S i) st))).
    { intros start Hst.
      destruct (IH (S i) st Hs) with (start := start) as ((A1 & A2 & A3) & B & C);
        [lia | exact Hst |].
      cbn [length]. split; [lia|]. split.
      - intros [|j] l lv rw Hj1 Hj2 Hl Hh; [lia|].
        apply (B j l lv rw); [lia | lia | exact Hl | exact Hh].
      - destruct C as [C|(j & l & lv & rw & C1 & C2 & C3 & C4)]; [left; lia|].
        right. exists (S j), l, lv, rw.
        split; [lia|]. split; [exact C2|]. split; [exact C3 | exact C4]. }
    destruct (headingMatch line) as [[lvl raw]|] eqn:Hm; [|exact Hskip].
    rewrite Hs. destruct (_ || _)%bool; [|exact Hskip].
    clear Hskip IH.
    match goal with |- context [scanLines _ _ _ ?s] => set (st1 := s) end.
    destruct (scanLines_keeps nq rest (S i) st1 i eq_refl) as (K1 & K2 & K3).
    destruct (scanLines_boundary nq rest (S i) st1 i eq_refl) as [B C];
      [subst st1; cbn [sectionEnd]; lia|].
    cbv zeta in B, C. change (sectionEnd st1) with (sectionEnd st) in C.
    change (sectionLevel st1) with lvl in B, C, K3.
    intros start Hst. rewrite K1 in Hst. injection Hst as <-. rewrite K3.
    assert (Hend : i < sectionEnd (scanLines nq rest (S i) st1)
                   /\ sectionEnd (scanLines nq rest (S i) st1) <= i + length (line :: rest)).
    { cbn [length]. destruct C as [C|(j & l & lv & rw & C1 & C2 & C3 & C4)]; [lia|].
      apply lookup_lt_Some in C2. lia. }
    split; [lia|]. split.
    + intros [|j] l lv rw Hj1 Hj2 Hl Hh; [lia|].
      apply (B j l lv rw); [lia | exact Hl | exact Hh].
    + destruct C as [C|(j & l & lv & rw & C1 & C2 & C3 & C4)];
        [left; cbn [length]; lia|].
      right. exists (S j), l, lv, rw.
      split; [lia|]. split; [exact C2|]. split; [exact C3 | exact C4].
Qed.

Lemma section_content_starts (lines : list jsstring) (start stop : nat)
    (line : jsstring) (lvl : nat) (raw : jsstring) :
  lines !! start = Some line -> headingMatch line = Some (lvl, raw) ->
  start < stop ->
  exists tail, trim (join [NL] (take (stop - start) (drop start lines))) = HASH :: tail.
Proof.
  intros Hl Hh Hlt.
  destruct (headingMatch_hash line lvl raw Hh) as [r ->].
  rewrite (drop_S lines _ start Hl).
  destruct (stop - start) as [|m] eqn:E; [lia|]. cbn [take].
  assert (exists tail, join [NL] ((HASH :: r) :: take m (drop (S start) lines)) = HASH :: tail)
    as [tail ->].
  { destruct (take m (drop (S start) lines)); [now eexists|].
    rewrite join_cons by discriminate. now eexists. }
  apply trim_keeps_head. reflexivity.
Qed.

(** The prefix [takeWhile] takes, by its length. *)
Lemma takeWhile_take {A} (p : A -> bool) :
  forall (l : list A) (n : nat),
    n <= length l ->
    (forall j x, j < n -> l !! j = Some x -> p x = true) ->
    (n = length l \/ exists x, l !! n = Some x /\ p x = false) ->
    takeWhile p l = take n l.
Proof.
  induction l as [|y l IH]; intros n Hn Hall Hstop; [now destruct n|].
  destruct n as [|n].
  - destruct Hstop as [H|(x & Hx & Hp)]; [discriminate|].
    cbn in Hx. injection Hx as <-. cbn [takeWhile take]. now rewrite Hp.
  - cbn [takeWhile take]. rewrite (Hall 0 y) by (lia || reflexivity). f_equal.
    apply IH.
    + cbn [length] in Hn. lia.
    + intros j x Hj Hx. apply (Hall (S j) x); [lia | exact Hx].
    + destruct Hstop as [H|(x & Hx & Hp)].
      * left. cbn [length] in H. lia.
      * right. exists x. now split.
Qed.

(** The lines the scan takes are the lines of the section of the
    heading it matched, as the specification words the section. *)
Lemma scanLines_sectionLines (nq : jsstring) (lines : list jsstring) (start : nat) :
  sectionStart (scanLines nq lines 0 (scanStart lines)) = Some start ->
  take (sectionEnd (scanLines nq lines 0 (scanStart lines)) - start) (drop start lines)
  = sectionLines lines start (sectionLevel (scanLines nq lines 0 (scanStart lines))).
Proof.
  intros Hst.
  destruct (scanLines_section nq lines 0 (scanStart lines) eq_refl eq_refl start Hst)
    as ((_ & A2 & A3) & B & C).
  set (st := scanLines nq lines 0 (scanStart lines)) in *.
  cbn [Nat.add] in A3, B, C. unfold sectionLines.
  destruct (lookup_lt_is_Some_2 lines start) as [line Hline]; [lia|].
  rewrite (drop_S lines line start Hline).
  replace (sectionEnd st - start) with (S (sectionEnd st - S start)) by lia.
  cbn [take]. f_equal. symmetry. apply takeWhile_take.
  - rewrite length_drop. lia.
  - intros j x Hj Hx. rewrite lookup_drop in Hx. unfold inSection.
    destruct (headingMatch x) as [[l r]|] eqn:Hm; [|reflexivity].
    apply negb_true_iff, Nat.leb_gt.
    apply (B (S start + j) x l r); [lia | lia | exact Hx | exact Hm].
  - destruct C as [C|(j & line' & lvl' & raw' & C1 & C2 & C3 & C4)].
    + left. rewrite length_drop. lia.
    + right. exists line'. split.
      * rewrite lookup_drop.
        now replace (S start + (sectionEnd st - S start)) with j by lia.
      * unfold inSection. rewrite C3. apply negb_false_iff, Nat.leb_le. exact C4.
Qed.

(** What [extractSection] does with the first heading line whose title
    matches: it paginates the lines of its section and returns the page
    asked for. *)
Lemma extractSection_at (loadedPDFs : gmap jsstring LoadedPDF)
    (pdfId sectionTitle : jsstring) (page charsPerPage : Z) (pdf : LoadedPDF)
    (k : nat) (line : jsstring) (lvl : nat) (raw : jsstring) :
  loadedPDFs !! pdfId = Some pdf ->
  splitChar NL (markdown pdf) !! k = Some line ->
  headingMatch line = Some (lvl, raw) ->
  titleMatches (trim (toLowerCase sectionTitle)) raw = true ->
  (forall j line' lvl' raw',
      j < k -> splitChar NL (markdown pdf) !! j = Some line' ->
      headingMatch line' = Some (lvl', raw') ->
      titleMatches (trim (toLowerCase sectionTitle)) raw' = false) ->
  extractSection loadedPDFs pdfId sectionTitle page charsPerPage
  = if ((page <? 1)%Z
        || (Z.of_nat (length (sectionPages (splitChar NL (markdown pdf)) k lvl
                                charsPerPage)) <? page)%Z)%bool
    then inl (PageOutOfRange
                (length (sectionPages (splitChar NL (markdown pdf)) k lvl charsPerPage)))
    else inr {| sp_page := page;
                totalPages := length (sectionPages (splitChar NL (markdown pdf)) k lvl
                                        charsPerPage);
                content := default [] (sectionPages (splitChar NL (markdown pdf)) k lvl
                                         charsPerPage !! Z.to_nat (page - 1));
                section := raw |}.
Proof.
  intros Hpdf Hline Hm Ht Hfirst. unfold extractSection. rewrite Hpdf.
  set (lines := splitChar NL (markdown pdf)) in *.
  set (nq := trim (toLowerCase sectionTitle)) in *.
  change {| sectionStart := None; sectionLevel := 0; sectionEnd := length lines;
            matchedTitle := [] |} with (scanStart lines).
  pose proof (scanLines_first nq lines 0 (scanStart lines) eq_refl) as H.
  pose proof (scanLines_sectionLines nq lines) as Hslice.
  cbv zeta in H.
  destruct (sectionStart (scanLines nq lines 0 (scanStart lines))) as [start|] eqn:Hst.
  - destruct H as (k' & line' & lvl' & raw' & Hk & H1 & H2 & H3 & H4 & H5 & H6).
    cbn [Nat.add] in Hk. subst k'.
    assert (Hsame : start = k).
    { destruct (Nat.lt_trichotomy start k) as [Hlt|[Heq|Hgt]]; [|exact Heq|].
      - rewrite (Hfirst start line' lvl' raw' Hlt H1 H2) in H3. discriminate.
      - rewrite (H6 k line lvl raw Hgt Hline Hm) in Ht. discriminate. }
    subst start. rewrite Hline in H1. injection H1 as <-.
    rewrite Hm in H2. injection H2 as <- <-.
    rewrite (Hslice k eq_refl), H4, H5. reflexivity.
  - rewrite (H line lvl raw) in Ht; [discriminate | | exact Hm].
    apply list_elem_of_In. eapply list_elem_of_lookup_2, Hline.
Qed.

(** The section of a heading line has at least one page. *)
Lemma sectionPages_not_nil (lines : list jsstring) (k : nat) (line : jsstring)
    (lvl lvl' : nat) (raw : jsstring) (charsPerPage : Z) :
  lines !! k = Some line -> headingMatch line = Some (lvl', raw) ->
  sectionPages lines k lvl charsPerPage <> [].
Proof.
  intros Hline Hm. unfold sectionPages, sectionLines.
  rewrite (drop_S lines line k Hline).
  destruct (headingMatch_hash line lvl' raw Hm) as [r ->].
  assert (exists tail, join [NL] ((HASH :: r) :: takeWhile (inSection lvl)
                                                  (drop (S k) lines)) = HASH :: tail)
    as [tail ->].
  { destruct (takeWhile _ _); [now eexists|].
    rewrite join_cons by discriminate. now eexists. }
  destruct (trim_keeps_head HASH tail) as [tail' ->]; [reflexivity|].
  apply paginateContent_not_nil; discriminate.
Qed.

(** The first heading line of a body, by its position. *)
Lemma firstHeading_at (markdown : jsstring) (lvl : nat) (raw : jsstring) :
  firstHeading markdown = Some (lvl, raw) ->
  exists k line,
    splitChar NL markdown !! k = Some line
    /\ headingMatch line = Some (lvl, raw)
    /\ forall j line', j < k -> splitChar NL markdown !! j = Some line' ->
                       headingMatch line' = None.
Proof.
  unfold firstHeading. induction (splitChar NL markdown) as [|x l IH]; [discriminate|].
  cbn [omap list_omap]. destruct (headingMatch x) as [[l' r']|] eqn:Hm.
  - intros H. injection H as <- <-. exists 0, x.
    split; [reflexivity|]. split; [exact Hm|]. intros j line' Hj. lia.
  - intros H. destruct (IH H) as (k & line & H1 & H2 & H3). exists (S k), line.
    split; [exact H1|]. split; [exact H2|].
    intros [|j] line' Hj Hl; [cbn in Hl; now injection Hl as <-|].
    apply (H3 j line'); [lia | exact Hl].
Qed.

(** C10: on a document with a heading line, an empty or white-space
    title never fails with [SectionNotFound]: the first heading line of
    the body is matched, and what the call returns is its section, that
    is the page asked for of the lines from that heading line up to the
    next heading line of the same or a shallower level, trimmed and
    paginated, under the title of the heading; page 1 is returned. *)
Theorem extractSection_blank_title (loadedPDFs : gmap jsstring LoadedPDF)
    (pdfId sectionTitle : jsstring) (pdf : LoadedPDF) (charsPerPage : Z)
    (lvl : nat) (rawTitle : jsstring) :
  LowerKeepsBlank rt ->
  loadedPDFs !! pdfId = Some pdf ->
  forallb isWhiteSpace sectionTitle = true ->
  firstHeading (markdown pdf) = Some (lvl, rawTitle) ->
  exists k line,
    splitChar NL (markdown pdf) !! k = Some line
    /\ headingMatch line = Some (lvl, rawTitle)
    /\ (forall j line', j < k -> splitChar NL (markdown pdf) !! j = Some line' ->
                        headingMatch line' = None)
    /\ (forall page suggestions,
          extractSection loadedPDFs pdfId sectionTitle page charsPerPage
          <> inl (SectionNotFound suggestions))
    /\ (forall page sp,
          extractSection loadedPDFs pdfId sectionTitle page charsPerPage = inr sp ->
          section sp = rawTitle /\ sp_page sp = page
          /\ totalPages sp
             = length (sectionPages (splitChar NL (markdown pdf)) k lvl charsPerPage)
          /\ sectionPages (splitChar NL (markdown pdf)) k lvl charsPerPage
               !! Z.to_nat (page - 1) = Some (content sp))
    /\ (exists sp,
          extractSection loadedPDFs pdfId sectionTitle 1 charsPerPage = inr sp
          /\ section sp = rawTitle
          /\ sectionPages (splitChar NL (markdown pdf)) k lvl charsPerPage !! 0
             = Some (content sp)).
Proof.
  intros Hlower Hpdf Hblank Hfirst.
  destruct (firstHeading_at _ _ _ Hfirst) as (k & line & Hline & Hm & Hnone).
  exists k, line. split; [exact Hline|]. split; [exact Hm|]. split; [exact Hnone|].
  assert (Hq : trim (toLowerCase sectionTitle) = [])
    by (apply trim_blank; now apply Hlower).
  assert (Heq : forall page,
            extractSection loadedPDFs pdfId sectionTitle page charsPerPage = _)
    by (intros page;
        apply (extractSection_at loadedPDFs pdfId sectionTitle page charsPerPage pdf
                 k line lvl rawTitle Hpdf Hline Hm);
        [rewrite Hq; unfold titleMatches; now rewrite includes_empty
        |intros j line' lvl' raw' Hj Hl Hh; rewrite (Hnone j line' Hj Hl) in Hh;
         discriminate]).
  pose proof (sectionPages_not_nil (splitChar NL (markdown pdf)) k line lvl lvl rawTitle
                charsPerPage Hline Hm) as Hne.
  set (pages := sectionPages (splitChar NL (markdown pdf)) k lvl charsPerPage) in *.
  split; [|split].
  - intros page sugg. rewrite Heq. destruct (_ || _)%bool; discriminate.
  - intros page sp. rewrite Heq.
    destruct (page <? 1)%Z eqn:E1; [discriminate|].
    destruct (Z.of_nat (length pages) <? page)%Z eqn:E2; [discriminate|].
    cbn [orb]. intros H. injection H as <-. cbn [section sp_page totalPages content].
    apply Z.ltb_ge in E1, E2.
    destruct (lookup_lt_is_Some_2 pages (Z.to_nat (page - 1))) as [pg Hpg]; [lia|].
    rewrite Hpg. auto.
  - rewrite Heq. destruct pages as [|pg pgs] eqn:Hp; [congruence|].
    cbn [length]. replace (1 <? 1)%Z with false by reflexivity.
    replace (Z.of_nat (S (length pgs)) <? 1)%Z with false
      by (symmetry; apply Z.ltb_ge; lia).
    cbn [orb]. eexists. split; [reflexivity|]. split; reflexivity.
Qed.

End LocatorClaims.

(** ** Search *)

Section ScanFacts.
Context {St : Type} (next : St -> option (St * Match)).

Lemma scanLoop_unlimited (maxResults : option Z) :
  (forall t, limitReached maxResults t = false) ->
  forall fuel s acc t,
    scanLoop fuel next maxResults s acc t = app acc <$> scanAll fuel next s.
Proof.
  intros Hlim. induction fuel as [|fuel IH]; intros s acc t; [reflexivity|].
  cbn [scanLoop scanAll]. destruct (next s) as [[s' m]|].
  - rewrite Hlim, IH. destruct (scanAll fuel next s'); cbn; [|reflexivity].
    now rewrite <- app_assoc.
  - cbn. now rewrite app_nil_r.
Qed.

Lemma scanLoop_limited (k : Z) :
  (k <> 0)%Z ->
  forall fuel s acc all,
    scanAll fuel next s = Some all ->
    scanLoop fuel next (Some k) s acc (length acc)
    = Some (acc ++ take (Z.to_nat k - length acc) all).
Proof.
  intros Hk. induction fuel as [|fuel IH]; intros s acc all H; [discriminate|].
  cbn [scanLoop scanAll] in H |- *. destruct (next s) as [[s' m]|].
  - destruct (scanAll fuel next s') as [all'|] eqn:E; [|discriminate].
    cbn in H. injection H as <-.
    unfold limitReached. apply Z.eqb_neq in Hk. rewrite Hk. cbn [negb andb].
    destruct (k <=? Z.of_nat (length acc))%Z eqn:Ek.
    + apply Z.leb_le in Ek.
      replace (Z.to_nat k - length acc) with 0 by lia.
      cbn. now rewrite app_nil_r.
    + apply Z.leb_gt in Ek.
      replace (S (length acc)) with (length (acc ++ [m]))
        by (rewrite length_app; simpl; lia).
      rewrite (IH s' (acc ++ [m]) all' E), length_app. cbn [length].
      replace (Z.to_nat k - length acc) with (S (Z.to_nat k - (length acc + 1))) by lia.
      cbn [take]. now rewrite <- app_assoc.
  - injection H as <-. rewrite take_nil. now rewrite app_nil_r.
Qed.

(** A scan with a limit returns the first entries of the scan without
    one, as many as [expectedCount] says. *)
Lemma scanLoop_take (maxResults : option Z) :
  forall fuel s all,
    scanAll fuel next s = Some all ->
    scanLoop fuel next maxResults s [] 0
    = Some (take (expectedCount maxResults (length all)) all).
Proof.
  intros fuel s all H. destruct maxResults as [k|]; cbn [expectedCount].
  - destruct (k =? 0)%Z eqn:Ek.
    + rewrite scanLoop_unlimited, H.
      * cbn. now rewrite firstn_all.
      * intros t. unfold limitReached. now rewrite Ek.
    + apply Z.eqb_neq in Ek.
      pose proof (scanLoop_limited k Ek fuel s [] all H) as Hl.
      cbn [app length] in Hl. rewrite Hl, Nat.sub_0_r. f_equal.
      destruct (Nat.le_ge_cases (Z.to_nat k) (length all)) as [Hle|Hge].
      * now rewrite Nat.min_l.
      * rewrite Nat.min_r by exact Hge. now rewrite firstn_all, take_ge.
  - rewrite scanLoop_unlimited, H by reflexivity. cbn. now rewrite firstn_all.
Qed.

Lemma scanLoop_count (maxResults : option Z) :
  forall fuel s all,
    scanAll fuel next s = Some all ->
    exists ms, scanLoop fuel next maxResults s [] 0 = Some ms
               /\ length ms = expectedCount maxResults (length all).
Proof.
  intros fuel s all H. rewrite (scanLoop_take maxResults fuel s all H).
  eexists. split; [reflexivity|]. rewrite length_take.
  destruct maxResults as [k|]; cbn [expectedCount]; [destruct (k =? 0)%Z|]; lia.
Qed.

Lemma scanLoop_None_all (fuel : nat) (s : St) (ms : list Match) :
  scanLoop fuel next None s [] 0 = Some ms -> scanAll fuel next s = Some ms.
Proof.
  rewrite scanLoop_unlimited by reflexivity.
  destruct (scanAll fuel next s); cbn; congruence.
Qed.

End ScanFacts.

Section SearchFacts.
Context {rt : Runtime}.

Lemma regexScan_scanLoop exec markdown maxResults contextChars :
  forall fuel lastIndex matches totalMatches,
    regexScan fuel exec markdown maxResults contextChars lastIndex matches totalMatches
    = scanLoop fuel (regexNext exec markdown contextChars) maxResults
        lastIndex matches totalMatches.
Proof.
  induction fuel as [|fuel IH]; intros li ms t; [reflexivity|].
  cbn [regexScan scanLoop]. unfold regexNext.
  destruct (exec markdown li) as [[i e]|]; [|reflexivity].
  destruct (limitReached maxResults t); [reflexivity|]. apply IH.
Qed.

Lemma literalScan_scanLoop markdown markdownText searchText query maxResults contextChars :
  forall fuel position matches totalMatches,
    literalScan fuel markdown markdownText searchText query maxResults contextChars
      position matches totalMatches
    = scanLoop fuel (literalNext markdown markdownText searchText query contextChars)
        maxResults position matches totalMatches.
Proof.
  induction fuel as [|fuel IH]; intros p ms t; [reflexivity|].
  cbn [literalScan scanLoop]. unfold literalNext.
  destruct (indexOf markdownText searchText p); [|reflexivity].
  destruct (limitReached maxResults t); [reflexivity|]. apply IH.
Qed.

(** Grouping keeps every entry. *)
Lemma groupInsert_entries (m : Match) (groups : list (jsstring * list (jsstring * jsstring))) :
  foldr (fun g n => length (snd g) + n) 0 (groupInsert m groups)
  = S (foldr (fun g n => length (snd g) + n) 0 groups).
Proof.
  induction groups as [|[s ms] later IH]; [reflexivity|].
  cbn [groupInsert]. destruct (decide (s = m_section m)).
  - cbn [foldr snd]. rewrite length_app. cbn [length]. lia.
  - cbn [foldr snd]. rewrite IH. lia.
Qed.

Lemma groupBySection_entries (matches : list Match) :
  totalEntries (groupBySection matches) = length matches.
Proof.
  unfold totalEntries, groupBySection.
  assert (H : forall groups,
            foldr (fun r n => length (r_matches r) + n) 0
              (map (fun g => {| r_page := 0; r_section := fst g; r_matches := snd g |})
                   (fold_left (fun groups m => groupInsert m groups) matches groups))
            = length matches + foldr (fun g n => length (snd g) + n) 0 groups).
  { induction matches as [|m ms IH]; intros groups; cbn [fold_left].
    - induction groups as [|g gs IHg]; [reflexivity|].
      cbn [map foldr r_matches length Nat.add] in IHg |- *. now rewrite IHg.
    - rewrite IH, groupInsert_entries. cbn [length]. lia. }
  rewrite H. cbn [foldr]. lia.
Qed.

(** What [searchPDF] returns, from the matches collected. *)
Lemma searchPDF_entries fuel loadedPDFs pdfId pdf query caseSensitive regex
    maxResults contextChars matches :
  loadedPDFs !! pdfId = Some pdf ->
  searchMatches fuel pdf query caseSensitive regex maxResults contextChars
  = Some (inr matches) ->
  exists results,
    searchPDF fuel loadedPDFs pdfId query caseSensitive regex maxResults contextChars
    = Some (inr results)
    /\ totalEntries results = length matches.
Proof.
  intros Hpdf Hm. unfold searchPDF. rewrite Hpdf, Hm.
  destruct matches as [|m ms]; cbn [length Nat.eqb].
  - now exists [].
  - eexists. split; [reflexivity|]. apply groupBySection_entries.
Qed.

Lemma searchPDF_entries_inv fuel loadedPDFs pdfId query caseSensitive regex
    maxResults contextChars results :
  searchPDF fuel loadedPDFs pdfId query caseSensitive regex maxResults contextChars
  = Some (inr results) ->
  exists pdf matches,
    loadedPDFs !! pdfId = Some pdf
    /\ searchMatches fuel pdf query caseSensitive regex maxResults contextChars
       = Some (inr matches)
    /\ totalEntries results = length matches.
Proof.
  unfold searchPDF. destruct (loadedPDFs !! pdfId) as [pdf|]; [|discriminate].
  destruct (searchMatches _ _ _ _ _ _ _) as [[e|ms]|] eqn:E; try discriminate.
  intros H. exists pdf, ms. split; [reflexivity|]. split; [exact E|].
  clear E. destruct ms as [|m ms]; cbn [length Nat.eqb] in H; injection H as <-.
  - reflexivity.
  - apply groupBySection_entries.
Qed.

(** The matches collected are a scan, whatever the branch. *)
Lemma searchMatches_scan fuel pdf query caseSensitive regex contextChars :
  (regex = true -> newRegExp query (negb caseSensitive) <> None) ->
  exists (St : Type) (next : St -> option (St * Match)) (s : St),
    forall maxResults,
      searchMatches fuel pdf query caseSensitive regex maxResults contextChars
      = inr <$> scanLoop fuel next maxResults s [] 0.
Proof.
  intros Hre. unfold searchMatches. destruct regex.
  - destruct (newRegExp query (negb caseSensitive)) as [exec|]; [|now destruct Hre].
    eexists nat, _, 0. intros mr. now rewrite regexScan_scanLoop.
  - eexists nat, _, 0. intros mr. now rewrite literalScan_scanLoop.
Qed.

End SearchFacts.

Section SearchClaims.
Context {rt : Runtime}.

(** C6, as the program has it: for a limit k of at least 1, a search that
    finds [totalMatches] entries without limit returns min(k,
    totalMatches) entries with the limit k, over all its groups; they are
    the first k matches of the scan, or all of them. *)
Theorem searchPDF_limit (fuel : nat) (loadedPDFs : gmap jsstring LoadedPDF)
    (pdfId query : jsstring) (caseSensitive regex : bool) (contextChars k : Z)
    (all : list SearchResult) :
  (0 < k)%Z ->
  searchPDF fuel loadedPDFs pdfId query caseSensitive regex None contextChars
  = Some (inr all) ->
  exists limited,
    searchPDF fuel loadedPDFs pdfId query caseSensitive regex (Some k) contextChars
    = Some (inr limited)
    /\ Z.of_nat (totalEntries limited) = Z.min k (Z.of_nat (totalEntries all))
    /\ exists pdf matches,
         loadedPDFs !! pdfId = Some pdf
         /\ searchMatches fuel pdf query caseSensitive regex None contextChars
            = Some (inr matches)
         /\ searchMatches fuel pdf query caseSensitive regex (Some k) contextChars
            = Some (inr (take (Z.to_nat k) matches)).
Proof.
  intros Hk Hall.
  destruct (searchPDF_entries_inv _ _ _ _ _ _ _ _ _ Hall) as (pdf & msAll & Hpdf & Hm & Hn).
  assert (Hre : regex = true -> newRegExp query (negb caseSensitive) <> None).
  { intros -> Hnone. unfold searchMatches in Hm. rewrite Hnone in Hm. discriminate. }
  destruct (searchMatches_scan fuel pdf query caseSensitive regex contextChars Hre)
    as (St & next & s & Hscan).
  pose proof Hm as Hm0. rewrite Hscan in Hm0.
  destruct (scanLoop fuel next None s [] 0) as [ms0|] eqn:E0; [|discriminate].
  cbn in Hm0. injection Hm0 as ->.
  apply scanLoop_None_all in E0.
  pose proof (scanLoop_take next (Some k) fuel s msAll E0) as Hms.
  cbn [expectedCount] in Hms.
  replace (k =? 0)%Z with false in Hms by (symmetry; apply Z.eqb_neq; lia).
  assert (Htake : take (Nat.min (Z.to_nat k) (length msAll)) msAll
                  = take (Z.to_nat k) msAll).
  { destruct (Nat.le_ge_cases (Z.to_nat k) (length msAll)) as [Hle|Hge].
    - now rewrite Nat.min_l.
    - rewrite Nat.min_r by exact Hge. now rewrite firstn_all, take_ge. }
  rewrite Htake in Hms.
  assert (Hlim : searchMatches fuel pdf query caseSensitive regex (Some k) contextChars
                 = Some (inr (take (Z.to_nat k) msAll))).
  { now rewrite Hscan, Hms. }
  destruct (searchPDF_entries fuel loadedPDFs pdfId pdf query caseSensitive regex
              (Some k) contextChars _ Hpdf Hlim) as (limited & Hl & Hcount).
  exists limited. split; [exact Hl|]. split.
  - rewrite Hcount, length_take, Hn. lia.
  - exists pdf, msAll. auto.
Qed.

(** A lawful [exec] makes the scan advance: from [lastIndex], with more
    fuel than there are positions left, the scan ends, and its entries
    are the matches of the pattern, at increasing positions. *)
Lemma regex_scan_hits exec markdown contextChars :
  execInBounds exec ->
  forall fuel lastIndex,
    length markdown + 1 - lastIndex < fuel ->
    exists hits,
      Hits exec markdown lastIndex hits
      /\ scanAll fuel (regexNext exec markdown contextChars) lastIndex
         = Some (map (hitMatch markdown contextChars) hits)
      /\ length hits <= length markdown + 1 - lastIndex
      /\ Forall (fun hit => lastIndex <= fst hit) hits
      /\ StronglySorted lt (map fst hits).
Proof.
  intros Hexec. induction fuel as [|fuel IH]; intros li Hfuel; [lia|].
  cbn [scanAll].
  assert (En : regexNext exec markdown contextChars li
               = match exec markdown li with
                 | None => None
                 | Some hit => Some (advance hit, hitMatch markdown contextChars hit)
                 end) by reflexivity.
  rewrite En. clear En.
  destruct (exec markdown li) as [[i e]|] eqn:Ex.
  - destruct (Hexec _ _ _ _ Ex) as (H1 & H2 & H3).
    assert (Hadv : i < advance (i, e) /\ advance (i, e) <= length markdown + 1).
    { unfold advance. cbn [fst snd]. destruct (i =? e) eqn:Eie.
      - apply Nat.eqb_eq in Eie. lia.
      - apply Nat.eqb_neq in Eie. lia. }
    destruct (IH (advance (i, e))) as (hits & Hh & Hs & Hl & Hge & Hsorted); [lia|].
    exists ((i, e) :: hits). split; [now apply Hits_more|].
    split; [now rewrite Hs|].
    split; [cbn [length]; lia|].
    split.
    + constructor; [cbn [fst]; lia|].
      eapply Forall_impl; [exact Hge|]. cbn. intros hit Hhit. lia.
    + cbn [map fst]. constructor; [exact Hsorted|].
      apply Forall_map. eapply Forall_impl; [exact Hge|]. cbn. intros hit Hhit. lia.
  - exists []. split; [now apply Hits_done|].
    split; [reflexivity|]. split; [cbn; lia|]. split; constructor.
Qed.

(** The matches of a pattern in a text are determined. *)
Lemma Hits_functional exec text lastIndex hits1 hits2 :
  Hits exec text lastIndex hits1 -> Hits exec text lastIndex hits2 -> hits1 = hits2.
Proof.
  intros H1. revert hits2. induction H1 as [li Hn | li hit later He _ IH]; intros hits2 H2.
  - inversion H2; subst; [reflexivity | congruence].
  - inversion H2 as [? Hn | ? hit' later' He' Hl']; subst; [congruence|].
    assert (hit' = hit) as -> by congruence. f_equal. now apply IH.
Qed.

(** C8: the search for a pattern ends, whatever the pattern matches,
    empty matches included: with fuel for one turn per position of the
    body and one more, it returns; the matches of the pattern are at
    strictly increasing positions, at most one per position of the
    body and one at its end, and the result has one entry for each of
    them, up to the limit. *)
Theorem searchPDF_regex_terminates (loadedPDFs : gmap jsstring LoadedPDF)
    (pdfId query : jsstring) (pdf : LoadedPDF) (caseSensitive : bool)
    (maxResults : option Z) (contextChars : Z)
    (exec : jsstring -> nat -> option (nat * nat)) :
  loadedPDFs !! pdfId = Some pdf ->
  newRegExp query (negb caseSensitive) = Some exec ->
  execInBounds exec ->
  exists hits,
    Hits exec (markdown pdf) 0 hits
    /\ StronglySorted lt (map fst hits)
    /\ length hits <= length (markdown pdf) + 1
    /\ forall fuel, length (markdown pdf) + 2 <= fuel ->
         exists results,
           searchPDF fuel loadedPDFs pdfId query caseSensitive true maxResults contextChars
           = Some (inr results)
           /\ totalEntries results = expectedCount maxResults (length hits).
Proof.
  intros Hpdf Hre Hexec.
  destruct (regex_scan_hits exec (markdown pdf) contextChars Hexec
              (length (markdown pdf) + 2) 0) as (hits & Hh & _ & Hl & _ & Hsorted); [lia|].
  exists hits. split; [exact Hh|]. split; [exact Hsorted|]. split; [lia|].
  intros fuel Hfuel.
  destruct (regex_scan_hits exec (markdown pdf) contextChars Hexec fuel 0)
    as (hits' & Hh' & Hs' & _); [lia|].
  rewrite (Hits_functional _ _ _ _ _ Hh' Hh) in Hs'.
  destruct (scanLoop_count _ maxResults fuel 0 _ Hs') as (ms & Hms & Hlen).
  destruct (searchPDF_entries fuel loadedPDFs pdfId pdf query caseSensitive true
              maxResults contextChars ms Hpdf) as (results & Hr & Hcount).
  { unfold searchMatches. rewrite Hre, regexScan_scanLoop, Hms. reflexivity. }
  exists results. split; [exact Hr|].
  rewrite Hcount, Hlen, length_map. reflexivity.
Qed.

End SearchClaims.

(** C6 as stated fails for the limit 0, which the program takes for no
    limit: the search for a in the body aa returns both matches. *)
Lemma searchPDF_limit_counterexample :
  exists limited all,
    searchPDF (rt := Sample.runtime) 5 (oneDocument (js "aa")) (js "doc") (js "a")
      true false (Some 0%Z) 50 = Some (inr limited)
    /\ searchPDF (rt := Sample.runtime) 5 (oneDocument (js "aa")) (js "doc") (js "a")
         true false None 50 = Some (inr all)
    /\ totalEntries limited = 2
    /\ Z.of_nat (totalEntries limited) <> Z.min 0 (Z.of_nat (totalEntries all)).
Proof.
  eexists _, _. split; [vm_compute; reflexivity|].
  split; [vm_compute; reflexivity|].
  split; [reflexivity | vm_compute; discriminate].
Qed.

(** ** Attribution of a match to a section *)

Section AttributionFacts.

Lemma splitChar_app (c : N) (a b : jsstring) :
  splitChar c (a ++ c :: b) = splitChar c a ++ splitChar c b.
Proof.
  induction a as [|x a IH].
  - cbn [app]. rewrite splitChar_step, N.eqb_refl. reflexivity.
  - cbn [app]. rewrite !splitChar_step, IH. destruct (x =? c)%N; [reflexivity|].
    destruct (splitChar c a) as [|p ps] eqn:E; [now apply splitChar_not_nil in E|].
    reflexivity.
Qed.

Lemma splitChar_line (c : N) (line : jsstring) :
  ~ In c line -> splitChar c line = [line].
Proof.
  induction line as [|x r IH]; [reflexivity|]. intros Hin.
  rewrite splitChar_step.
  destruct (x =? c)%N eqn:E.
  - apply N.eqb_eq in E. subst x. exfalso. apply Hin. now left.
  - rewrite IH; [reflexivity|]. intros H. apply Hin. now right.
Qed.

Lemma omap_none {A B} (f : A -> option B) (l : list A) :
  (forall x, In x l -> f x = None) -> omap f l = [].
Proof.
  induction l as [|x r IH]; [reflexivity|]. intros H. cbn [omap list_omap].
  rewrite (H x) by now left. apply IH. intros y Hy. apply H. now right.
Qed.

(** A match past the line of a heading, with no heading line in the
    text between that line and the match, is attributed to the
    heading. *)
Lemma findSectionForPosition_after_heading
    (before : list jsstring) (heading mid tail : jsstring) (lvl : nat) (t : jsstring) :
  ~ In NL heading ->
  headingMatch heading = Some (lvl, t) ->
  (forall line, In line (splitChar NL mid) -> headingMatch line = None) ->
  let textBefore := join [NL] (before ++ [heading]) ++ NL :: mid in
  findSectionForPosition (textBefore ++ tail) (length textBefore) = t.
Proof.
  intros Hnl Hh Hmid textBefore. unfold findSectionForPosition.
  rewrite take_app_length. unfold textBefore.
  rewrite splitChar_app, rev_app_distr.
  assert (Hlast : exists ls, splitChar NL (join [NL] (before ++ [heading])) = ls ++ [heading]).
  { destruct before as [|b bs].
    - exists []. cbn [app join]. now apply splitChar_line.
    - rewrite join_snoc by discriminate. change ([NL] ++ heading) with (NL :: heading).
      rewrite splitChar_app, (splitChar_line NL heading Hnl). now eexists. }
  destruct Hlast as [ls ->].
  rewrite rev_app_distr. cbn [rev app].
  rewrite omap_app. rewrite (omap_none _ (rev (splitChar NL mid))).
  - cbn [app omap list_omap]. rewrite Hh. reflexivity.
  - intros x Hx. rewrite fmap_None. apply Hmid. now apply in_rev.
Qed.

(** A match with no heading line in the text before it is attributed to
    the start of the document. *)
Lemma findSectionForPosition_no_heading (markdown : jsstring) (position : nat) :
  (forall line, In line (splitChar NL (take position markdown)) -> headingMatch line = None) ->
  findSectionForPosition markdown position = js "Document Start".
Proof.
  intros H. unfold findSectionForPosition. rewrite omap_none; [reflexivity|].
  intros x Hx. rewrite fmap_None. apply H. now apply in_rev.
Qed.

(** C7 on the body [twoSections]: the match of World at offset 8 lies
    between the heading Hello World, at offset 0, and the next heading,
    at offset 19; the program attributes it to the title cut at the
    match, Hello followed by a space, which is the title of no
    heading. *)
Theorem findSectionForPosition_in_heading :
  firstHeading twoSections = Some (1, js "Hello World")
  /\ indexOf twoSections (js "World") 0 = Some 8
  /\ indexOf twoSections (js "# Two") 0 = Some 19
  /\ findSectionForPosition twoSections 8 = js "Hello "
  /\ searchPDF (rt := Sample.runtime) 30 (oneDocument twoSections) (js "doc")
       (js "World") true false None 0
     = Some (inr [ {| r_page := 0; r_section := js "Hello ";
                      r_matches := [(js "World", js "World")] |} ]).
Proof. repeat split; vm_compute; reflexivity. Qed.

End AttributionFacts.

(** ** The sample runtime *)

Section SampleFacts.

Lemma isPrefix_length (p s : jsstring) : isPrefix p s = true -> length p <= length s.
Proof.
  revert s. induction p as [|a p IH]; intros [|b s] H; cbn in *; try lia; try discriminate.
  apply andb_true_iff in H as [_ H]. apply IH in H. lia.
Qed.

Lemma indexOfFrom_bounds (pat : jsstring) :
  forall s k i, indexOfFrom s pat k = Some i ->
                k <= i /\ (i - k) + length pat <= length s.
Proof.
  induction s as [|x r IH]; intros k i H.
  - cbn [indexOfFrom] in H. destruct (isPrefix pat []) eqn:E; [|discriminate].
    injection H as <-. apply isPrefix_length in E. cbn [length] in *. lia.
  - cbn [indexOfFrom] in H. destruct (isPrefix pat (x :: r)) eqn:E.
    + injection H as <-. apply isPrefix_length in E. lia.
    + apply IH in H. cbn [length]. lia.
Qed.

Lemma literalExec_inBounds (pattern : jsstring) : execInBounds (Sample.literalExec pattern).
Proof.
  intros text li i e H. unfold Sample.literalExec in H.
  destruct (length text <? li) eqn:E; [discriminate|].
  apply Nat.ltb_ge in E.
  unfold indexOf in H. rewrite Nat.min_l in H by exact E.
  destruct (indexOfFrom (drop li text) pattern li) as [j|] eqn:Ej; [|discriminate].
  cbn in H. injection H as <- <-.
  apply indexOfFrom_bounds in Ej. rewrite length_drop in Ej. lia.
Qed.

Lemma sample_lawful : RegExpLawful Sample.runtime.
Proof.
  intros query ignoreCase exec H. cbn in H. injection H as <-.
  destruct ignoreCase; [|apply literalExec_inBounds].
  intros text lastIndex index lastIndex' H.
  apply literalExec_inBounds in H. now rewrite length_map in H.
Qed.

Lemma asciiLower_white (c : N) :
  isWhiteSpace c = true -> isWhiteSpace (Sample.asciiLower c) = true.
Proof.
  intros H. unfold Sample.asciiLower.
  destruct ((65 <=? c)%N && (c <=? 90)%N)%bool eqn:E; [|exact H].
  apply andb_true_iff in E as [E1 E2].
  apply N.leb_le in E1, E2. exfalso.
  unfold isWhiteSpace, isLineTerminator in H.
  repeat (apply orb_true_iff in H as [H|H]);
    try (apply N.eqb_eq in H; lia).
  apply andb_true_iff in H as [H1 H2]. apply N.leb_le in H1, H2. lia.
Qed.

Lemma sample_lower_blank : LowerKeepsBlank Sample.runtime.
Proof.
  intros s. cbn [toLowerCase Sample.runtime].
  induction s as [|c r IH]; [reflexivity|]. cbn [forallb map]. intros H.
  apply andb_true_iff in H as [Hc Hr].
  rewrite asciiLower_white by exact Hc. now apply IH.
Qed.

End SampleFacts.

(** ** The theorems at concrete inputs *)

Lemma searchPDF_limit_witness :
  exists limited,
    searchPDF (rt := Sample.runtime) 5 (oneDocument (js "aa")) (js "doc") (js "a")
      true false (Some 1%Z) 50 = Some (inr limited)
    /\ Z.of_nat (totalEntries limited) = Z.min 1 (Z.of_nat (totalEntries allOfAA))
    /\ exists pdf matches,
         oneDocument (js "aa") !! js "doc" = Some pdf
         /\ searchMatches (rt := Sample.runtime) 5 pdf (js "a") true false None 50
            = Some (inr matches)
         /\ searchMatches (rt := Sample.runtime) 5 pdf (js "a") true false (Some 1%Z) 50
            = Some (inr (take (Z.to_nat 1) matches)).
Proof.
  apply (searchPDF_limit (rt := Sample.runtime) 5 (oneDocument (js "aa")) (js "doc")
           (js "a") true false 50 1 allOfAA); [lia | vm_compute; reflexivity].
Defined.

Lemma searchPDF_regex_terminates_witness :
  exists hits,
    Hits (Sample.literalExec []) (markdown (documentOf (js "ab"))) 0 hits
    /\ StronglySorted lt (map fst hits)
    /\ length hits <= length (markdown (documentOf (js "ab"))) + 1
    /\ forall fuel, length (markdown (documentOf (js "ab"))) + 2 <= fuel ->
         exists results,
           searchPDF (rt := Sample.runtime) fuel (oneDocument (js "ab")) (js "doc") []
             true true None 50 = Some (inr results)
           /\ totalEntries results = expectedCount None (length hits).
Proof.
  apply (searchPDF_regex_terminates (rt := Sample.runtime) (oneDocument (js "ab"))
           (js "doc") [] (documentOf (js "ab")) true None 50 (Sample.literalExec []));
    [vm_compute; reflexivity | reflexivity | apply literalExec_inBounds].
Defined.


Lemma extractSection_blank_title_witness :
  exists k line,
    splitChar NL (markdown (documentOf twoSections)) !! k = Some line
    /\ headingMatch line = Some (1, js "Hello World")
    /\ (forall j line',
          j < k -> splitChar NL (markdown (documentOf twoSections)) !! j = Some line' ->
          headingMatch line' = None)
    /\ (forall page suggestions,
          extractSection (rt := Sample.runtime) (oneDocument twoSections) (js "doc")
            (js "  ") page 4000 <> inl (SectionNotFound suggestions))
    /\ (forall page sp,
          extractSection (rt := Sample.runtime) (oneDocument twoSections) (js "doc")
            (js "  ") page 4000 = inr sp ->
          section sp = js "Hello World" /\ sp_page sp = page
          /\ totalPages sp
             = length (sectionPages (splitChar NL (markdown (documentOf twoSections)))
                         k 1 4000)
          /\ sectionPages (splitChar NL (markdown (documentOf twoSections))) k 1 4000
               !! Z.to_nat (page - 1) = Some (content sp))
    /\ (exists sp,
          extractSection (rt := Sample.runtime) (oneDocument twoSections) (js "doc")
            (js "  ") 1 4000 = inr sp
          /\ section sp = js "Hello World"
          /\ sectionPages (splitChar NL (markdown (documentOf twoSections))) k 1 4000 !! 0
             = Some (content sp)).
Proof.
  apply (extractSection_blank_title (rt := Sample.runtime) (oneDocument twoSections)
           (js "doc") (js "  ") (documentOf twoSections) 4000 1 (js "Hello World"));
    [apply sample_lower_blank | vm_compute; reflexivity | reflexivity | reflexivity].
Defined.

(** ** Runs of the definitions *)

Example js_literal : js "a\nb" = [97%N; 10%N; 98%N].
Proof. reflexivity. Qed.

Example split_three_feeds :
  splitParagraphs (js "a\n\n\nb") = [js "a"; js "\nb"].
Proof. reflexivity. Qed.

Example heading_plain : headingMatch (js "## Chapter 1") = Some (2, js "Chapter 1").
Proof. reflexivity. Qed.

Example heading_blank_title : headingMatch (js "#  ") = Some (1, js " ").
Proof. reflexivity. Qed.

Example heading_needs_title : headingMatch (js "# ") = None.
Proof. reflexivity. Qed.

Example heading_needs_space : headingMatch (js "#Title") = None.
Proof. reflexivity. Qed.

Example paginate_two_pages :
  paginateContent (js "# T\n\nabc\n\ndefgh\n\nij") 10
  = [js "# T\n\nabc"; js "defgh\n\nij"].
Proof. reflexivity. Qed.

Example paginate_long_paragraph :
  paginateContent (js "abcdefgh\n\nij") 4 = [js "abcdefgh"; js "ij"].
Proof. reflexivity. Qed.

Example paginate_trailing_blank :
  paginateContent (js "ab\n\n") 2 = [js "ab"].
Proof. reflexivity. Qed.

Example no_outline_joins_pages :
  convertToMarkdown [js "one"; js ""; js "two"] None = js "one\n\n\n\ntwo".
Proof. reflexivity. Qed.

Example unresolved_sibling_ends_at_last_page :
  flattenOutline 9
    [ {| title := js "A"; page := Some 1%Z; level := 0; children := [] |};
      {| title := js "B"; page := None; level := 0; children := [] |};
      {| title := js "C"; page := Some 5%Z; level := 0; children := [] |} ]
  = [ {| fs_title := js "A"; fs_level := 0; startPage := 1; endPage := 9 |};
      {| fs_title := js "C"; fs_level := 0; startPage := 5; endPage := 9 |} ].
Proof. reflexivity. Qed.

Example first_id_is_file_name :
  generateUniqueId (rt := Sample.runtime) ∅ (js "/a/report.pdf") = js "report.pdf".
Proof. vm_compute. reflexivity. Qed.

Example second_id_takes_a_segment :
  generateUniqueId (rt := Sample.runtime) reportStore (js "/b/report.pdf")
  = js "b/report.pdf".
Proof. vm_compute. reflexivity. Qed.

Example url_id :
  generateUniqueId (rt := Sample.runtime) ∅ (js "https://host.org/docs/spec.pdf")
  = js "spec.pdf".
Proof. vm_compute. reflexivity. Qed.

Example section_by_title :
  extractSection (rt := Sample.runtime) (oneDocument twoSections) (js "doc")
    (js "hello") 1 4000
  = inr {| sp_page := 1; totalPages := 1; content := js "# Hello World\nbody";
           section := js "Hello World" |}.
Proof. vm_compute. reflexivity. Qed.

Example section_page_out_of_range :
  extractSection (rt := Sample.runtime) (oneDocument twoSections) (js "doc")
    (js "hello") 5 4000
  = inl (PageOutOfRange 1).
Proof. vm_compute. reflexivity. Qed.

Example section_not_found :
  extractSection (rt := Sample.runtime) (oneDocument twoSections) (js "doc")
    (js "absent") 1 4000
  = inl (SectionNotFound [js "Hello World"; js "Two"]).
Proof. vm_compute. reflexivity. Qed.

Example search_in_body :
  searchPDF (rt := Sample.runtime) 30 (oneDocument twoSections) (js "doc")
    (js "MORE") false false None 3
  = Some (inr [ {| r_page := 0; r_section := js "Two";
                   r_matches := [(js "more", js "wo\nmore")] |} ]).
Proof. vm_compute. reflexivity. Qed.

Example empty_pattern_matches_everywhere :
  match searchPDF (rt := Sample.runtime) 4 (oneDocument (js "ab")) (js "doc") []
          true true None 0 with
  | Some (inr results) => totalEntries results = 3
  | _ => False
  end.
Proof. vm_compute. reflexivity. Qed.

Example empty_literal_query_does_not_end :
  searchPDF (rt := Sample.runtime) 100 (oneDocument (js "ab")) (js "doc") []
    true false None 0 = None.
Proof. vm_compute. reflexivity. Qed.

(** * Further properties *)

(** ** Paginator: the pages returned *)

Section PaginatorMore.

Lemma place_nonempty (B : Z) (pages : list jsstring) (cur p : jsstring) :
  Forall (fun pg => pg <> []) pages ->
  Forall (fun pg => pg <> []) (fst (place B pages cur p)).
Proof.
  intros H. unfold place. destruct cur as [|c cur]; cbn [length Nat.eqb fst]; [exact H|].
  destruct (Z.of_nat _ <=? B)%Z; cbn [fst]; [exact H|].
  apply Forall_app. split; [exact H|]. constructor; [discriminate | constructor].
Qed.

Lemma place_count (B : Z) (pages : list jsstring) (cur p : jsstring) :
  length (fst (place B pages cur p)) + 1
  <= length pages + (if 0 <? length cur then 1 else 0) + 1.
Proof.
  unfold place. destruct cur as [|c cur]; cbn [length Nat.eqb Nat.ltb Nat.leb fst]; [lia|].
  destruct (Z.of_nat _ <=? B)%Z; cbn [fst]; [lia|].
  rewrite length_app. cbn [length]. lia.
Qed.

Lemma paginateLoop_no_empty_page (B : Z) :
  forall n paragraphs pages cur,
    length paragraphs <= n ->
    Forall (fun pg => pg <> []) pages ->
    Forall (fun pg => pg <> []) (paginateLoop B paragraphs pages cur).
Proof.
  assert (Hend : forall pages cur, Forall (fun pg : jsstring => pg <> []) pages ->
            Forall (fun pg => pg <> []) (paginateLoop B [] pages cur)).
  { intros pages cur H. rewrite paginateLoop_nil.
    destruct cur as [|c cur]; cbn [length Nat.ltb Nat.leb]; [exact H|].
    apply Forall_app. split; [exact H|]. constructor; [discriminate | constructor]. }
  induction n as [|n IH]; intros ps pages cur Hn H.
  - destruct ps; [now apply Hend | simpl in Hn; lia].
  - destruct ps as [|p [|q rest]].
    + now apply Hend.
    + rewrite paginateLoop_one. now apply Hend, place_nonempty.
    + rewrite paginateLoop_two. cbv zeta.
      destruct (pulls B p (snd (place B pages cur p)) q).
      * apply IH; [simpl in Hn; lia | now apply place_nonempty].
      * apply IH; [simpl in Hn |- *; lia | now apply place_nonempty].
Qed.

Lemma paginateLoop_count (B : Z) :
  forall n paragraphs pages cur,
    length paragraphs <= n ->
    length (paginateLoop B paragraphs pages cur)
    <= length pages + (if 0 <? length cur then 1 else 0) + length paragraphs.
Proof.
  induction n as [|n IH]; intros ps pages cur Hn.
  - destruct ps; [|simpl in Hn; lia]. rewrite paginateLoop_nil.
    destruct (0 <? length cur); [rewrite length_app|]; cbn [length]; lia.
  - destruct ps as [|p [|q rest]].
    + rewrite paginateLoop_nil.
      destruct (0 <? length cur); [rewrite length_app|]; cbn [length]; lia.
    + rewrite paginateLoop_one, paginateLoop_nil.
      pose proof (place_count B pages cur p).
      destruct (0 <? length (snd _)); [rewrite length_app|]; cbn [length]; lia.
    + rewrite paginateLoop_two. cbv zeta.
      pose proof (place_count B pages cur p) as Hp.
      destruct (pulls B p (snd (place B pages cur p)) q).
      * etransitivity; [apply IH; simpl in Hn; lia|].
        destruct (0 <? length (_ ++ _)); cbn [length]; lia.
      * etransitivity; [apply IH; simpl in Hn |- *; lia|].
        destruct (0 <? length (snd _)); cbn [length]; lia.
Qed.

(** X1: of a text that is not empty, [paginateContent] returns no empty
    page, and no more pages than the text has paragraphs. *)
Theorem paginateContent_pages (content : jsstring) (B : Z) :
  content <> [] ->
  Forall (fun page => page <> []) (paginateContent content B)
  /\ length (paginateContent content B) <= length (splitParagraphs content).
Proof.
  intros Hne. unfold paginateContent.
  destruct (Z.of_nat (length content) <=? B)%Z.
  - split; [repeat constructor; exact Hne|].
    pose proof (splitParagraphs_not_nil content).
    destruct (splitParagraphs content); [congruence | cbn [length]; lia].
  - split.
    + apply (paginateLoop_no_empty_page B (length (splitParagraphs content))); auto.
    + pose proof (paginateLoop_count B (length (splitParagraphs content))
                    (splitParagraphs content) [] [] (le_n _)) as H.
      cbn [length Nat.ltb Nat.leb] in H. lia.
Qed.

Lemma paginateContent_pages_witness :
  Forall (fun page => page <> []) (paginateContent (js "ab\n\n\n\n\n\ncd") 2)
  /\ length (paginateContent (js "ab\n\n\n\n\n\ncd") 2)
     <= length (splitParagraphs (js "ab\n\n\n\n\n\ncd")).
Proof. apply (paginateContent_pages (js "ab\n\n\n\n\n\ncd") 2). discriminate. Defined.

(** X2: a text of blank lines only that is over the budget gives no page
    at all: the paragraphs are all empty and none is ever pushed. *)
Theorem paginateContent_blank_lines (n : nat) (B : Z) :
  (B < Z.of_nat (2 * n))%Z ->
  paginateContent (concat (repeat NL2 n)) B = [].
Proof.
  intros HB. unfold paginateContent.
  assert (Hlen : forall k, length (concat (repeat NL2 k)) = 2 * k).
  { induction k as [|m IH]; [reflexivity|].
    cbn [repeat concat]. rewrite length_app, IH. cbn [length NL2]. lia. }
  rewrite Hlen. replace (Z.of_nat (2 * n) <=? B)%Z with false
    by (symmetry; apply Z.leb_gt; lia).
  clear HB Hlen.
  assert (Hsplit : splitParagraphs (concat (repeat NL2 n)) = repeat [] (S n)).
  { induction n as [|m IH]; [reflexivity|].
    cbn [repeat concat]. unfold NL2 at 1. cbn [app].
    rewrite splitParagraphs_step, N.eqb_refl. cbn [andb]. now rewrite IH. }
  rewrite Hsplit. generalize (S n). clear.
  assert (H : forall k m, m <= k -> paginateLoop B (repeat [] m) [] [] = []).
  { induction k as [|k IH]; intros m Hm.
    - destruct m; [reflexivity | lia].
    - destruct m as [|[|m]]; [reflexivity | reflexivity |].
      cbn [repeat]. rewrite paginateLoop_two. unfold place, pulls.
      cbn [length Nat.eqb fst snd startsHeading takeWhile dropWhile andb].
      change ([] :: repeat [] m) with (repeat (@nil N) (S m)).
      apply IH. lia. }
  intros m. now apply (H m).
Qed.

Lemma paginateContent_blank_lines_witness :
  paginateContent (concat (repeat NL2 2)) 3 = [].
Proof. apply (paginateContent_blank_lines 2 3). lia. Defined.

End PaginatorMore.

(** ** Section lookup: which section, and where it ends *)

Section LocatorMore.
Context {rt : Runtime}.

(** X3: on a loaded document, [extractSection] fails with
    [SectionNotFound] exactly when no heading line of the body has a
    title that contains the query or is contained in it (both lower-cased
    and trimmed). *)
Theorem extractSection_not_found (loadedPDFs : gmap jsstring LoadedPDF)
    (pdfId sectionTitle : jsstring) (page charsPerPage : Z) (pdf : LoadedPDF) :
  loadedPDFs !! pdfId = Some pdf ->
  (exists suggestions,
      extractSection loadedPDFs pdfId sectionTitle page charsPerPage
      = inl (SectionNotFound suggestions))
  <-> (forall line lvl raw,
          In line (splitChar NL (markdown pdf)) ->
          headingMatch line = Some (lvl, raw) ->
          titleMatches (trim (toLowerCase sectionTitle)) raw = false).
Proof.
  intros Hpdf. unfold extractSection. rewrite Hpdf.
  pose proof (scanLines_first (trim (toLowerCase sectionTitle))
                (splitChar NL (markdown pdf)) 0
                (scanStart (splitChar NL (markdown pdf))) eq_refl) as H.
  cbv zeta in H. unfold scanStart in H.
  destruct (sectionStart (scanLines _ _ 0 _)) as [start|].
  - destruct H as (k & line & lvl & raw & _ & H1 & H2 & H3 & _). split.
    + intros [sugg Hs]. destruct (_ || _)%bool; discriminate.
    + intros Hnone. rewrite (Hnone line lvl raw) in H3; [discriminate | | exact H2].
      apply list_elem_of_In. eapply list_elem_of_lookup_2, H1.
  - split; [intros _; exact H | intros _; now eexists].
Qed.

(** X4: the section [extractSection] returns is that of the first
    heading line whose title matches the query; its [section] is the
    title as written in the body. *)
Theorem extractSection_first_match (loadedPDFs : gmap jsstring LoadedPDF)
    (pdfId sectionTitle : jsstring) (page charsPerPage : Z) (sp : SectionPage) :
  extractSection loadedPDFs pdfId sectionTitle page charsPerPage = inr sp ->
  exists pdf k line lvl,
    loadedPDFs !! pdfId = Some pdf
    /\ splitChar NL (markdown pdf) !! k = Some line
    /\ headingMatch line = Some (lvl, section sp)
    /\ titleMatches (trim (toLowerCase sectionTitle)) (section sp) = true
    /\ forall j line' lvl' raw',
         j < k -> splitChar NL (markdown pdf) !! j = Some line' ->
         headingMatch line' = Some (lvl', raw') ->
         titleMatches (trim (toLowerCase sectionTitle)) raw' = false.
Proof.
  unfold extractSection.
  destruct (loadedPDFs !! pdfId) as [pdf|]; [|discriminate].
  pose proof (scanLines_first (trim (toLowerCase sectionTitle))
                (splitChar NL (markdown pdf)) 0
                (scanStart (splitChar NL (markdown pdf))) eq_refl) as H.
  cbv zeta in H. unfold scanStart in H.
  destruct (sectionStart (scanLines _ _ 0 _)) as [start|]; [|discriminate].
  destruct H as (k & line & lvl & raw & _ & H1 & H2 & H3 & H4 & _ & H6).
  destruct (_ || _)%bool; [discriminate|].
  intros H. injection H as <-. cbn [section].
  exists pdf, k, line, lvl. rewrite H4. auto.
Qed.

(** X5: a page returned is the page asked for, within 1 and the number
    of pages; the range error comes with a number of pages of at least 1
    that the page asked for is outside of, and page 1 of the same
    section can then be read. *)
Theorem extractSection_page_range (loadedPDFs : gmap jsstring LoadedPDF)
    (pdfId sectionTitle : jsstring) (page charsPerPage : Z) :
  match extractSection loadedPDFs pdfId sectionTitle page charsPerPage with
  | inr sp =>
      sp_page sp = page /\ (1 <= page <= Z.of_nat (totalPages sp))%Z
  | inl (PageOutOfRange n) =>
      1 <= n /\ (page < 1 \/ Z.of_nat n < page)%Z
      /\ exists sp,
           extractSection loadedPDFs pdfId sectionTitle 1 charsPerPage = inr sp
           /\ totalPages sp = n
  | inl _ => True
  end.
Proof.
  unfold extractSection.
  destruct (loadedPDFs !! pdfId) as [pdf|]; [|exact I].
  pose proof (scanLines_first (trim (toLowerCase sectionTitle))
                (splitChar NL (markdown pdf)) 0
                (scanStart (splitChar NL (markdown pdf))) eq_refl) as H.
  pose proof (scanLines_section (trim (toLowerCase sectionTitle))
                (splitChar NL (markdown pdf)) 0
                (scanStart (splitChar NL (markdown pdf))) eq_refl eq_refl) as Hsec.
  cbv zeta in H, Hsec. unfold scanStart in H, Hsec.
  set (st := scanLines _ _ 0 _) in *.
  destruct (sectionStart st) as [start|]; [|exact I].
  destruct H as (k & line & lvl & raw & Hk & H1 & H2 & _).
  cbn [Nat.add] in Hk. subst k.
  destruct (Hsec start eq_refl) as ((_ & Hlt & _) & _).
  destruct (section_content_starts _ start (sectionEnd st) line lvl raw H1 H2 Hlt)
    as [tail ->].
  pose proof (paginateContent_not_nil HASH tail charsPerPage) as Hne.
  destruct (paginateContent (HASH :: tail) charsPerPage) as [|pg pgs];
    [exfalso; apply Hne; [discriminate | reflexivity]|].
  cbn [length].
  destruct (page <? 1)%Z eqn:E1; cbn [orb].
  - apply Z.ltb_lt in E1. split; [lia|]. split; [lia|].
    replace (1 <? 1)%Z with false by reflexivity.
    replace (Z.of_nat (S (length pgs)) <? 1)%Z with false
      by (symmetry; apply Z.ltb_ge; lia).
    cbn [orb]. eexists. split; reflexivity.
  - apply Z.ltb_ge in E1.
    destruct (Z.of_nat (S (length pgs)) <? page)%Z eqn:E2.
    + apply Z.ltb_lt in E2. split; [lia|]. split; [lia|].
      replace (1 <? 1)%Z with false by reflexivity.
      replace (Z.of_nat (S (length pgs)) <? 1)%Z with false
        by (symmetry; apply Z.ltb_ge; lia).
      cbn [orb]. eexists. split; reflexivity.
    + apply Z.ltb_ge in E2. cbn [sp_page totalPages]. split; [reflexivity | lia].
Qed.

(** X6: the page [extractSection] returns is a page of the lines from
    the matched heading line to the next heading line of the same level
    or above, which is left out, or to the end of the body; every
    heading line in between is of a deeper level than the matched
    one. *)
Theorem section_boundary (loadedPDFs : gmap jsstring LoadedPDF)
    (pdfId sectionTitle : jsstring) (page charsPerPage : Z) (pdf : LoadedPDF)
    (sp : SectionPage) :
  loadedPDFs !! pdfId = Some pdf ->
  extractSection loadedPDFs pdfId sectionTitle page charsPerPage = inr sp ->
  exists start stop line lvl,
    splitChar NL (markdown pdf) !! start = Some line
    /\ headingMatch line = Some (lvl, section sp)
    /\ titleMatches (trim (toLowerCase sectionTitle)) (section sp) = true
    /\ (start < stop /\ stop <= length (splitChar NL (markdown pdf)))
    /\ (forall j line' lvl' raw',
          start < j -> j < stop -> splitChar NL (markdown pdf) !! j = Some line' ->
          headingMatch line' = Some (lvl', raw') -> lvl < lvl')
    /\ (stop = length (splitChar NL (markdown pdf))
        \/ exists line' lvl' raw',
             splitChar NL (markdown pdf) !! stop = Some line'
             /\ headingMatch line' = Some (lvl', raw') /\ lvl' <= lvl)
    /\ paginateContent
         (trim (join [NL] (take (stop - start) (drop start (splitChar NL (markdown pdf))))))
         charsPerPage !! Z.to_nat (page - 1)
       = Some (content sp).
Proof.
  intros Hpdf. unfold extractSection. rewrite Hpdf.
  set (lines := splitChar NL (markdown pdf)).
  set (nq := trim (toLowerCase sectionTitle)).
  change {| sectionStart := None; sectionLevel := 0; sectionEnd := length lines;
            matchedTitle := [] |} with (scanStart lines).
  pose proof (scanLines_first nq lines 0 (scanStart lines) eq_refl) as H.
  pose proof (scanLines_section nq lines 0 (scanStart lines) eq_refl eq_refl) as Hsec.
  cbv zeta in H, Hsec.
  set (st := scanLines nq lines 0 (scanStart lines)) in *.
  destruct (sectionStart st) as [start|]; [|discriminate].
  destruct H as (k & line & lvl & raw & Hk & H1 & H2 & H3 & H4 & H5 & _).
  cbn [Nat.add] in Hk. subst k.
  destruct (Hsec start eq_refl) as ((_ & A2 & A3) & B & C).
  cbn [Nat.add] in A3, B, C. rewrite H5 in B, C.
  set (pages := paginateContent _ charsPerPage).
  destruct (page <? 1)%Z eqn:E1; [discriminate|].
  destruct (Z.of_nat (length pages) <? page)%Z eqn:E2; [discriminate|].
  cbn [orb]. intros Hsp. injection Hsp as <-. cbn [section content].
  apply Z.ltb_ge in E1, E2.
  exists start, (sectionEnd st), line, lvl. rewrite H4.
  split; [exact H1|]. split; [exact H2|]. split; [exact H3|]. split; [lia|].
  split; [exact B|]. split.
  - destruct C as [C|(j & line' & lvl' & raw' & C1 & C2 & C3 & C4)]; [now left|].
    right. exists line', lvl', raw'. rewrite C1. auto.
  - destruct (lookup_lt_is_Some_2 pages (Z.to_nat (page - 1))) as [pg Hpg]; [lia|].
    now rewrite Hpg.
Qed.

End LocatorMore.

Lemma extractSection_not_found_witness :
  (exists suggestions,
      extractSection (rt := Sample.runtime) (oneDocument twoSections) (js "doc")
        (js "absent") 1 4000 = inl (SectionNotFound suggestions))
  <-> (forall line lvl raw,
          In line (splitChar NL (markdown (documentOf twoSections))) ->
          headingMatch line = Some (lvl, raw) ->
          titleMatches (rt := Sample.runtime)
            (trim (toLowerCase (Runtime := Sample.runtime) (js "absent"))) raw = false).
Proof.
  apply (extractSection_not_found (rt := Sample.runtime) (oneDocument twoSections)
           (js "doc") (js "absent") 1 4000 (documentOf twoSections)).
  vm_compute. reflexivity.
Defined.

Lemma extractSection_first_match_witness :
  exists pdf k line lvl,
    oneDocument twoSections !! js "doc" = Some pdf
    /\ splitChar NL (markdown pdf) !! k = Some line
    /\ headingMatch line = Some (lvl, js "Two")
    /\ titleMatches (rt := Sample.runtime)
         (trim (toLowerCase (Runtime := Sample.runtime) (js "TWO"))) (js "Two") = true
    /\ forall j line' lvl' raw',
         j < k -> splitChar NL (markdown pdf) !! j = Some line' ->
         headingMatch line' = Some (lvl', raw') ->
         titleMatches (rt := Sample.runtime)
           (trim (toLowerCase (Runtime := Sample.runtime) (js "TWO"))) raw' = false.
Proof.
  apply (extractSection_first_match (rt := Sample.runtime) (oneDocument twoSections)
           (js "doc") (js "TWO") 1 4000
           {| sp_page := 1; totalPages := 1; content := js "# Two\nmore";
              section := js "Two" |}).
  vm_compute. reflexivity.
Defined.

Lemma section_boundary_witness :
  exists start stop line lvl,
    splitChar NL (markdown (documentOf nestedSections)) !! start = Some line
    /\ headingMatch line
       = Some (lvl, section {| sp_page := 1; totalPages := 1;
                               content := js "# One\nintro\n## Part\ndeep";
                               section := js "One" |})
    /\ titleMatches (rt := Sample.runtime)
         (trim (toLowerCase (Runtime := Sample.runtime) (js "one")))
         (section {| sp_page := 1; totalPages := 1;
                     content := js "# One\nintro\n## Part\ndeep";
                     section := js "One" |}) = true
    /\ (start < stop /\ stop <= length (splitChar NL (markdown (documentOf nestedSections))))
    /\ (forall j line' lvl' raw',
          start < j -> j < stop ->
          splitChar NL (markdown (documentOf nestedSections)) !! j = Some line' ->
          headingMatch line' = Some (lvl', raw') -> lvl < lvl')
    /\ (stop = length (splitChar NL (markdown (documentOf nestedSections)))
        \/ exists line' lvl' raw',
             splitChar NL (markdown (documentOf nestedSections)) !! stop = Some line'
             /\ headingMatch line' = Some (lvl', raw') /\ lvl' <= lvl)
    /\ paginateContent
         (trim (join [NL] (take (stop - start)
                             (drop start (splitChar NL (markdown (documentOf nestedSections)))))))
         4000 !! Z.to_nat (1 - 1)
       = Some (content {| sp_page := 1; totalPages := 1;
                          content := js "# One\nintro\n## Part\ndeep";
                          section := js "One" |}).
Proof.
  apply (section_boundary (rt := Sample.runtime) (oneDocument nestedSections) (js "doc")
           (js "one") 1 4000 (documentOf nestedSections)
           {| sp_page := 1; totalPages := 1;
              content := js "# One\nintro\n## Part\ndeep"; section := js "One" |});
    vm_compute; reflexivity.
Defined.

(** ** Search: the groups returned *)

Section GroupFacts.

Lemma groupInsert_keys (m : Match) (groups : list (jsstring * list (jsstring * jsstring))) :
  map fst (groupInsert m groups)
  = map fst groups ++ (if bool_decide (m_section m ∈ map fst groups) then []
                       else [m_section m]).
Proof.
  induction groups as [|[s ms] later IH]; [reflexivity|].
  cbn [groupInsert map fst]. destruct (decide (s = m_section m)) as [->|Hne].
  - cbn [map fst]. rewrite bool_decide_eq_true_2 by (left).
    now rewrite app_nil_r.
  - cbn [map fst app]. rewrite IH. f_equal. f_equal.
    destruct (bool_decide (m_section m ∈ map fst later)) eqn:E.
    + apply bool_decide_eq_true in E.
      rewrite bool_decide_eq_true_2 by (now right). reflexivity.
    + apply bool_decide_eq_false in E.
      rewrite bool_decide_eq_false_2; [reflexivity|].
      intros H. apply E. inversion H; subst; [congruence | assumption].
Qed.

Lemma groupInsert_lookup (m : Match) (groups : list (jsstring * list (jsstring * jsstring)))
    (s : jsstring) (entries : list (jsstring * jsstring)) :
  NoDup (map fst groups) ->
  In (s, entries) (groupInsert m groups) ->
  (s <> m_section m /\ In (s, entries) groups)
  \/ (s = m_section m
      /\ ((exists old, In (s, old) groups /\ entries = old ++ [(m_text m, m_context m)])
          \/ (~ In s (map fst groups) /\ entries = [(m_text m, m_context m)]))).
Proof.
  induction groups as [|[s0 ms] later IH]; intros Hnd Hin.
  - cbn in Hin. destruct Hin as [Hin|[]]. injection Hin as <- <-.
    right. split; [reflexivity|]. right. split; [intros []|reflexivity].
  - cbn [groupInsert] in Hin. apply NoDup_cons in Hnd as [Hnotin Hnd].
    destruct (decide (s0 = m_section m)) as [->|Hne].
    + destruct Hin as [Hin|Hin].
      * injection Hin as <- <-. right. split; [reflexivity|]. left.
        exists ms. split; [now left | reflexivity].
      * left. split; [|now right]. intros ->. apply Hnotin.
        apply list_elem_of_In. apply in_map_iff. now exists (m_section m, entries).
    + destruct Hin as [Hin|Hin].
      * injection Hin as <- <-. left. split; [exact Hne | now left].
      * destruct (IH Hnd Hin) as [[H1 H2]|[H1 [(old & H2 & H3)|[H2 H3]]]].
        -- left. split; [exact H1 | now right].
        -- right. split; [exact H1|]. left. exists old. split; [now right | exact H3].
        -- right. split; [exact H1|]. right. split; [|exact H3].
           cbn [map fst]. intros [He|Hi]; [congruence | contradiction].
Qed.

Lemma filter_none {A} (f : A -> bool) (l : list A) :
  (forall x, In x l -> f x = false) -> List.filter f l = [].
Proof.
  induction l as [|x r IH]; intros H; [reflexivity|]. cbn [List.filter].
  rewrite (H x) by now left. apply IH. intros y Hy. apply H. now right.
Qed.

(** The groups have distinct labels, none is empty, and each holds the
    entries of the matches with its label, in the order of the scan. *)
Lemma groupsOf_spec (matches : list Match) :
  NoDup (map fst (groupsOf matches))
  /\ (forall s, In s (map fst (groupsOf matches)) <-> In s (map m_section matches))
  /\ forall s entries,
       In (s, entries) (groupsOf matches) ->
       entries = entriesOf s matches /\ entries <> [].
Proof.
  unfold groupsOf. induction matches as [|m ms IH] using rev_ind.
  - cbn. split; [constructor|]. split; [tauto | intros ? ? []].
  - rewrite fold_left_app. cbn [fold_left].
    destruct IH as (Hnd & Hkeys & Hent).
    set (groups := fold_left _ ms []) in *.
    split; [|split].
    + rewrite groupInsert_keys.
      destruct (bool_decide (m_section m ∈ map fst groups)) eqn:E.
      * now rewrite app_nil_r.
      * apply bool_decide_eq_false in E. apply NoDup_app. split; [exact Hnd|].
        split; [|apply NoDup_singleton].
        intros x Hx Hx'. apply list_elem_of_singleton in Hx'. subst x. contradiction.
    + intros s. rewrite groupInsert_keys, map_app, !in_app_iff, Hkeys. cbn [map In].
      destruct (bool_decide (m_section m ∈ map fst groups)) eqn:E.
      * apply bool_decide_eq_true in E. apply list_elem_of_In, Hkeys in E.
        cbn [In]. split; [tauto|]. intros [H|[<-|[]]]; [tauto | left; exact E].
      * cbn [In]. tauto.
    + intros s entries Hin.
      unfold entriesOf. rewrite List.filter_app, map_app. cbn [List.filter].
      destruct (groupInsert_lookup m groups s entries Hnd Hin)
        as [[H1 H2]|[H1 [(old & H2 & H3)|[H2 H3]]]].
      * destruct (Hent s entries H2) as [-> Hne].
        rewrite bool_decide_eq_false_2 by congruence.
        cbn [map]. rewrite app_nil_r. split; [reflexivity | exact Hne].
      * destruct (Hent s old H2) as [-> Hne]. subst entries.
        rewrite bool_decide_eq_true_2 by congruence.
        split; [reflexivity|]. intros H. now apply app_eq_nil in H as [_ H].
      * subst entries. rewrite bool_decide_eq_true_2 by congruence.
        assert (List.filter (fun m0 => bool_decide (m_section m0 = s)) ms = []) as ->.
        { apply filter_none. intros x Hx. apply bool_decide_eq_false_2.
          intros Hs. apply H2, Hkeys. rewrite <- Hs. now apply in_map. }
        cbn. split; [reflexivity | discriminate].
Qed.

End GroupFacts.

Section SearchMore.
Context {rt : Runtime}.

Lemma groupBySection_groupsOf (matches : list Match) :
  groupBySection matches
  = map (fun g => {| r_page := 0; r_section := fst g; r_matches := snd g |})
        (groupsOf matches).
Proof. reflexivity. Qed.

Lemma searchPDF_results fuel loadedPDFs pdfId query caseSensitive regex
    maxResults contextChars results :
  searchPDF fuel loadedPDFs pdfId query caseSensitive regex maxResults contextChars
  = Some (inr results) ->
  exists pdf matches,
    loadedPDFs !! pdfId = Some pdf
    /\ searchMatches fuel pdf query caseSensitive regex maxResults contextChars
       = Some (inr matches)
    /\ results = groupBySection matches.
Proof.
  unfold searchPDF. destruct (loadedPDFs !! pdfId) as [pdf|]; [|discriminate].
  destruct (searchMatches _ _ _ _ _ _ _) as [[e|ms]|] eqn:E; try discriminate.
  intros H. exists pdf, ms. split; [reflexivity|]. split; [exact E|].
  destruct ms; cbn [length Nat.eqb] in H; now injection H as <-.
Qed.

(** X7: the groups [searchPDF] returns have distinct section labels,
    and none of them is empty. *)
Theorem searchPDF_groups fuel loadedPDFs pdfId query caseSensitive regex
    maxResults contextChars results :
  searchPDF fuel loadedPDFs pdfId query caseSensitive regex maxResults contextChars
  = Some (inr results) ->
  NoDup (map r_section results)
  /\ Forall (fun r => r_matches r <> []) results.
Proof.
  intros H. destruct (searchPDF_results _ _ _ _ _ _ _ _ _ H) as (pdf & ms & _ & _ & ->).
  rewrite groupBySection_groupsOf.
  destruct (groupsOf_spec ms) as (Hnd & _ & Hent). split.
  - rewrite map_map. cbn [r_section]. exact Hnd.
  - apply Forall_forall. intros r Hr. apply list_elem_of_In, in_map_iff in Hr.
    destruct Hr as ([s entries] & <- & Hin). cbn [r_matches snd].
    now destruct (Hent s entries Hin).
Qed.

(** X8: the groups are the sections of the matches found, and a group
    holds the matches attributed to its section, all of them, in the
    order in which the scan found them. *)
Theorem searchPDF_group_entries fuel loadedPDFs pdfId query caseSensitive regex
    maxResults contextChars results :
  searchPDF fuel loadedPDFs pdfId query caseSensitive regex maxResults contextChars
  = Some (inr results) ->
  exists pdf matches,
    loadedPDFs !! pdfId = Some pdf
    /\ searchMatches fuel pdf query caseSensitive regex maxResults contextChars
       = Some (inr matches)
    /\ (forall s, In s (map r_section results) <-> In s (map m_section matches))
    /\ forall r, In r results -> r_matches r = entriesOf (r_section r) matches.
Proof.
  intros H. destruct (searchPDF_results _ _ _ _ _ _ _ _ _ H) as (pdf & ms & Hpdf & Hm & ->).
  exists pdf, ms. split; [exact Hpdf|]. split; [exact Hm|].
  rewrite groupBySection_groupsOf.
  destruct (groupsOf_spec ms) as (_ & Hkeys & Hent). split.
  - intros s. rewrite map_map. cbn [r_section]. apply Hkeys.
  - intros r Hr. apply in_map_iff in Hr.
    destruct Hr as ([s entries] & <- & Hin). cbn [r_matches r_section fst snd].
    now destruct (Hent s entries Hin).
Qed.

End SearchMore.

Lemma searchPDF_groups_witness :
  NoDup (map r_section allOfAA) /\ Forall (fun r => r_matches r <> []) allOfAA.
Proof.
  apply (searchPDF_groups (rt := Sample.runtime) 5 (oneDocument (js "aa")) (js "doc")
           (js "a") true false None 50 allOfAA).
  vm_compute. reflexivity.
Defined.

Lemma searchPDF_group_entries_witness :
  exists pdf matches,
    oneDocument (js "aa") !! js "doc" = Some pdf
    /\ searchMatches (rt := Sample.runtime) 5 pdf (js "a") true false None 50
       = Some (inr matches)
    /\ (forall s, In s (map r_section allOfAA) <-> In s (map m_section matches))
    /\ forall r, In r allOfAA -> r_matches r = entriesOf (r_section r) matches.
Proof.
  apply (searchPDF_group_entries (rt := Sample.runtime) 5 (oneDocument (js "aa"))
           (js "doc") (js "a") true false None 50 allOfAA).
  vm_compute. reflexivity.
Defined.

(** ** Search: what the literal scan finds *)

Section ScanMore.
Context {St : Type} (next : St -> option (St * Match)).

(** Every entry of a scan was produced by [next]. *)
Lemma scanLoop_sound (maxResults : option Z) :
  forall fuel s acc t ms,
    scanLoop fuel next maxResults s acc t = Some ms ->
    forall m, In m ms -> In m acc \/ exists s0 s1, next s0 = Some (s1, m).
Proof.
  induction fuel as [|fuel IH]; intros s acc t ms H m Hm; [discriminate|].
  cbn [scanLoop] in H. destruct (next s) as [[s' m']|] eqn:En.
  - destruct (limitReached maxResults t).
    + injection H as <-. now left.
    + destruct (IH _ _ _ _ H m Hm) as [Hin|Hex]; [|now right].
      apply in_app_iff in Hin as [Hin|[<-|[]]]; [now left|].
      right. now exists s, s'.
  - injection H as <-. now left.
Qed.

(** A scan whose state comes nearer to a bound at every match ends. *)
Lemma scanAll_terminates (measure : St -> nat) :
  (forall s s' m, next s = Some (s', m) -> measure s' < measure s) ->
  forall fuel s,
    measure s < fuel ->
    exists all, scanAll fuel next s = Some all /\ length all <= measure s.
Proof.
  intros Hdec. induction fuel as [|fuel IH]; intros s Hs; [lia|].
  cbn [scanAll]. destruct (next s) as [[s' m]|] eqn:En.
  - pose proof (Hdec _ _ _ En) as Hlt.
    destruct (IH s') as (all & -> & Hlen); [lia|].
    exists (m :: all). split; [reflexivity | cbn [length]; lia].
  - exists []. split; [reflexivity | cbn; lia].
Qed.

(** A scan that finds its match without moving never ends by itself. *)
Lemma scanLoop_stuck (maxResults : option Z) (s : St) (m : Match) :
  next s = Some (s, m) ->
  (forall t, limitReached maxResults t = false) ->
  forall fuel acc t, scanLoop fuel next maxResults s acc t = None.
Proof.
  intros Hn Hlim. induction fuel as [|fuel IH]; intros acc t; [reflexivity|].
  cbn [scanLoop]. rewrite Hn, Hlim. apply IH.
Qed.

Lemma scanLoop_stuck_limited (k : Z) (s : St) (m : Match) :
  next s = Some (s, m) -> (0 < k)%Z ->
  forall fuel acc,
    Z.to_nat k - length acc < fuel ->
    scanLoop fuel next (Some k) s acc (length acc)
    = Some (acc ++ repeat m (Z.to_nat k - length acc)).
Proof.
  intros Hn Hk. induction fuel as [|fuel IH]; intros acc Hf; [lia|].
  cbn [scanLoop]. rewrite Hn. unfold limitReached.
  replace (k =? 0)%Z with false by (symmetry; apply Z.eqb_neq; lia). cbn [negb andb].
  destruct (k <=? Z.of_nat (length acc))%Z eqn:E.
  - apply Z.leb_le in E. replace (Z.to_nat k - length acc) with 0 by lia.
    cbn [repeat]. now rewrite app_nil_r.
  - apply Z.leb_gt in E.
    replace (S (length acc)) with (length (acc ++ [m]))
      by (rewrite length_app; cbn [length]; lia).
    rewrite IH by (rewrite length_app; cbn [length]; lia).
    rewrite length_app. cbn [length].
    replace (Z.to_nat k - length acc) with (S (Z.to_nat k - (length acc + 1))) by lia.
    cbn [repeat]. now rewrite <- app_assoc.
Qed.

End ScanMore.

Section LiteralFacts.

Lemma isPrefix_take (p s : jsstring) : isPrefix p s = true -> take (length p) s = p.
Proof.
  revert s. induction p as [|a p IH]; intros [|b s] H; cbn in *; try reflexivity;
    try discriminate.
  apply andb_true_iff in H as [Hab H]. apply N.eqb_eq in Hab. subst b.
  f_equal. now apply IH.
Qed.

Lemma indexOfFrom_sound (pat : jsstring) :
  forall s k i, indexOfFrom s pat k = Some i ->
                k <= i /\ take (length pat) (drop (i - k) s) = pat
                /\ (i - k) + length pat <= length s.
Proof.
  induction s as [|x r IH]; intros k i H; cbn [indexOfFrom] in H.
  - destruct (isPrefix pat []) eqn:E; [|discriminate]. injection H as <-.
    rewrite Nat.sub_diag. cbn [drop]. split; [lia|]. split; [now apply isPrefix_take|].
    apply isPrefix_length in E. lia.
  - destruct (isPrefix pat (x :: r)) eqn:E.
    + injection H as <-. rewrite Nat.sub_diag. cbn [drop].
      split; [lia|]. split; [now apply isPrefix_take|].
      apply isPrefix_length in E. lia.
    + apply IH in H as (H1 & H2 & H3). split; [lia|].
      replace (i - k) with (S (i - S k)) by lia. cbn [drop length].
      split; [exact H2 | lia].
Qed.

(** What [indexOf] finds is an occurrence of the pattern, at or after
    the start. *)
Lemma indexOf_sound (s pat : jsstring) (position i : nat) :
  indexOf s pat position = Some i ->
  Nat.min position (length s) <= i
  /\ take (length pat) (drop i s) = pat
  /\ i + length pat <= length s.
Proof.
  unfold indexOf. intros H. apply indexOfFrom_sound in H as (H1 & H2 & H3).
  rewrite drop_drop in H2. rewrite length_drop in H3.
  replace (Nat.min position (length s) + (i - Nat.min position (length s))) with i in H2
    by lia.
  split; [exact H1|]. split; [exact H2 | lia].
Qed.

Lemma indexOf_empty (s : jsstring) : indexOf s [] 0 = Some 0.
Proof. unfold indexOf. cbn [Nat.min drop]. destruct s; reflexivity. Qed.

Lemma trim_length (s : jsstring) : length (trim s) <= length s.
Proof.
  assert (H : forall l : jsstring, length (dropWhile isWhiteSpace l) <= length l).
  { induction l as [|x r IH]; [reflexivity|]. cbn [dropWhile].
    destruct (isWhiteSpace x); cbn [length]; lia. }
  unfold trim. rewrite length_rev.
  etransitivity; [apply H|]. rewrite length_rev. apply H.
Qed.

(** The context of an entry is no longer than the match and the context
    window on both sides. *)
Lemma matchAt_context_length (markdown : jsstring) (contextChars : Z)
    (position matchedLength : nat) :
  (0 <= contextChars)%Z ->
  (Z.of_nat (length (m_context (matchAt markdown contextChars position matchedLength)))
   <= Z.of_nat matchedLength + 2 * contextChars)%Z.
Proof.
  intros Hc. unfold matchAt. cbn [m_context].
  pose proof (trim_length
    (substring markdown (Z.max 0 (Z.of_nat position - contextChars))
       (Z.min (Z.of_nat (length markdown))
              (Z.of_nat position + Z.of_nat matchedLength + contextChars)))) as Ht.
  unfold substring in Ht |- *. rewrite length_take, length_drop in Ht. lia.
Qed.

End LiteralFacts.

Section LiteralSearch.
Context {rt : Runtime}.

(** The matches of a literal search, each produced by [literalNext]. *)
Lemma literal_matches fuel pdf query caseSensitive maxResults contextChars matches :
  searchMatches fuel pdf query caseSensitive false maxResults contextChars
  = Some (inr matches) ->
  forall m, In m matches ->
    exists position position',
      indexOf (if caseSensitive then markdown pdf else toLowerCase (markdown pdf))
              (if caseSensitive then query else toLowerCase query) position
      = Some position'
      /\ m = matchAt (markdown pdf) contextChars position' (length query).
Proof.
  unfold searchMatches. rewrite literalScan_scanLoop. intros H m Hm.
  destruct (scanLoop _ _ _ _ _ _) as [ms|] eqn:E; [|discriminate].
  cbn in H. injection H as <-.
  destruct (scanLoop_sound _ _ _ _ _ _ _ E m Hm) as [[]|(p & p1 & Hn)].
  unfold literalNext in Hn.
  destruct (indexOf _ _ p) as [p'|] eqn:Ei; [|discriminate].
  injection Hn as _ <-. now exists p, p'.
Qed.

Lemma group_entry_match fuel loadedPDFs pdfId query caseSensitive regex
    maxResults contextChars results r e :
  searchPDF fuel loadedPDFs pdfId query caseSensitive regex maxResults contextChars
  = Some (inr results) ->
  In r results -> In e (r_matches r) ->
  exists pdf matches m,
    loadedPDFs !! pdfId = Some pdf
    /\ searchMatches fuel pdf query caseSensitive regex maxResults contextChars
       = Some (inr matches)
    /\ In m matches /\ e = (m_text m, m_context m) /\ r_section r = m_section m.
Proof.
  intros H Hr He.
  destruct (searchPDF_results _ _ _ _ _ _ _ _ _ H) as (pdf & ms & Hpdf & Hm & ->).
  rewrite groupBySection_groupsOf in Hr. apply in_map_iff in Hr.
  destruct Hr as ([s entries] & <- & Hg). cbn [r_matches r_section fst snd] in He |- *.
  destruct (groupsOf_spec ms) as (_ & _ & Hent).
  destruct (Hent s entries Hg) as [-> _]. unfold entriesOf in He.
  apply in_map_iff in He as (m & <- & Hin). apply List.filter_In in Hin as [Hin Hs].
  apply bool_decide_eq_true in Hs. exists pdf, ms, m. auto.
Qed.

(** X9: in a case-sensitive literal search, every entry returned is an
    occurrence of the query in the body: its text is the query, and its
    group is the section attributed to the offset of the occurrence. *)
Theorem searchPDF_literal_sound fuel loadedPDFs pdfId query maxResults contextChars
    results r e :
  searchPDF fuel loadedPDFs pdfId query true false maxResults contextChars
  = Some (inr results) ->
  In r results -> In e (r_matches r) ->
  exists pdf offset,
    loadedPDFs !! pdfId = Some pdf
    /\ take (length query) (drop offset (markdown pdf)) = query
    /\ fst e = query
    /\ r_section r = findSectionForPosition (markdown pdf) offset.
Proof.
  intros H Hr He.
  destruct (group_entry_match _ _ _ _ _ _ _ _ _ _ _ H Hr He)
    as (pdf & ms & m & Hpdf & Hm & Hin & -> & Hs).
  destruct (literal_matches _ _ _ _ _ _ _ Hm m Hin) as (p & p' & Hi & ->).
  apply indexOf_sound in Hi as (_ & Ht & _).
  exists pdf, p'. rewrite Hs. cbn [fst m_text m_section matchAt]. auto.
Qed.

(** X10: the context of every entry of a literal search is at most as
    long as the query and the context window on both sides. *)
Theorem searchPDF_context_length fuel loadedPDFs pdfId query caseSensitive
    maxResults contextChars results r e :
  (0 <= contextChars)%Z ->
  searchPDF fuel loadedPDFs pdfId query caseSensitive false maxResults contextChars
  = Some (inr results) ->
  In r results -> In e (r_matches r) ->
  (Z.of_nat (length (snd e)) <= Z.of_nat (length query) + 2 * contextChars)%Z.
Proof.
  intros Hc H Hr He.
  destruct (group_entry_match _ _ _ _ _ _ _ _ _ _ _ H Hr He)
    as (pdf & ms & m & Hpdf & Hm & Hin & -> & Hs).
  destruct (literal_matches _ _ _ _ _ _ _ Hm m Hin) as (p & p' & Hi & ->).
  cbn [snd]. now apply matchAt_context_length.
Qed.

(** X11: a literal search for a query that is not empty ends: with more
    fuel than the searched text has units it returns, with at most as
    many entries as the text has units.  (The searched text and the
    query are lower-cased when the search is not case-sensitive.) *)
Theorem searchPDF_literal_terminates (fuel : nat)
    (loadedPDFs : gmap jsstring LoadedPDF) (pdfId : jsstring) (pdf : LoadedPDF)
    (query : jsstring) (caseSensitive : bool) (maxResults : option Z)
    (contextChars : Z) :
  loadedPDFs !! pdfId = Some pdf ->
  query <> [] ->
  (if caseSensitive then query else toLowerCase query) <> [] ->
  length (if caseSensitive then markdown pdf else toLowerCase (markdown pdf)) < fuel ->
  exists results,
    searchPDF fuel loadedPDFs pdfId query caseSensitive false maxResults contextChars
    = Some (inr results)
    /\ totalEntries results
       <= length (if caseSensitive then markdown pdf else toLowerCase (markdown pdf)).
Proof.
  intros Hpdf Hq Hs Hfuel.
  set (text := if caseSensitive then markdown pdf else toLowerCase (markdown pdf)) in *.
  set (searchText := if caseSensitive then query else toLowerCase query) in *.
  destruct (scanAll_terminates
              (literalNext (markdown pdf) text searchText query contextChars)
              (fun position => length text - position)) with (fuel := fuel) (s := 0)
    as (all & Hall & Hlen).
  { intros p p1 m Hn. unfold literalNext in Hn.
    destruct (indexOf text searchText p) as [p'|] eqn:Ei; [|discriminate].
    injection Hn as <- _. apply indexOf_sound in Ei as (H1 & _ & H3).
    destruct searchText; [congruence|]. destruct query; [congruence|].
    cbn [length] in *. lia. }
  { lia. }
  destruct (scanLoop_count _ maxResults fuel 0 all Hall) as (ms & Hms & Hcount).
  destruct (searchPDF_entries fuel loadedPDFs pdfId pdf query caseSensitive false
              maxResults contextChars ms Hpdf) as (results & Hr & Hn).
  { unfold searchMatches. fold text searchText.
    rewrite literalScan_scanLoop, Hms. reflexivity. }
  exists results. split; [exact Hr|]. rewrite Hn, Hcount.
  destruct maxResults as [k|]; cbn [expectedCount]; [destruct (k =? 0)%Z|]; lia.
Qed.

(** X12: the empty query, in a case-sensitive literal search, is found
    at offset 0 again and again: without a limit the search never
    returns, whatever the fuel, and with a limit k of at least 1 it
    returns k entries. *)
Theorem searchPDF_empty_query (loadedPDFs : gmap jsstring LoadedPDF)
    (pdfId : jsstring) (pdf : LoadedPDF) (contextChars : Z) :
  loadedPDFs !! pdfId = Some pdf ->
  (forall fuel, searchPDF fuel loadedPDFs pdfId [] true false None contextChars = None)
  /\ forall k fuel,
       (0 < k)%Z -> Z.to_nat k < fuel ->
       exists results,
         searchPDF fuel loadedPDFs pdfId [] true false (Some k) contextChars
         = Some (inr results)
         /\ totalEntries results = Z.to_nat k.
Proof.
  intros Hpdf.
  assert (Hn : literalNext (markdown pdf) (markdown pdf) [] [] contextChars 0
               = Some (0, matchAt (markdown pdf) contextChars 0 0)).
  { unfold literalNext. now rewrite indexOf_empty. }
  split.
  - intros fuel. unfold searchPDF, searchMatches. rewrite Hpdf, literalScan_scanLoop.
    rewrite (scanLoop_stuck _ None 0 _ Hn) by reflexivity. reflexivity.
  - intros k fuel Hk Hfuel.
    pose proof (scanLoop_stuck_limited _ k 0 _ Hn Hk fuel []) as Hs.
    cbn [length app] in Hs. rewrite Nat.sub_0_r in Hs. specialize (Hs Hfuel).
    destruct (searchPDF_entries fuel loadedPDFs pdfId pdf [] true false (Some k)
                contextChars
                (repeat (matchAt (markdown pdf) contextChars 0 0) (Z.to_nat k)) Hpdf)
      as (results & Hr & Hcount).
    { unfold searchMatches. rewrite literalScan_scanLoop, Hs. reflexivity. }
    exists results. split; [exact Hr|]. now rewrite Hcount, repeat_length.
Qed.

End LiteralSearch.

Lemma searchPDF_literal_sound_witness :
  exists pdf offset,
    oneDocument (js "aa") !! js "doc" = Some pdf
    /\ take (length (js "a")) (drop offset (markdown pdf)) = js "a"
    /\ fst (js "a", js "aa") = js "a"
    /\ js "Document Start" = findSectionForPosition (markdown pdf) offset.
Proof.
  apply (searchPDF_literal_sound (rt := Sample.runtime) 5 (oneDocument (js "aa"))
           (js "doc") (js "a") None 50 allOfAA
           {| r_page := 0; r_section := js "Document Start";
              r_matches := [(js "a", js "aa"); (js "a", js "aa")] |}
           (js "a", js "aa"));
    [vm_compute; reflexivity | now left | now left].
Defined.

Lemma searchPDF_context_length_witness :
  (Z.of_nat (length (snd (js "a", js "aa"))) <= Z.of_nat (length (js "a")) + 2 * 50)%Z.
Proof.
  apply (searchPDF_context_length (rt := Sample.runtime) 5 (oneDocument (js "aa"))
           (js "doc") (js "a") true None 50 allOfAA
           {| r_page := 0; r_section := js "Document Start";
              r_matches := [(js "a", js "aa"); (js "a", js "aa")] |}
           (js "a", js "aa"));
    [lia | vm_compute; reflexivity | now left | now left].
Defined.

Lemma searchPDF_literal_terminates_witness :
  exists results,
    searchPDF (rt := Sample.runtime) 3 (oneDocument (js "aa")) (js "doc") (js "A")
      false false None 50 = Some (inr results)
    /\ totalEntries results
       <= length (toLowerCase (Runtime := Sample.runtime) (markdown (documentOf (js "aa")))).
Proof.
  apply (searchPDF_literal_terminates (rt := Sample.runtime) 3 (oneDocument (js "aa"))
           (js "doc") (documentOf (js "aa")) (js "A") false None 50);
    [vm_compute; reflexivity | discriminate | vm_compute; discriminate
     | vm_compute; lia].
Defined.

Lemma searchPDF_empty_query_witness :
  (forall fuel,
      searchPDF (rt := Sample.runtime) fuel (oneDocument (js "aa")) (js "doc") []
        true false None 50 = None)
  /\ forall k fuel,
       (0 < k)%Z -> Z.to_nat k < fuel ->
       exists results,
         searchPDF (rt := Sample.runtime) fuel (oneDocument (js "aa")) (js "doc") []
           true false (Some k) 50 = Some (inr results)
         /\ totalEntries results = Z.to_nat k.
Proof.
  apply (searchPDF_empty_query (rt := Sample.runtime) (oneDocument (js "aa"))
           (js "doc") (documentOf (js "aa")) 50).
  vm_compute. reflexivity.
Defined.

Section AttributionMore.

(** X13: a match is attributed to the nearest heading before it: the
    title of the last line, among the lines of the body cut at the
    offset of the match, that is a heading line. *)
Theorem findSectionForPosition_nearest (markdown : jsstring) (position k : nat)
    (line : jsstring) (lvl : nat) (t : jsstring) :
  splitChar NL (take position markdown) !! k = Some line ->
  headingMatch line = Some (lvl, t) ->
  (forall j line',
      k < j -> splitChar NL (take position markdown) !! j = Some line' ->
      headingMatch line' = None) ->
  findSectionForPosition markdown position = t.
Proof.
  intros Hk Hh Hlater. unfold findSectionForPosition.
  rewrite <- (take_drop_middle _ k line Hk) in *.
  rewrite rev_app_distr. cbn [rev]. rewrite <- app_assoc. cbn [app].
  rewrite omap_app, omap_none.
  - cbn [app omap list_omap]. rewrite Hh. reflexivity.
  - intros x Hx. rewrite fmap_None. apply in_rev in Hx.
    apply list_elem_of_In, list_elem_of_lookup in Hx as [i Hi].
    apply (Hlater (S k + i) x); [lia|].
    rewrite lookup_app_r by (rewrite length_take; apply lookup_lt_Some in Hk; lia).
    rewrite length_take.
    apply lookup_lt_Some in Hk as Hlt.
    replace (S k + i - Nat.min k (length (splitChar NL (take position markdown))))
      with (S i) by lia.
    cbn [lookup list_lookup]. exact Hi.
Qed.

End AttributionMore.

Lemma findSectionForPosition_nearest_witness :
  findSectionForPosition twoSections 27 = js "Two".
Proof.
  apply (findSectionForPosition_nearest twoSections 27 2 (js "# Two") 1 (js "Two"));
    [reflexivity | reflexivity |].
  intros [|[|[|[|j]]]] line' Hj Hl; try lia; vm_compute in Hl;
    [injection Hl as <-; reflexivity | discriminate].
Defined.

(** ** Trimming and lines *)

Section TrimFacts.

Lemma dropWhile_app_keep {A} (p : A -> bool) (l : list A) (x : A) (r : list A) :
  p x = false -> dropWhile p (l ++ x :: r) = dropWhile p l ++ x :: r.
Proof.
  intros Hx. induction l as [|y l IH]; cbn [app dropWhile].
  - now rewrite Hx.
  - destruct (p y); [exact IH | reflexivity].
Qed.

Lemma dropWhile_suffix {A} (p : A -> bool) (l : list A) :
  exists w, l = w ++ dropWhile p l /\ forallb p w = true.
Proof.
  induction l as [|x l (w & IH & Hw)]; [now exists []|]. cbn [dropWhile].
  destruct (p x) eqn:E.
  - exists (x :: w). cbn [app forallb]. rewrite E, Hw. split; [now f_equal | reflexivity].
  - now exists [].
Qed.

Lemma dropWhile_head {A} (p : A -> bool) (l : list A) (x : A) (r : list A) :
  dropWhile p l = x :: r -> p x = false.
Proof.
  induction l as [|y l IH]; cbn [dropWhile]; [discriminate|].
  destruct (p y) eqn:E; [exact IH|]. intros H. injection H as <- _. exact E.
Qed.

(** Trimming does not touch what lies between two characters that are
    not white space. *)
Lemma trim_middle (before after front tail : jsstring) (a z : N) :
  a :: tail = front ++ [z] ->
  isWhiteSpace a = false -> isWhiteSpace z = false ->
  trim (before ++ (a :: tail) ++ after)
  = dropWhile isWhiteSpace before ++ (a :: tail)
    ++ rev (dropWhile isWhiteSpace (rev after)).
Proof.
  intros Hh Ha Hz. unfold trim. cbn [app].
  rewrite dropWhile_app_keep by exact Ha.
  change (a :: tail ++ after) with ((a :: tail) ++ after). rewrite Hh.
  rewrite !rev_app_distr. cbn [rev app]. rewrite <- !app_assoc. cbn [app].
  rewrite dropWhile_app_keep by exact Hz.
  rewrite rev_app_distr. cbn [rev]. rewrite rev_app_distr, !rev_involutive.
  rewrite <- !app_assoc. cbn [app].
  change (a :: tail ++ rev (dropWhile isWhiteSpace (rev after)))
    with ((a :: tail) ++ rev (dropWhile isWhiteSpace (rev after))).
  rewrite Hh, <- app_assoc. reflexivity.
Qed.

(** A text that is not blank is its trimmed text between white space,
    and the trimmed text starts and ends with characters that are not
    white space. *)
Lemma trim_decompose (s : jsstring) :
  trim s <> [] ->
  exists w1 w2 a tail front z,
    s = w1 ++ trim s ++ w2
    /\ trim s = a :: tail /\ trim s = front ++ [z]
    /\ isWhiteSpace a = false /\ isWhiteSpace z = false.
Proof.
  intros Hne. unfold trim in *.
  destruct (dropWhile_suffix isWhiteSpace s) as (w1 & Hs & _).
  set (d := dropWhile isWhiteSpace s) in *.
  destruct (dropWhile_suffix isWhiteSpace (rev d)) as (w2 & Hd & _).
  set (e := dropWhile isWhiteSpace (rev d)) in *.
  assert (Hdd : d = rev e ++ rev w2).
  { rewrite <- rev_app_distr, <- Hd. now rewrite rev_involutive. }
  destruct e as [|z e'] eqn:Ee; [now cbn in Hne|].
  pose proof (dropWhile_head isWhiteSpace (rev d) z e' Ee) as Hz.
  destruct (rev (z :: e')) as [|a tail] eqn:Er; [congruence|].
  assert (Ha : isWhiteSpace a = false).
  { destruct d as [|a' d'] eqn:Ed.
    - cbn in Hdd. destruct (rev w2); discriminate.
    - cbn [app] in Hdd. injection Hdd as -> _.
      exact (dropWhile_head isWhiteSpace s a d' Ed). }
  exists w1, (rev w2), a, tail, (rev e'), z.
  split; [rewrite Hs at 1; now rewrite Hdd|].
  split; [reflexivity|]. split; [rewrite <- Er; reflexivity|]. auto.
Qed.

(** A line between line feeds is a line of the text. *)
Lemma line_in_text (before after line : jsstring) :
  ~ In NL line ->
  (before = [] \/ exists b, before = b ++ [NL]) ->
  (after = [] \/ exists r, after = NL :: r) ->
  In line (splitChar NL (before ++ line ++ after)).
Proof.
  intros Hnl Hb Ha.
  assert (H1 : In line (splitChar NL (line ++ after))).
  { destruct Ha as [->|[r ->]].
    - rewrite app_nil_r, splitChar_line by exact Hnl. now left.
    - rewrite splitChar_app, splitChar_line by exact Hnl. now left. }
  destruct Hb as [->|[b ->]]; [exact H1|].
  rewrite <- app_assoc. cbn [app]. rewrite splitChar_app.
  apply in_or_app. now right.
Qed.

Lemma dropWhile_ends (l : jsstring) :
  (l = [] \/ exists b, l = b ++ [NL]) ->
  dropWhile isWhiteSpace l = [] \/ exists b, dropWhile isWhiteSpace l = b ++ [NL].
Proof.
  intros [->|[b ->]]; [now left|].
  induction b as [|x b IH]; cbn [app dropWhile].
  - left. reflexivity.
  - destruct (isWhiteSpace x); [exact IH | right; now exists (x :: b)].
Qed.

Lemma rev_dropWhile_starts (l : jsstring) :
  (l = [] \/ exists r, l = NL :: r) ->
  rev (dropWhile isWhiteSpace (rev l)) = []
  \/ exists r, rev (dropWhile isWhiteSpace (rev l)) = NL :: r.
Proof.
  intros [->|[r ->]]; [now left|].
  cbn [rev].
  destruct (dropWhile_ends (rev r ++ [NL])) as [H|[b H]]; [right; now eexists | |].
  - rewrite H. now left.
  - rewrite H.
    assert (Hsuf : exists w, rev r ++ [NL] = w ++ b ++ [NL]).
    { destruct (dropWhile_suffix isWhiteSpace (rev r ++ [NL])) as (w & Hw & _).
      rewrite H in Hw. now exists w. }
    destruct Hsuf as [w Hw].
    apply (f_equal (@rev N)) in Hw. rewrite !rev_app_distr in Hw.
    cbn [rev app] in Hw. rewrite rev_involutive in Hw.
    rewrite rev_app_distr. cbn [rev app]. right. now eexists.
Qed.

(** A line that starts and ends with characters that are not white
    space is still a line of the text after trimming. *)
Lemma line_in_trimmed (before after front tail : jsstring) (a z : N) :
  a :: tail = front ++ [z] ->
  isWhiteSpace a = false -> isWhiteSpace z = false ->
  ~ In NL (a :: tail) ->
  (before = [] \/ exists b, before = b ++ [NL]) ->
  (after = [] \/ exists r, after = NL :: r) ->
  In (a :: tail) (splitChar NL (trim (before ++ (a :: tail) ++ after))).
Proof.
  intros Hh Ha Hz Hnl Hb Haf.
  rewrite (trim_middle before after front tail a z Hh Ha Hz).
  apply line_in_text; [exact Hnl | now apply dropWhile_ends | now apply rev_dropWhile_starts].
Qed.

End TrimFacts.

(** ** Markdown synthesizer: what the body holds *)

Section SynthesizerMore.

Lemma join_in (sep x : jsstring) (l : list jsstring) :
  In x l -> exists a b, join sep l = a ++ x ++ b.
Proof.
  induction l as [|y l IH]; intros Hin; [destruct Hin|].
  destruct l as [|y' l'].
  - destruct Hin as [->|[]]. exists [], []. cbn. now rewrite app_nil_r.
  - rewrite join_cons by discriminate. destruct Hin as [->|Hin].
    + exists [], (sep ++ join sep (y' :: l')). reflexivity.
    + destruct (IH Hin) as (a & b & ->). exists (y ++ sep ++ a), b.
      now rewrite <- !app_assoc.
Qed.

Lemma truthy_not_nil (s : jsstring) : truthy s = true <-> s <> [].
Proof. destruct s; cbn; split; congruence. Qed.

(** X14: no page is dropped.  Whatever the outline, the text of every
    page that is not blank, trimmed, is part of the body. *)
Theorem convertToMarkdown_keeps_page (pages : list jsstring)
    (outline : option (list OutlineItem)) (p : Z) (text : jsstring) :
  pageAt pages p = Some text ->
  trim text <> [] ->
  exists before after,
    convertToMarkdown pages outline = before ++ trim text ++ after.
Proof.
  intros Hp Hne.
  destruct (trim_decompose text Hne) as (w1 & w2 & a & tail & front & z & Ht & Ha & Hz & Hwa & Hwz).
  assert (Hplain : exists before after, join NL2 pages = before ++ trim text ++ after).
  { assert (Hin : In text pages).
    { unfold pageAt in Hp. destruct (p - 1 <? 0)%Z; [discriminate|].
      apply list_elem_of_In. eapply list_elem_of_lookup_2, Hp. }
    destruct (join_in NL2 text pages Hin) as (x & y & ->).
    exists (x ++ w1), (w2 ++ y). rewrite Ht at 1. now rewrite <- !app_assoc. }
  destruct outline as [[|item rest]|]; [exact Hplain | | exact Hplain].
  rewrite convertToMarkdown_pieces by discriminate.
  assert (Hin : In (PPage p) (bodyPieces pages (item :: rest))).
  { apply bodyPieces_covers.
    - unfold pageAt in Hp. destruct (p - 1 <? 0)%Z eqn:E; [discriminate|].
      apply Z.ltb_ge in E. apply lookup_lt_Some in Hp. lia.
    - unfold nonBlankPage. rewrite Hp. now apply truthy_not_nil. }
  apply in_split in Hin as (l1 & l2 & ->).
  rewrite render_app. change (PPage p :: l2) with ([PPage p] ++ l2).
  rewrite render_app. unfold render at 2. cbn [flat_map renderPiece].
  rewrite Hp. change (default [] (Some text)) with text. rewrite app_nil_r.
  set (core := trim text) in *. clearbody core. subst text core.
  replace (render pages l1 ++ ((w1 ++ (a :: tail) ++ w2) ++ NL2) ++ render pages l2)
    with ((render pages l1 ++ w1) ++ (a :: tail) ++ (w2 ++ NL2 ++ render pages l2))
    by (now rewrite <- !app_assoc).
  rewrite (trim_middle _ _ front tail a z); [| congruence | exact Hwa | exact Hwz].
  now eexists _, _.
Qed.

Lemma convertToMarkdown_keeps_page_witness :
  exists before after,
    convertToMarkdown [js "P1"; js " P2 "; js "P3"; js "P4"] (Some nested)
    = before ++ trim (js " P2 ") ++ after.
Proof.
  apply (convertToMarkdown_keeps_page [js "P1"; js " P2 "; js "P3"; js "P4"]
           (Some nested) 2 (js " P2 ")); [reflexivity | vm_compute; discriminate].
Defined.

Lemma takeWhile_repeat (n : nat) (c : N) (r : jsstring) :
  c <> HASH ->
  takeWhile (N.eqb HASH) (repeat HASH n ++ c :: r) = repeat HASH n
  /\ dropWhile (N.eqb HASH) (repeat HASH n ++ c :: r) = c :: r.
Proof.
  intros Hc. induction n as [|n [IH1 IH2]]; cbn [repeat app takeWhile dropWhile].
  - replace (HASH =? c)%N with false by (symmetry; apply N.eqb_neq; congruence).
    now split.
  - rewrite N.eqb_refl. now rewrite IH1, IH2.
Qed.

(** X15: the heading line written for a section is read back as a
    heading of its level plus 1 and its title, when the title has no
    line terminator and does not start with white space. *)
Theorem headingMatch_written (l : nat) (t : jsstring) :
  cleanTitle t ->
  headingMatch (hashes (l + 1) ++ js " " ++ t) = Some (l + 1, t).
Proof.
  intros (Hlt & (a & rest & -> & Ha) & _).
  unfold headingMatch, hashes. change (js " " ++ a :: rest) with (32%N :: a :: rest).
  destruct (takeWhile_repeat (l + 1) 32%N (a :: rest)) as [-> ->]; [discriminate|].
  rewrite repeat_length. cbn [takeWhile dropWhile].
  change (isWhiteSpace 32) with true. cbn iota. rewrite Ha. cbn iota.
  rewrite Hlt. replace (l + 1) with (S l) by lia. reflexivity.
Qed.

Lemma headingMatch_written_witness :
  headingMatch (hashes (1 + 1) ++ js " " ++ js "1.2 Scope") = Some (1 + 1, js "1.2 Scope").
Proof.
  apply (headingMatch_written 1 (js "1.2 Scope")).
  split; [reflexivity|]. split.
  - exists 49%N, (js ".2 Scope"). split; reflexivity.
  - exists (js "1.2 Scop"), 101%N. split; reflexivity.
Defined.

End SynthesizerMore.

Section SynthesizerOrder.

Lemma insertSection_Forall (P : FlatSection -> Prop) (s : FlatSection)
    (l : list FlatSection) :
  P s -> Forall P l -> Forall P (insertSection s l).
Proof.
  intros Hs Hl. induction Hl as [|x r Hx Hr IH]; cbn [insertSection].
  - now repeat constructor.
  - destruct (startPage s <=? startPage x)%Z; repeat constructor; auto.
Qed.

Lemma insertSection_perm (s : FlatSection) (l : list FlatSection) :
  Permutation (insertSection s l) (s :: l).
Proof.
  induction l as [|x r IH]; cbn [insertSection]; [reflexivity|].
  destruct (startPage s <=? startPage x)%Z; [reflexivity|].
  rewrite IH. apply perm_swap.
Qed.

Lemma insertSection_sorted (s : FlatSection) (l : list FlatSection) :
  StronglySorted startsLe l -> StronglySorted startsLe (insertSection s l).
Proof.
  induction l as [|x r IH]; intros Hl; cbn [insertSection].
  - repeat constructor.
  - apply StronglySorted_inv in Hl as [Hr Hx].
    destruct (startPage s <=? startPage x)%Z eqn:E.
    + apply Z.leb_le in E. constructor; [now constructor|].
      constructor; [exact E|].
      eapply Forall_impl; [exact Hx|]. unfold startsLe. cbn. intros y Hy. lia.
    + apply Z.leb_gt in E. constructor; [now apply IH|].
      apply insertSection_Forall; [unfold startsLe; lia | exact Hx].
Qed.

Lemma sortSections_perm (l : list FlatSection) : Permutation (sortSections l) l.
Proof.
  induction l as [|x r IH]; [reflexivity|]. cbn [sortSections foldr].
  fold (sortSections r). rewrite insertSection_perm. now constructor.
Qed.

Lemma sortSections_sorted (l : list FlatSection) :
  StronglySorted startsLe (sortSections l).
Proof.
  induction l as [|x r IH]; [constructor|]. cbn [sortSections foldr].
  now apply insertSection_sorted.
Qed.

Lemma sortSections_id (l : list FlatSection) :
  StronglySorted startsLe l -> sortSections l = l.
Proof.
  induction l as [|x r IH]; intros Hl; [reflexivity|].
  apply StronglySorted_inv in Hl as [Hr Hx].
  cbn [sortSections foldr]. fold (sortSections r). rewrite IH by exact Hr.
  destruct r as [|y r']; [reflexivity|]. cbn [insertSection].
  apply Forall_cons in Hx as [Hxy _]. unfold startsLe in Hxy.
  now replace (startPage x <=? startPage y)%Z with true by (symmetry; apply Z.leb_le; lia).
Qed.

Lemma headingsOf_app (a b : list Piece) :
  headingsOf (a ++ b) = headingsOf a ++ headingsOf b.
Proof. apply omap_app. Qed.

Lemma pagesOf_app (a b : list Piece) : pagesOf (a ++ b) = pagesOf a ++ pagesOf b.
Proof. apply omap_app. Qed.

Lemma headingsOf_pagePieces (pages : list jsstring) (lo hi : Z) :
  headingsOf (pagePieces pages lo hi) = [].
Proof.
  unfold pagePieces. induction (List.filter _ _) as [|x r IH]; [reflexivity | exact IH].
Qed.

Lemma pagesOf_pagePieces (pages : list jsstring) (lo hi : Z) :
  pagesOf (pagePieces pages lo hi) = List.filter (nonBlankPage pages) (rangeZ lo hi).
Proof.
  unfold pagePieces. induction (List.filter _ _) as [|x r IH]; [reflexivity|].
  cbn [map]. unfold pagesOf in *. cbn [omap list_omap]. now rewrite IH.
Qed.

Lemma headingsOf_fold (pages : list jsstring) (sections : list FlatSection) :
  forall acc last,
    headingsOf (fst (fold_left (sectionPieces pages) sections (acc, last)))
    = headingsOf acc ++ map (fun s => (fs_level s, fs_title s)) sections.
Proof.
  induction sections as [|s rest IH]; intros acc last; cbn [fold_left map].
  - cbn [fst]. now rewrite app_nil_r.
  - unfold sectionPieces at 2. cbn [fst snd]. rewrite IH.
    rewrite !headingsOf_app, headingsOf_pagePieces.
    destruct (last + 1 <? startPage s)%Z;
      [rewrite headingsOf_pagePieces|];
      cbn [headingsOf omap list_omap app]; rewrite ?app_nil_r, <- ?app_assoc; reflexivity.
Qed.

End SynthesizerOrder.

Section SynthesizerOnce.

Lemma map_seq_shift (f : nat -> Z) (n m : nat) :
  map f (seq n m) = map (fun i => f (n + i)) (seq 0 m).
Proof.
  revert f n. induction m as [|m IH]; intros f n; [reflexivity|].
  cbn [seq map]. rewrite Nat.add_0_r. f_equal.
  rewrite (IH f (S n)), (IH (fun i => f (n + i)) 1).
  apply map_ext. intros i. f_equal. lia.
Qed.

Lemma rangeZ_app (a b c : Z) :
  (a <= b + 1)%Z -> (b <= c)%Z -> rangeZ a b ++ rangeZ (b + 1) c = rangeZ a c.
Proof.
  intros Hab Hbc. unfold rangeZ.
  replace (Z.to_nat (c - a + 1)) with (Z.to_nat (b - a + 1) + Z.to_nat (c - (b + 1) + 1))
    by lia.
  rewrite seq_app, map_app. f_equal. cbn [Nat.add].
  rewrite (map_seq_shift _ (Z.to_nat (b - a + 1))). apply map_ext. intros i. lia.
Qed.

Lemma rangeZ_split (a p c : Z) :
  (a <= p)%Z -> (p <= c + 1)%Z -> rangeZ a (p - 1) ++ rangeZ p c = rangeZ a c.
Proof.
  intros Hap Hpc. rewrite <- (rangeZ_app a (p - 1) c) by lia.
  now replace (p - 1 + 1)%Z with p by lia.
Qed.

Lemma ascending_raise (lo lo' : Z) (nPages : nat) (item : OutlineItem)
    (rest : list OutlineItem) (p : Z) :
  ascending lo nPages (item :: rest) -> page item = Some p -> (lo' <= p)%Z ->
  ascending lo' nPages (item :: rest).
Proof.
  cbn [ascending]. intros (Hc & q & Hq & Hb & Hr) Hp Hlo.
  split; [exact Hc|]. exists q. rewrite Hp in Hq. injection Hq as <-.
  split; [exact Hp|]. split; [lia | exact Hr].
Qed.

(** The sections of an ascending outline tile the document: each ends
    where the next starts, and the last at the last page. *)
Lemma ascending_fold (pages : list jsstring) :
  forall items lo acc last,
    items <> [] -> ascending lo (length pages) items ->
    (0 <= last)%Z -> (last + 1 <= lo)%Z ->
    pagesOf (fst (fold_left (sectionPieces pages)
                    (flattenOutline (length pages) items) (acc, last)))
    = pagesOf acc ++ List.filter (nonBlankPage pages)
                       (rangeZ (last + 1) (Z.of_nat (length pages)))
    /\ snd (fold_left (sectionPieces pages)
              (flattenOutline (length pages) items) (acc, last))
       = Z.of_nat (length pages).
Proof.
  induction items as [|item rest IH]; intros lo acc last Hne Hasc H0 Hlo; [congruence|].
  destruct Hasc as (Hc & p & Hp & Hb & Hrest).
  assert (Hone : forall nextItem,
            flattenItem (length pages) item nextItem
            = [ {| fs_title := title item; fs_level := level item; startPage := p;
                   endPage := match nextItem ≫= (fun n => truthyPage (page n)) with
                              | Some q => (q - 1)%Z
                              | None => Z.of_nat (length pages)
                              end |} ]).
  { intros nextItem. destruct item as [t pg l ch]. cbn [children page] in Hc, Hp.
    subst ch pg. cbn [flattenItem page title level children truthyPage].
    replace (p =? 0)%Z with false by (symmetry; apply Z.eqb_neq; lia).
    now rewrite app_nil_r. }
  cbn [flattenOutline]. rewrite Hone. cbn [app fold_left].
  unfold sectionPieces at 2 4. cbn [fst snd startPage endPage fs_level fs_title].
  assert (Hgap : pagesOf
                   (if (last + 1 <? p)%Z then pagePieces pages (last + 1) (p - 1) else [])
                 = List.filter (nonBlankPage pages) (rangeZ (last + 1) (p - 1))).
  { destruct (last + 1 <? p)%Z eqn:E; [apply pagesOf_pagePieces|].
    apply Z.ltb_ge in E. unfold rangeZ.
    replace (Z.to_nat (p - 1 - (last + 1) + 1)) with 0 by lia. reflexivity. }
  destruct rest as [|item' rest'].
  - cbn [head mbind option_bind flattenOutline fold_left fst snd].
    split; [|reflexivity].
    rewrite !pagesOf_app, Hgap, pagesOf_pagePieces. cbn [pagesOf omap list_omap app].
    rewrite <- List.filter_app, rangeZ_split by lia. reflexivity.
  - pose proof Hrest as Hrest'.
    destruct Hrest' as (Hc' & p' & Hp' & Hb' & _).
    cbn [head mbind option_bind]. rewrite Hp'. cbn [truthyPage].
    replace (p' =? 0)%Z with false by (symmetry; apply Z.eqb_neq; lia).
    destruct (IH p'
                (acc ++ (if (last + 1 <? p)%Z then pagePieces pages (last + 1) (p - 1) else [])
                     ++ [PHeading (level item) (title item)]
                     ++ pagePieces pages p (p' - 1))
                (p' - 1)%Z) as [H1 H2];
      [discriminate | now apply (ascending_raise (p + 1) p' _ _ _ p') | lia | lia |].
    split; [|exact H2]. rewrite H1.
    rewrite !pagesOf_app, Hgap, pagesOf_pagePieces. cbn [pagesOf omap list_omap app].
    rewrite <- !app_assoc, <- !List.filter_app. f_equal. f_equal.
    replace (p' - 1 + 1)%Z with p' by lia.
    rewrite (rangeZ_split p p' (Z.of_nat (length pages))) by lia.
    now rewrite rangeZ_split by lia.
Qed.

Lemma ascending_sorted (nPages : nat) :
  forall items lo,
    (1 <= lo)%Z -> ascending lo nPages items ->
    StronglySorted startsLe (flattenOutline nPages items)
    /\ Forall (fun s => (lo <= startPage s)%Z) (flattenOutline nPages items).
Proof.
  induction items as [|item rest IH]; intros lo Hlo Hasc; [split; constructor|].
  destruct Hasc as (Hc & p & Hp & Hb & Hrest).
  cbn [flattenOutline]. destruct item as [t pg l ch]. cbn [children page] in Hc, Hp.
  subst ch pg. cbn [flattenItem page title level children truthyPage].
  replace (p =? 0)%Z with false by (symmetry; apply Z.eqb_neq; lia).
  rewrite app_nil_r. cbn [app].
  destruct (IH (p + 1)%Z) as [H1 H2]; [lia | exact Hrest|].
  split.
  - constructor; [exact H1|].
    eapply Forall_impl; [exact H2|]. unfold startsLe. cbn. intros s Hs. lia.
  - constructor; [cbn; lia|].
    eapply Forall_impl; [exact H2|]. cbn. intros s Hs. lia.
Qed.

(** X17: with an outline of one level whose entries point to pages in
    ascending order within the document, every page that is not blank is
    in the body exactly once, and the pages are in their order. *)
Theorem convertToMarkdown_once (pages : list jsstring) (items : list OutlineItem) :
  items <> [] ->
  ascending 1 (length pages) items ->
  convertToMarkdown pages (Some items) = trim (render pages (bodyPieces pages items))
  /\ pagesOf (bodyPieces pages items)
     = List.filter (nonBlankPage pages) (rangeZ 1 (Z.of_nat (length pages))).
Proof.
  intros Hne Hasc. split; [now apply convertToMarkdown_pieces|].
  unfold bodyPieces.
  destruct (ascending_sorted (length pages) items 1) as [Hsorted _]; [lia | exact Hasc|].
  rewrite (sortSections_id _ Hsorted).
  destruct (ascending_fold pages items 1 [] 0 Hne Hasc) as [H1 H2]; [lia | lia|].
  rewrite H2, Z.ltb_irrefl, app_nil_r. exact H1.
Qed.

Lemma convertToMarkdown_once_witness :
  convertToMarkdown [js "Intro"; js "Ch1 body"; js "Ch2 body"] (Some chapters)
  = trim (render [js "Intro"; js "Ch1 body"; js "Ch2 body"]
            (bodyPieces [js "Intro"; js "Ch1 body"; js "Ch2 body"] chapters))
  /\ pagesOf (bodyPieces [js "Intro"; js "Ch1 body"; js "Ch2 body"] chapters)
     = List.filter (nonBlankPage [js "Intro"; js "Ch1 body"; js "Ch2 body"])
         (rangeZ 1 (Z.of_nat (length [js "Intro"; js "Ch1 body"; js "Ch2 body"]))).
Proof.
  apply (convertToMarkdown_once [js "Intro"; js "Ch1 body"; js "Ch2 body"] chapters);
    [discriminate|].
  cbn. split; [reflexivity|]. exists 2%Z. split; [reflexivity|]. split; [lia|].
  split; [reflexivity|]. exists 3%Z. split; [reflexivity|]. split; [lia | exact I].
Defined.

End SynthesizerOnce.

(** ** From loading to section lookup *)

Section LoadThenSection.
Context {rt : Runtime}.

Lemma isPrefix_refl (s : jsstring) : isPrefix s s = true.
Proof. induction s as [|c s IH]; [reflexivity|]. cbn [isPrefix]. now rewrite N.eqb_refl. Qed.

Lemma includes_refl (s : jsstring) : includes s s = true.
Proof.
  unfold includes, indexOf. rewrite Nat.min_0_l, drop_0.
  pose proof (isPrefix_refl s) as H.
  destruct s as [|c s]; [reflexivity|].
  unfold indexOfFrom; fold indexOfFrom. now rewrite H.
Qed.

Lemma titleMatches_self (t : jsstring) : titleMatches (trim (toLowerCase t)) t = true.
Proof. unfold titleMatches. now rewrite includes_refl. Qed.

(** What is rendered ends every piece with a blank line. *)
Lemma render_ends (pages : list jsstring) (pieces : list Piece) :
  render pages pieces = [] \/ exists b, render pages pieces = b ++ [NL].
Proof.
  induction pieces as [|piece rest IH] using rev_ind; [now left|]. right.
  rewrite render_app. unfold render at 2. cbn [flat_map]. rewrite app_nil_r.
  destruct piece as [l t|p]; cbn [renderPiece].
  - exists (render pages rest ++ hashes (l + 1) ++ js " " ++ t ++ [NL]).
    rewrite <- !app_assoc. reflexivity.
  - exists (render pages rest ++ default [] (pageAt pages p) ++ [NL]).
    rewrite <- !app_assoc. reflexivity.
Qed.

Lemma bodyPieces_headings (pages : list jsstring) (items : list OutlineItem) :
  headingsOf (bodyPieces pages items)
  = map (fun s => (fs_level s, fs_title s))
        (sortSections (flattenOutline (length pages) items)).
Proof.
  unfold bodyPieces. rewrite headingsOf_app, headingsOf_fold.
  cbn [headingsOf omap list_omap app].
  destruct (_ <? _)%Z; [rewrite headingsOf_pagePieces|]; now rewrite app_nil_r.
Qed.

Lemma in_headingsOf (l : nat) (t : jsstring) (pieces : list Piece) :
  In (l, t) (headingsOf pieces) -> In (PHeading l t) pieces.
Proof.
  induction pieces as [|piece rest IH]; [intros []|].
  unfold headingsOf. cbn [omap list_omap].
  destruct piece as [l' t'|p]; [|intros H; right; now apply IH].
  intros [H|H]; [left; congruence | right; now apply IH].
Qed.

(** The heading of every outline node with a resolved page is among the
    pieces of the body. *)
Lemma bodyPieces_heading (pages : list jsstring) (items : list OutlineItem)
    (t : jsstring) (l : nat) (p : Z) :
  In (t, l, p) (flat_map resolvedNodes items) ->
  In (PHeading l t) (bodyPieces pages items).
Proof.
  intros Hin. apply in_headingsOf. rewrite bodyPieces_headings.
  rewrite <- (flattenOutline_heads (length pages)) in Hin.
  apply in_map_iff in Hin as (s & Hs & Hin). injection Hs as <- <- <-.
  apply in_map_iff. exists s. split; [reflexivity|].
  eapply Permutation_in; [symmetry; apply sortSections_perm | exact Hin].
Qed.

(** The heading line of a clean title is a line of the trimmed
    rendering. *)
Lemma heading_line_in_body (pages : list jsstring) (pieces : list Piece)
    (l : nat) (t : jsstring) :
  cleanTitle t ->
  In (PHeading l t) pieces ->
  In (hashes (l + 1) ++ js " " ++ t) (splitChar NL (trim (render pages pieces))).
Proof.
  intros (Hlt & _ & (front & z & -> & Hz)) Hin.
  apply in_split in Hin as (l1 & l2 & ->).
  rewrite render_app. change (PHeading l (front ++ [z]) :: l2)
    with ([PHeading l (front ++ [z])] ++ l2).
  rewrite render_app. unfold render at 2. cbn [flat_map renderPiece]. rewrite app_nil_r.
  replace (render pages l1 ++ (hashes (l + 1) ++ js " " ++ (front ++ [z]) ++ NL2)
             ++ render pages l2)
    with (render pages l1 ++ (hashes (l + 1) ++ js " " ++ front ++ [z])
            ++ (NL2 ++ render pages l2))
    by (now rewrite <- !app_assoc).
  unfold hashes. replace (l + 1) with (S l) by lia. cbn [repeat app].
  apply (line_in_trimmed _ _ (HASH :: repeat HASH l ++ js " " ++ front) _ HASH z).
  - cbn [app]. f_equal. now rewrite <- !app_assoc.
  - reflexivity.
  - exact Hz.
  - intros [H|H]; [discriminate|].
    apply in_app_or in H as [H|H]; [apply repeat_spec in H; discriminate|].
    change (js " " ++ front ++ [z]) with (32%N :: (front ++ [z])) in H.
    destruct H as [H|H]; [discriminate|].
    rewrite forallb_forall in Hlt. specialize (Hlt NL H). discriminate.
  - apply render_ends.
  - right. now eexists.
Qed.

(** X16: with an outline, the body is what the emission writes piece
    by piece, trimmed, and among the pieces there is one heading, of
    level plus 1 hashes, a space and the title, for every outline node
    with a resolved target page, nested or not; the headings come in
    ascending order of the start pages of their sections; and the
    heading of a node with a clean title is a line of the body. *)
Theorem convertToMarkdown_headings (pages : list jsstring) (items : list OutlineItem) :
  items <> [] ->
  convertToMarkdown pages (Some items) = trim (render pages (bodyPieces pages items))
  /\ (exists sections,
        headingsOf (bodyPieces pages items)
        = map (fun s => (fs_level s, fs_title s)) sections
        /\ StronglySorted startsLe sections
        /\ Permutation (map sectionHead sections) (flat_map resolvedNodes items))
  /\ (forall t l p,
        In (t, l, p) (flat_map resolvedNodes items) -> cleanTitle t ->
        In (hashes (l + 1) ++ js " " ++ t)
           (splitChar NL (convertToMarkdown pages (Some items)))).
Proof.
  intros Hne. split; [now apply convertToMarkdown_pieces|]. split.
  - exists (sortSections (flattenOutline (length pages) items)).
    split; [apply bodyPieces_headings|]. split; [apply sortSections_sorted|].
    rewrite <- flattenOutline_heads with (nPages := length pages).
    apply Permutation_map, sortSections_perm.
  - intros t l p Hin Hclean. rewrite (convertToMarkdown_pieces _ _ Hne).
    apply heading_line_in_body; [exact Hclean|]. eapply bodyPieces_heading, Hin.
Qed.

Lemma heading_line_read (l : nat) (t : jsstring) :
  cleanTitle t ->
  headingMatch (hashes (l + 1) ++ js " " ++ t) = Some (l + 1, t).
Proof.
  intros (Hlt & (a & rest & -> & Ha) & _).
  unfold headingMatch, hashes. change (js " " ++ a :: rest) with (32%N :: a :: rest).
  destruct (takeWhile_repeat (l + 1) 32%N (a :: rest)) as [-> ->]; [discriminate|].
  rewrite repeat_length. cbn [takeWhile dropWhile].
  change (isWhiteSpace 32) with true. cbn iota. rewrite Ha. cbn iota.
  rewrite Hlt. replace (l + 1) with (S l) by lia. reflexivity.
Qed.

(** When a heading line of the body matches the query, the lookup
    returns page 1 and fails at most with the page range error. *)
Lemma extractSection_found (loadedPDFs : gmap jsstring LoadedPDF)
    (pdfId sectionTitle : jsstring) (pdf : LoadedPDF) (charsPerPage : Z)
    (line : jsstring) (lvl : nat) (raw : jsstring) :
  loadedPDFs !! pdfId = Some pdf ->
  In line (splitChar NL (markdown pdf)) ->
  headingMatch line = Some (lvl, raw) ->
  titleMatches (trim (toLowerCase sectionTitle)) raw = true ->
  (exists sp, extractSection loadedPDFs pdfId sectionTitle 1 charsPerPage = inr sp)
  /\ forall page e,
       extractSection loadedPDFs pdfId sectionTitle page charsPerPage = inl e ->
       exists total, e = PageOutOfRange total.
Proof.
  intros Hpdf Hline Hm Ht. unfold extractSection. rewrite Hpdf.
  pose proof (scanLines_first (trim (toLowerCase sectionTitle))
                (splitChar NL (markdown pdf)) 0
                (scanStart (splitChar NL (markdown pdf))) eq_refl) as H.
  pose proof (scanLines_section (trim (toLowerCase sectionTitle))
                (splitChar NL (markdown pdf)) 0
                (scanStart (splitChar NL (markdown pdf))) eq_refl eq_refl) as Hsec.
  cbv zeta in H, Hsec. unfold scanStart in H, Hsec.
  set (st := scanLines _ _ 0 _) in *.
  destruct (sectionStart st) as [start|];
    [|rewrite (H line lvl raw Hline Hm) in Ht; discriminate].
  destruct H as (k & line' & lvl' & raw' & Hk & H1 & H2 & _).
  cbn [Nat.add] in Hk. subst k.
  destruct (Hsec start eq_refl) as ((_ & Hlt & _) & _).
  destruct (section_content_starts _ start (sectionEnd st) line' lvl' raw' H1 H2 Hlt)
    as [tail ->].
  pose proof (paginateContent_not_nil HASH tail charsPerPage) as Hne.
  destruct (paginateContent (HASH :: tail) charsPerPage) as [|pg pgs];
    [exfalso; apply Hne; [discriminate | reflexivity]|].
  cbn [length]. split.
  - replace (1 <? 1)%Z with false by reflexivity.
    replace (Z.of_nat (S (length pgs)) <? 1)%Z with false
      by (symmetry; apply Z.ltb_ge; lia).
    cbn [orb]. now eexists.
  - intros page e. destruct (_ || _)%bool; [|discriminate].
    intros He. injection He as <-. now eexists.
Qed.

(** X18: after a document is loaded, the title of every outline node
    with a resolved page finds a section: when the title is clean (not
    empty, no line terminator, no white space at its ends),
    [extractSection] with the identifier and the title returns page 1 of
    a section, and for any page it fails at most with the page range
    error. *)
Theorem loadPDF_section_found (loadedPDFs loadedPDFs1 : gmap jsstring LoadedPDF)
    (filePath pdfId : jsstring) (doc : Decoded) (n : nat)
    (items : list OutlineItem) (t : jsstring) (l : nat) (p : Z) (charsPerPage : Z) :
  loadPDF loadedPDFs filePath (Some doc) = inr (loadedPDFs1, (pdfId, n)) ->
  d_outline doc = Some items ->
  In (t, l, p) (flat_map resolvedNodes items) ->
  cleanTitle t ->
  (exists sp, extractSection loadedPDFs1 pdfId t 1 charsPerPage = inr sp)
  /\ forall page e,
       extractSection loadedPDFs1 pdfId t page charsPerPage = inl e ->
       exists total, e = PageOutOfRange total.
Proof.
  intros Hload Hout Hin Hclean. unfold loadPDF in Hload.
  injection Hload as <- <- <-.
  assert (Hne : items <> []) by (intros ->; destruct Hin).
  eapply (extractSection_found _ _ _ _ _ (hashes (l + 1) ++ js " " ++ t) (l + 1) t).
  - apply lookup_insert_eq.
  - cbn [markdown]. rewrite Hout, (convertToMarkdown_pieces _ _ Hne).
    apply heading_line_in_body; [exact Hclean|]. eapply bodyPieces_heading, Hin.
  - now apply heading_line_read.
  - apply titleMatches_self.
Qed.

End LoadThenSection.

Lemma convertToMarkdown_headings_witness :
  convertToMarkdown [js "P1"; js "P2"; js "P3"; js "P4"] (Some nested)
  = trim (render [js "P1"; js "P2"; js "P3"; js "P4"]
            (bodyPieces [js "P1"; js "P2"; js "P3"; js "P4"] nested))
  /\ (exists sections,
        headingsOf (bodyPieces [js "P1"; js "P2"; js "P3"; js "P4"] nested)
        = map (fun s => (fs_level s, fs_title s)) sections
        /\ StronglySorted startsLe sections
        /\ Permutation (map sectionHead sections) (flat_map resolvedNodes nested))
  /\ (forall t l p,
        In (t, l, p) (flat_map resolvedNodes nested) -> cleanTitle t ->
        In (hashes (l + 1) ++ js " " ++ t)
           (splitChar NL (convertToMarkdown [js "P1"; js "P2"; js "P3"; js "P4"]
                            (Some nested)))).
Proof.
  apply (convertToMarkdown_headings [js "P1"; js "P2"; js "P3"; js "P4"] nested).
  discriminate.
Defined.

Lemma loadPDF_section_found_witness :
  (exists sp, extractSection (rt := Sample.runtime)
                (<[ js "report.pdf" :=
                      {| id := js "report.pdf"; path := js "/a/report.pdf"; pageCount := 3;
                         markdown := convertToMarkdown
                                       [js "Intro"; js "Ch1 body"; js "Ch2 body"]
                                       (Some chapters);
                         metadata := None; outline := Some chapters |} ]> ∅)
                (js "report.pdf") (js "Chapter 2") 1 4000 = inr sp)
  /\ forall page e,
       extractSection (rt := Sample.runtime)
         (<[ js "report.pdf" :=
               {| id := js "report.pdf"; path := js "/a/report.pdf"; pageCount := 3;
                  markdown := convertToMarkdown
                                [js "Intro"; js "Ch1 body"; js "Ch2 body"]
                                (Some chapters);
                  metadata := None; outline := Some chapters |} ]> ∅)
         (js "report.pdf") (js "Chapter 2") page 4000 = inl e ->
       exists total, e = PageOutOfRange total.
Proof.
  apply (loadPDF_section_found (rt := Sample.runtime) ∅ _ (js "/a/report.pdf")
           (js "report.pdf")
           {| d_pages := [js "Intro"; js "Ch1 body"; js "Ch2 body"];
              d_outline := Some chapters; d_metadata := None |}
           3 chapters (js "Chapter 2") 0 3 4000).
  - vm_compute. reflexivity.
  - reflexivity.
  - right. left. reflexivity.
  - split; [reflexivity|]. split.
    + exists 67%N, (js "hapter 2"). split; reflexivity.
    + exists (js "Chapter "), 50%N. split; reflexivity.
Defined.

(** ** Identifier assignment: which identifier is chosen *)

Section LoaderMore.
Context {rt : Runtime}.

Lemma candidate_one (sep : jsstring) (parts : list jsstring) :
  parts <> [] -> candidate sep parts 1 = List.last parts [].
Proof.
  intros Hne. destruct (exists_last Hne) as (front & x & ->).
  unfold candidate. rewrite last_last, length_app. cbn [length].
  replace (length front + 1 - 1) with (length front) by lia.
  now rewrite drop_app_length.
Qed.

Lemma candidate_all (sep : jsstring) (parts : list jsstring) :
  candidate sep parts (length parts) = join sep parts.
Proof. unfold candidate. now rewrite Nat.sub_diag. Qed.

(** The loop returns the first candidate that is not in use for another
    locator, and nothing when all are. *)
Lemma candidateLoop_first (E : gmap jsstring jsstring) (np sep : jsstring)
    (parts : list jsstring) :
  forall len a,
    match candidateLoop E np sep parts (seq a len) with
    | Some c =>
        exists i, a <= i < a + len /\ c = candidate sep parts i
                  /\ ~ takenByOther E np c
                  /\ forall j, a <= j < i -> takenByOther E np (candidate sep parts j)
    | None => forall j, a <= j < a + len -> takenByOther E np (candidate sep parts j)
    end.
Proof.
  induction len as [|len IH]; intros a; cbn [seq candidateLoop]; [intros j Hj; lia|].
  assert (Hfree : ~ takenByOther E np (candidate sep parts a) ->
            exists i, a <= i < a + S len /\ candidate sep parts a = candidate sep parts i
                      /\ ~ takenByOther E np (candidate sep parts a)
                      /\ forall j, a <= j < i -> takenByOther E np (candidate sep parts j)).
  { intros Hn. exists a. split; [lia|]. split; [reflexivity|]. split; [exact Hn|].
    intros j Hj. lia. }
  destruct (E !! candidate sep parts a) as [ep|] eqn:El.
  - destruct (truthy ep) eqn:Et; cbn [negb].
    + destruct (decide (ep = np)) as [Hep|Hep].
      * apply Hfree. intros (ep' & H1 & _ & H3). congruence.
      * assert (Htaken : takenByOther E np (candidate sep parts a)) by now exists ep.
        specialize (IH (S a)).
        destruct (candidateLoop E np sep parts (seq (S a) len)) as [c|].
        -- destruct IH as (i & Hi & Hc & Hn & Hbefore). exists i.
           split; [lia|]. split; [exact Hc|]. split; [exact Hn|].
           intros j Hj. destruct (decide (j = a)) as [->|Hja]; [exact Htaken|].
           apply Hbefore. lia.
        -- intros j Hj. destruct (decide (j = a)) as [->|Hja]; [exact Htaken|].
           apply IH. lia.
    + apply Hfree. intros (ep' & H1 & H2 & _). congruence.
  - apply Hfree. intros (ep' & H1 & _). congruence.
Qed.

(** X19: the identifier of a locator with segments is made of its last
    [i] segments, for the least [i] whose candidate is not in use for
    another locator; when every candidate is in use for another locator,
    it is the candidate of all the segments. *)
Theorem generateUniqueId_minimal (loadedPDFs : gmap jsstring LoadedPDF)
    (filePath : jsstring) :
  snd (locate filePath) <> [] ->
  exists i,
    1 <= i <= length (snd (locate filePath))
    /\ generateUniqueId loadedPDFs filePath
       = candidate (separatorOf filePath) (snd (locate filePath)) i
    /\ (forall j, 1 <= j < i ->
          takenByOther (existingPathsOf loadedPDFs) (fst (locate filePath))
            (candidate (separatorOf filePath) (snd (locate filePath)) j))
    /\ (takenByOther (existingPathsOf loadedPDFs) (fst (locate filePath))
          (generateUniqueId loadedPDFs filePath) ->
        i = length (snd (locate filePath))).
Proof.
  intros Hne. rewrite generateUniqueId_pickId.
  fold (separatorOf filePath). fold (existingPathsOf loadedPDFs).
  set (E := existingPathsOf loadedPDFs). set (np := fst (locate filePath)).
  set (sep := separatorOf filePath). set (parts := snd (locate filePath)) in *.
  assert (Hlen : 1 <= length parts) by (destruct parts; [congruence | cbn; lia]).
  unfold pickId. destruct (length parts =? 0) eqn:E0; [apply Nat.eqb_eq in E0; lia|].
  destruct (decide (E !! List.last parts [] = Some np)) as [HL|HL].
  - exists 1. split; [lia|]. split; [now rewrite candidate_one|].
    split; [intros j Hj; lia|].
    intros (ep & H1 & _ & H3). congruence.
  - pose proof (candidateLoop_first E np sep parts (length parts) 1) as H.
    destruct (candidateLoop E np sep parts (seq 1 (length parts))) as [c|].
    + destruct H as (i & Hi & -> & Hn & Hbefore). exists i.
      split; [lia|]. split; [reflexivity|]. split; [exact Hbefore|].
      intros Ht. contradiction.
    + exists (length parts). split; [lia|]. split; [now rewrite candidate_all|].
      split; [|reflexivity]. intros j Hj. apply H. lia.
Qed.

Lemma generateUniqueId_all_taken (loadedPDFs : gmap jsstring LoadedPDF)
    (filePath : jsstring) :
  snd (locate filePath) <> [] ->
  (forall j, 1 <= j <= length (snd (locate filePath)) ->
     takenByOther (existingPathsOf loadedPDFs) (fst (locate filePath))
       (candidate (separatorOf filePath) (snd (locate filePath)) j)) ->
  generateUniqueId loadedPDFs filePath
  = join (separatorOf filePath) (snd (locate filePath))
  /\ exists old,
       loadedPDFs !! join (separatorOf filePath) (snd (locate filePath)) = Some old
       /\ normalizedOf (path old) <> normalizedOf filePath.
Proof.
  intros Hne Hall. rewrite generateUniqueId_pickId.
  fold (separatorOf filePath). fold (existingPathsOf loadedPDFs).
  rewrite <- locate_normalized.
  set (E := existingPathsOf loadedPDFs) in *. set (np := fst (locate filePath)) in *.
  set (sep := separatorOf filePath) in *. set (parts := snd (locate filePath)) in *.
  assert (Hlen : 1 <= length parts) by (destruct parts; [congruence | cbn; lia]).
  split.
  - unfold pickId. destruct (length parts =? 0) eqn:E0; [apply Nat.eqb_eq in E0; lia|].
    destruct (decide (E !! List.last parts [] = Some np)) as [HL|HL].
    + destruct (Hall 1) as (ep & H1 & _ & H3); [lia|].
      rewrite candidate_one in H1 by exact Hne. congruence.
    + pose proof (candidateLoop_first E np sep parts (length parts) 1) as H.
      destruct (candidateLoop E np sep parts (seq 1 (length parts))) as [c|];
        [|reflexivity].
      destruct H as (i & Hi & -> & Hn & _). exfalso. apply Hn, Hall. lia.
  - destruct (Hall (length parts)) as (ep & H1 & _ & H3); [lia|].
    rewrite candidate_all in H1. unfold E, existingPathsOf in H1.
    rewrite lookup_fmap in H1.
    destruct (loadedPDFs !! join sep parts) as [old|]; [|discriminate].
    injection H1 as <-. now exists old.
Qed.

(** X20: when every candidate of a locator is in use for another
    locator, the load takes the identifier made of all the segments,
    and the document of the other locator stored under it is replaced:
    the registry does not grow. *)
Theorem loadPDF_all_taken (loadedPDFs : gmap jsstring LoadedPDF)
    (filePath : jsstring) (doc : Decoded) :
  snd (locate filePath) <> [] ->
  (forall j, 1 <= j <= length (snd (locate filePath)) ->
     takenByOther (existingPathsOf loadedPDFs) (fst (locate filePath))
       (candidate (separatorOf filePath) (snd (locate filePath)) j)) ->
  exists loadedPDFs1 old,
    loadPDF loadedPDFs filePath (Some doc)
    = inr (loadedPDFs1,
           (join (separatorOf filePath) (snd (locate filePath)), length (d_pages doc)))
    /\ loadedPDFs !! join (separatorOf filePath) (snd (locate filePath)) = Some old
    /\ normalizedOf (path old) <> normalizedOf filePath
    /\ path <$> loadedPDFs1 !! join (separatorOf filePath) (snd (locate filePath))
       = Some filePath
    /\ size loadedPDFs1 = size loadedPDFs.
Proof.
  intros Hne Hall.
  destruct (generateUniqueId_all_taken loadedPDFs filePath Hne Hall) as [Hid Hold].
  destruct Hold as (old & Hold & Hother).
  unfold loadPDF. rewrite Hid. eexists _, old.
  split; [reflexivity|]. split; [exact Hold|]. split; [exact Hother|].
  split; [now rewrite lookup_insert_eq|].
  apply map_size_insert_Some. now exists old.
Qed.

End LoaderMore.

Example crowdedStore_loaded :
  match loadPDF (rt := Sample.runtime) ∅ (js "/x/b.pdf") (Some reportDoc) with
  | inr (loadedPDFs1, _) =>
      loadPDF (rt := Sample.runtime) loadedPDFs1 (js "a/b.pdf") (Some reportDoc)
  | inl e => inl e
  end = inr (crowdedStore, (js "a/b.pdf", 1)).
Proof. vm_compute. reflexivity. Qed.

Lemma generateUniqueId_minimal_witness :
  exists i,
    1 <= i <= length (snd (locate (rt := Sample.runtime) (js "/b/report.pdf")))
    /\ generateUniqueId (rt := Sample.runtime) reportStore (js "/b/report.pdf")
       = candidate (separatorOf (rt := Sample.runtime) (js "/b/report.pdf"))
           (snd (locate (rt := Sample.runtime) (js "/b/report.pdf"))) i
    /\ (forall j, 1 <= j < i ->
          takenByOther (existingPathsOf (rt := Sample.runtime) reportStore)
            (fst (locate (rt := Sample.runtime) (js "/b/report.pdf")))
            (candidate (separatorOf (rt := Sample.runtime) (js "/b/report.pdf"))
               (snd (locate (rt := Sample.runtime) (js "/b/report.pdf"))) j))
    /\ (takenByOther (existingPathsOf (rt := Sample.runtime) reportStore)
          (fst (locate (rt := Sample.runtime) (js "/b/report.pdf")))
          (generateUniqueId (rt := Sample.runtime) reportStore (js "/b/report.pdf")) ->
        i = length (snd (locate (rt := Sample.runtime) (js "/b/report.pdf")))).
Proof.
  apply (generateUniqueId_minimal (rt := Sample.runtime) reportStore (js "/b/report.pdf")).
  vm_compute. discriminate.
Defined.

Lemma loadPDF_all_taken_witness :
  exists loadedPDFs1 old,
    loadPDF (rt := Sample.runtime) crowdedStore (js "/a/b.pdf") (Some reportDoc)
    = inr (loadedPDFs1,
           (join (separatorOf (rt := Sample.runtime) (js "/a/b.pdf"))
              (snd (locate (rt := Sample.runtime) (js "/a/b.pdf"))),
            length (d_pages reportDoc)))
    /\ crowdedStore !! join (separatorOf (rt := Sample.runtime) (js "/a/b.pdf"))
                          (snd (locate (rt := Sample.runtime) (js "/a/b.pdf"))) = Some old
    /\ normalizedOf (rt := Sample.runtime) (path old)
       <> normalizedOf (rt := Sample.runtime) (js "/a/b.pdf")
    /\ path <$> loadedPDFs1 !! join (separatorOf (rt := Sample.runtime) (js "/a/b.pdf"))
                                 (snd (locate (rt := Sample.runtime) (js "/a/b.pdf")))
       = Some (js "/a/b.pdf")
    /\ size loadedPDFs1 = size crowdedStore.
Proof.
  apply (loadPDF_all_taken (rt := Sample.runtime) crowdedStore (js "/a/b.pdf") reportDoc).
  - vm_compute. discriminate.
  - intros j Hj.
    change (length (snd (locate (rt := Sample.runtime) (js "/a/b.pdf")))) with 2 in Hj.
    assert (Hcases : j = 1 \/ j = 2) by lia.
    destruct Hcases as [-> | ->].
    + exists (js "/x/b.pdf"). split; [vm_compute; reflexivity|].
      split; [reflexivity | vm_compute; discriminate].
    + exists (js "a/b.pdf"). split; [vm_compute; reflexivity|].
      split; [reflexivity | vm_compute; discriminate].
Defined.

(** ** The registry: unloading, reloading and the cache *)

Section RegistryMore.
Context {rt : Runtime}.

(** X21: after [unloadPDF], every operation on the identifier fails
    with the error of a document that is not loaded, a second unload
    returns false, and the other documents are as they were; the
    registry loses one document when the identifier was there and none
    otherwise. *)
Theorem unloadPDF_gone (loadedPDFs : gmap jsstring LoadedPDF) (pdfId : jsstring) :
  getPDFInfo (fst (unloadPDF loadedPDFs pdfId)) pdfId = inl PdfNotFound
  /\ extractOutline (fst (unloadPDF loadedPDFs pdfId)) pdfId = inl PdfNotFound
  /\ getFormattedOutline (fst (unloadPDF loadedPDFs pdfId)) pdfId = inl PdfNotFound
  /\ (forall sectionTitle page charsPerPage,
        extractSection (fst (unloadPDF loadedPDFs pdfId)) pdfId sectionTitle page
          charsPerPage = inl PdfNotFound)
  /\ (forall fuel query caseSensitive regex maxResults contextChars,
        searchPDF fuel (fst (unloadPDF loadedPDFs pdfId)) pdfId query caseSensitive
          regex maxResults contextChars = Some (inl PdfNotFound))
  /\ snd (unloadPDF (fst (unloadPDF loadedPDFs pdfId)) pdfId) = false
  /\ (forall other, other <> pdfId ->
        fst (unloadPDF loadedPDFs pdfId) !! other = loadedPDFs !! other)
  /\ size loadedPDFs
     = size (fst (unloadPDF loadedPDFs pdfId))
       + (if snd (unloadPDF loadedPDFs pdfId) then 1 else 0).
Proof.
  unfold unloadPDF. cbn [fst snd].
  unfold getFormattedOutline, extractOutline, getPDFInfo, extractSection, searchPDF.
  rewrite !lookup_delete_eq.
  do 6 (split; [intros; reflexivity|]).
  split; [intros other Hne; now apply lookup_delete_ne|].
  destruct (loadedPDFs !! pdfId) as [pdf|] eqn:E.
  - rewrite map_size_delete_Some by now exists pdf.
    assert (size loadedPDFs <> 0) by (apply (map_size_ne_0_lookup_2 loadedPDFs pdfId); rewrite E; eauto).
    lia.
  - rewrite delete_id by exact E. lia.
Qed.

(** X22: what a load registers is what [getPDFInfo] returns for the
    identifier of the load; the other documents are as they were; and
    unloading the identifier returns true and, when the identifier was
    not in use before the load, gives back the registry of before. *)
Theorem loadPDF_then_unloadPDF (loadedPDFs loadedPDFs1 : gmap jsstring LoadedPDF)
    (filePath pdfId : jsstring) (doc : Decoded) (n : nat) :
  loadPDF loadedPDFs filePath (Some doc) = inr (loadedPDFs1, (pdfId, n)) ->
  n = length (d_pages doc)
  /\ getPDFInfo loadedPDFs1 pdfId
     = inr {| i_id := pdfId; i_path := filePath; i_pageCount := n;
              i_metadata := d_metadata doc |}
  /\ (forall other, other <> pdfId -> loadedPDFs1 !! other = loadedPDFs !! other)
  /\ snd (unloadPDF loadedPDFs1 pdfId) = true
  /\ (loadedPDFs !! pdfId = None -> fst (unloadPDF loadedPDFs1 pdfId) = loadedPDFs).
Proof.
  unfold loadPDF. intros H. injection H as <- <- <-.
  unfold getPDFInfo, unloadPDF. cbn [fst snd]. rewrite lookup_insert_eq.
  split; [reflexivity|]. split; [reflexivity|].
  split; [intros other Hne; now apply lookup_insert_ne|].
  split; [reflexivity|].
  intros Hfree. rewrite delete_insert_eq. now apply delete_id.
Qed.

Lemma loadPDF_keyed (loadedPDFs loadedPDFs1 : gmap jsstring LoadedPDF)
    (filePath : jsstring) (decoded : option Decoded) (r : jsstring * nat) :
  keyed loadedPDFs ->
  loadPDF loadedPDFs filePath decoded = inr (loadedPDFs1, r) ->
  keyed loadedPDFs1.
Proof.
  intros Hk. unfold loadPDF. destruct decoded as [doc|]; [|discriminate].
  intros H. injection H as <- _. intros k pdf Hl.
  destruct (decide (generateUniqueId loadedPDFs filePath = k)) as [<-|Hne].
  - rewrite lookup_insert_eq in Hl. injection Hl as <-. reflexivity.
  - rewrite lookup_insert_ne in Hl by exact Hne. now apply Hk.
Qed.

Lemma restoreCache_cons (loadedPDFs : gmap jsstring LoadedPDF)
    (item : jsstring * jsstring) (rest : list (jsstring * jsstring))
    (fetchAndDecode : jsstring -> option Decoded) :
  restoreCache loadedPDFs (item :: rest) fetchAndDecode
  = restoreCache
      (match loadPDF loadedPDFs (snd item) (fetchAndDecode (snd item)) with
       | inr (registry', _) => registry'
       | inl _ => loadedPDFs
       end) rest fetchAndDecode.
Proof. reflexivity. Qed.

(** X23: the operations keep every document under its own identifier:
    when the registry is so, it is so after a load, after an unload and
    after the cache is restored, and [getPDFInfo] returns the identifier
    it was asked for. *)
Theorem registry_keyed (loadedPDFs : gmap jsstring LoadedPDF) :
  keyed loadedPDFs ->
  (forall filePath decoded loadedPDFs1 r,
      loadPDF loadedPDFs filePath decoded = inr (loadedPDFs1, r) -> keyed loadedPDFs1)
  /\ (forall pdfId, keyed (fst (unloadPDF loadedPDFs pdfId)))
  /\ (forall cacheData fetchAndDecode,
        keyed (restoreCache loadedPDFs cacheData fetchAndDecode))
  /\ (forall pdfId info, getPDFInfo loadedPDFs pdfId = inr info -> i_id info = pdfId).
Proof.
  intros Hk. split; [|split; [|split]].
  - intros filePath decoded loadedPDFs1 r. now apply loadPDF_keyed.
  - intros pdfId k pdf. unfold unloadPDF. cbn [fst].
    intros Hl. apply lookup_delete_Some in Hl as [_ Hl]. now apply Hk.
  - intros cacheData fetchAndDecode. revert loadedPDFs Hk.
    induction cacheData as [|item rest IH]; intros loadedPDFs Hk; [exact Hk|].
    rewrite restoreCache_cons. apply IH.
    destruct (loadPDF loadedPDFs (snd item) (fetchAndDecode (snd item)))
      as [e|[registry' r]] eqn:E; [exact Hk|].
    now apply (loadPDF_keyed _ _ _ _ _ Hk E).
  - intros pdfId info. unfold getPDFInfo.
    destruct (loadedPDFs !! pdfId) as [pdf|] eqn:E; [|discriminate].
    intros H. injection H as <-. cbn [i_id]. now apply Hk.
Qed.

(** X24: restoring the cache only adds documents loaded from the paths
    of the cache: a document of the registry afterwards was there
    before, or is what the load of a path of the cache that could be
    decoded registers; the entries that cannot be decoded are passed
    over, so that a cache of which no path can be decoded leaves the
    registry as it was. *)
Theorem restoreCache_documents (cacheData : list (jsstring * jsstring))
    (fetchAndDecode : jsstring -> option Decoded) :
  (forall loadedPDFs k pdf,
      restoreCache loadedPDFs cacheData fetchAndDecode !! k = Some pdf ->
      loadedPDFs !! k = Some pdf
      \/ exists item doc,
           In item cacheData /\ fetchAndDecode (snd item) = Some doc
           /\ pdf = {| id := k; path := snd item; pageCount := length (d_pages doc);
                       markdown := convertToMarkdown (d_pages doc) (d_outline doc);
                       metadata := d_metadata doc; outline := d_outline doc |})
  /\ (forall loadedPDFs,
        (forall item, In item cacheData -> fetchAndDecode (snd item) = None) ->
        restoreCache loadedPDFs cacheData fetchAndDecode = loadedPDFs).
Proof.
  split.
  - induction cacheData as [|item rest IH]; intros loadedPDFs k pdf; [now left|].
    rewrite restoreCache_cons. intros H. apply IH in H as [H|(it & doc & H1 & H2 & H3)].
    + unfold loadPDF in H. destruct (fetchAndDecode (snd item)) as [doc|] eqn:E;
        [|now left].
      destruct (decide (generateUniqueId loadedPDFs (snd item) = k)) as [Hk|Hne].
      * rewrite Hk, lookup_insert_eq in H. injection H as <-.
        right. exists item, doc. split; [now left|]. split; [exact E | reflexivity].
      * rewrite lookup_insert_ne in H by exact Hne. now left.
    + right. exists it, doc. split; [now right|]. split; [exact H2 | exact H3].
  - induction cacheData as [|item rest IH]; intros loadedPDFs Hnone; [reflexivity|].
    rewrite restoreCache_cons, (Hnone item) by now left. cbn [loadPDF].
    apply IH. intros it Hit. apply Hnone. now right.
Qed.

End RegistryMore.

Lemma loadPDF_then_unloadPDF_witness :
  1 = length (d_pages reportDoc)
  /\ getPDFInfo reportStore (js "report.pdf")
     = inr {| i_id := js "report.pdf"; i_path := js "/a/report.pdf"; i_pageCount := 1;
              i_metadata := d_metadata reportDoc |}
  /\ (forall other, other <> js "report.pdf" ->
        reportStore !! other = (∅ : gmap jsstring LoadedPDF) !! other)
  /\ snd (unloadPDF reportStore (js "report.pdf")) = true
  /\ ((∅ : gmap jsstring LoadedPDF) !! js "report.pdf" = None ->
      fst (unloadPDF reportStore (js "report.pdf")) = ∅).
Proof.
  apply (loadPDF_then_unloadPDF (rt := Sample.runtime) ∅ reportStore (js "/a/report.pdf")
           (js "report.pdf") reportDoc 1).
  vm_compute. reflexivity.
Defined.

Lemma registry_keyed_witness :
  (forall filePath decoded loadedPDFs1 r,
      loadPDF (rt := Sample.runtime) reportStore filePath decoded = inr (loadedPDFs1, r) ->
      keyed loadedPDFs1)
  /\ (forall pdfId, keyed (fst (unloadPDF reportStore pdfId)))
  /\ (forall cacheData fetchAndDecode,
        keyed (restoreCache (rt := Sample.runtime) reportStore cacheData fetchAndDecode))
  /\ (forall pdfId info, getPDFInfo reportStore pdfId = inr info -> i_id info = pdfId).
Proof.
  apply (registry_keyed (rt := Sample.runtime) reportStore).
  intros k pdf. unfold reportStore. intros H.
  apply lookup_insert_Some in H as [[<- <-]|[_ H]]; [reflexivity|].
  rewrite lookup_empty in H. discriminate.
Defined.

(** ** The outline: reading and formatting *)

Section OutlineMore.

Lemma processItem_children (doc : Doc) (lvl : nat) (item : RawItem) :
  children (processItem doc lvl item) = processOutline doc (r_items item) (S lvl).
Proof.
  destruct item as [t d its]. cbn [processItem children r_items].
  induction its as [|it rest IH]; [reflexivity|].
  cbn [processOutline]. now rewrite IH.
Qed.

Lemma nodesOf_processItem (doc : Doc) (lvl : nat) (item : RawItem) :
  nodesOf (processItem doc lvl item)
  = processItem doc lvl item
    :: flat_map nodesOf (processOutline doc (r_items item) (S lvl)).
Proof.
  rewrite <- processItem_children. now destruct (processItem doc lvl item).
Qed.

Lemma processItem_titles (doc : Doc) :
  forall item lvl,
    map (fun it => (title it, level it)) (nodesOf (processItem doc lvl item))
    = rawTitlesAt lvl item.
Proof.
  fix IH 1. intros item lvl.
  rewrite nodesOf_processItem. destruct item as [t d its].
  cbn [map rawTitlesAt r_title r_items processItem title level]. f_equal.
  induction its as [|it rest IHits]; [reflexivity|].
  cbn [processOutline flat_map]. rewrite map_app, IH, IHits. reflexivity.
Qed.

(** X25: [processOutline] keeps every entry of the outline of the
    decoder, in depth-first document order and with its title, and
    numbers the levels by depth, from the level it is called with. *)
Theorem processOutline_levels (doc : Doc) (outline : list RawItem) (lvl : nat) :
  map (fun it => (title it, level it))
      (flat_map nodesOf (processOutline doc outline lvl))
  = flat_map (rawTitlesAt lvl) outline.
Proof.
  induction outline as [|item rest IH]; [reflexivity|].
  cbn [processOutline flat_map]. now rewrite map_app, processItem_titles, IH.
Qed.


Lemma formatOutlineAsText_children (indent : jsstring) (item : OutlineItem) :
  formatItem indent item
  = (indent ++ title item ++ [NL])
    ++ formatOutlineAsText (children item) (indent ++ js "  ").
Proof.
  destruct item as [t p l ch]. cbn [formatItem title children]. f_equal.
  induction ch as [|c rest IH]; [reflexivity|].
  cbn [formatOutlineAsText]. now rewrite IH.
Qed.

Lemma formatItem_lines (indent : jsstring) :
  forall item depth,
    formatItem (indent ++ repeat 32%N (2 * depth)) item
    = flat_map (outlineLine indent) (titlesAt depth item).
Proof.
  fix IH 1. intros item depth. rewrite formatOutlineAsText_children.
  destruct item as [t p l ch]. cbn [titlesAt flat_map title children].
  unfold outlineLine at 1. cbn [fst snd]. rewrite <- !app_assoc. do 3 f_equal.
  assert (Hindent : indent ++ repeat 32%N (2 * depth) ++ js "  "
                    = indent ++ repeat 32%N (2 * S depth)).
  { replace (2 * S depth) with (2 * depth + 2) by lia.
    now rewrite repeat_app. }
  rewrite Hindent. clear Hindent. f_equal.
  induction ch as [|c rest IHch]; [reflexivity|].
  cbn [formatOutlineAsText flat_map]. rewrite flat_map_app, IH, IHch. reflexivity.
Qed.

Lemma formatOutlineAsText_at_depth (indent : jsstring) (depth : nat) :
  forall items,
    formatOutlineAsText items (indent ++ repeat 32%N (2 * depth))
    = flat_map (outlineLine indent) (flat_map (titlesAt depth) items).
Proof.
  induction items as [|item rest IH]; [reflexivity|].
  cbn [formatOutlineAsText flat_map]. now rewrite flat_map_app, <- IH, <- formatItem_lines.
Qed.

(** X26: the formatted outline has one line for every node, in
    depth-first document order: the indent, two more spaces for every
    level of depth of the node, its title and a line feed. *)
Theorem formatOutlineAsText_lines (items : list OutlineItem) (indent : jsstring) :
  formatOutlineAsText items indent
  = flat_map (outlineLine indent) (flat_map (titlesAt 0) items).
Proof.
  rewrite <- formatOutlineAsText_at_depth. cbn [Nat.mul repeat]. now rewrite app_nil_r.
Qed.

Lemma processItem_titlesAt (doc : Doc) :
  forall item lvl depth,
    titlesAt depth (processItem doc lvl item) = rawTitlesAt depth item.
Proof.
  fix IH 1. intros item lvl depth.
  assert (E : titlesAt depth (processItem doc lvl item)
              = (title (processItem doc lvl item), depth)
                :: flat_map (titlesAt (S depth))
                     (processOutline doc (r_items item) (S lvl))).
  { rewrite <- processItem_children. now destruct (processItem doc lvl item). }
  rewrite E. clear E. destruct item as [t d its].
  cbn [rawTitlesAt r_title r_items processItem title]. f_equal.
  induction its as [|it rest IHits]; [reflexivity|].
  cbn [processOutline flat_map]. now rewrite IH, IHits.
Qed.

Lemma processOutline_titlesAt (doc : Doc) (outline : list RawItem) (lvl depth : nat) :
  flat_map (titlesAt depth) (processOutline doc outline lvl)
  = flat_map (rawTitlesAt depth) outline.
Proof.
  induction outline as [|item rest IH]; [reflexivity|].
  cbn [processOutline flat_map]. now rewrite processItem_titlesAt, IH.
Qed.

(** X27: after a document with an outline is loaded,
    [getFormattedOutline] gives a line for every entry of the outline of
    the decoder, in depth-first document order, indented by two spaces
    for every level of depth. *)
Theorem loadPDF_formatted_outline {rt : Runtime}
    (loadedPDFs loadedPDFs1 : gmap jsstring LoadedPDF) (filePath pdfId : jsstring)
    (decoded : Decoded) (n : nat) (doc : Doc) (rawOutline : list RawItem) :
  loadPDF loadedPDFs filePath (Some decoded) = inr (loadedPDFs1, (pdfId, n)) ->
  rawOutline <> [] ->
  d_outline decoded = Some (processOutline doc rawOutline 0) ->
  getFormattedOutline loadedPDFs1 pdfId
  = inr (flat_map (outlineLine []) (flat_map (rawTitlesAt 0) rawOutline)).
Proof.
  unfold loadPDF. intros H Hne Hout. injection H as <- <- <-.
  unfold getFormattedOutline, extractOutline. rewrite lookup_insert_eq.
  cbn [outline]. rewrite Hout.
  destruct rawOutline as [|item rest]; [congruence|].
  cbn [processOutline]. rewrite (formatOutlineAsText_at_depth [] 0 _ : formatOutlineAsText _ [] = _).
  change (processItem doc 0 item :: processOutline doc rest 0)
    with (processOutline doc (item :: rest) 0).
  now rewrite processOutline_titlesAt.
Qed.

Lemma getPageIndexFrom_found (pageRef : PageRef) :
  forall slots i k,
    getPageIndexFrom slots i pageRef = Some k ->
    i <= k /\ exists r, slots !! (k - i) = Some (PageWithRef (Some r))
                        /\ sameRef r pageRef = true.
Proof.
  induction slots as [|slot later IH]; intros i k H; [discriminate|].
  cbn [getPageIndexFrom] in H. destruct slot as [|[r|]]; [discriminate| |].
  - destruct (sameRef r pageRef) eqn:E.
    + injection H as <-. split; [lia|]. rewrite Nat.sub_diag. now exists r.
    + apply IH in H as (Hk & r' & Hl & Hr). split; [lia|]. exists r'.
      replace (k - i) with (S (k - S i)) by lia. now split.
  - apply IH in H as (Hk & r' & Hl & Hr). split; [lia|]. exists r'.
    replace (k - i) with (S (k - S i)) by lia. now split.
Qed.

Lemma getPageIndex_pageOfDoc (doc : Doc) (pageRef : PageRef) (k : nat) :
  getPageIndex doc pageRef = Some k -> pageOfDoc doc (Z.of_nat k + 1).
Proof.
  unfold getPageIndex. intros H.
  apply getPageIndexFrom_found in H as (_ & r & Hl & _).
  rewrite Nat.sub_0_r in Hl. pose proof (lookup_lt_Some _ _ _ Hl) as Hlt.
  unfold pageOfDoc, numPages. split; [lia|]. exists r.
  now replace (Z.to_nat (Z.of_nat k + 1 - 1)) with k by lia.
Qed.

Lemma resolvePage_pageOfDoc (doc : Doc) (dest : option RawDest) (p : Z) :
  resolvePage doc dest = Some p -> pageOfDoc doc p.
Proof.
  unfold resolvePage. destruct dest as [[name|[pageRef|]]|]; try discriminate.
  - destruct (truthy name); [|discriminate].
    destruct (getDestination doc name) as [| |[pageRef|]]; try discriminate.
    destruct (getPageIndex doc pageRef) as [k|] eqn:E; [|discriminate].
    intros H. injection H as <-. now apply (getPageIndex_pageOfDoc doc pageRef).
  - destruct (getPageIndex doc pageRef) as [k|] eqn:E; [|discriminate].
    intros H. injection H as <-. now apply (getPageIndex_pageOfDoc doc pageRef).
Qed.

Lemma processItem_pages (doc : Doc) :
  forall item lvl,
    Forall (fun it => match page it with
                      | Some p => pageOfDoc doc p /\ truthyPage (page it) = Some p
                      | None => True
                      end)
           (nodesOf (processItem doc lvl item)).
Proof.
  fix IH 1. intros item lvl. rewrite nodesOf_processItem. constructor.
  - destruct item as [t d its]. cbn [processItem page r_dest].
    destruct (resolvePage doc d) as [p|] eqn:E; [|exact I].
    pose proof (resolvePage_pageOfDoc doc d p E) as Hp. split; [exact Hp|].
    destruct Hp as [Hp _]. cbn [truthyPage].
    now replace (p =? 0)%Z with false by (symmetry; apply Z.eqb_neq; lia).
  - destruct item as [t d its]. cbn [r_items].
    induction its as [|it rest IHits]; [constructor|].
    cbn [processOutline flat_map]. apply Forall_app. split; [apply IH | exact IHits].
Qed.

(** X28: a page that [processOutline] resolves for a node is the number
    of a page of the document, from 1 to the number of pages, and one
    whose reference the decoder could read; it is never 0, so that no
    node with a page fails the test of [flattenOutline] for a page. *)
Theorem processOutline_pages (doc : Doc) (outline : list RawItem) (lvl : nat) :
  Forall (fun it => match page it with
                    | Some p => pageOfDoc doc p /\ truthyPage (page it) = Some p
                    | None => True
                    end)
         (flat_map nodesOf (processOutline doc outline lvl)).
Proof.
  induction outline as [|item rest IH]; [constructor|].
  cbn [processOutline flat_map]. apply Forall_app.
  split; [apply processItem_pages | exact IH].
Qed.

End OutlineMore.

Example outline_read :
  processOutline docSample rawSample 0
  = [ {| title := js "A"; page := Some 2%Z; level := 0;
         children := [ {| title := js "A1"; page := Some 3%Z; level := 1;
                          children := [] |} ] |};
      {| title := js "B"; page := None; level := 0; children := [] |} ].
Proof. vm_compute. reflexivity. Qed.

Example outline_formatted :
  formatOutlineAsText (processOutline docSample rawSample 0) [] = js "A\n  A1\nB\n".
Proof. vm_compute. reflexivity. Qed.

Lemma loadPDF_formatted_outline_witness :
  exists loadedPDFs1,
    loadPDF (rt := Sample.runtime) ∅ (js "/a/report.pdf")
      (Some {| d_pages := [js "P1"; js "P2"; js "P3"];
               d_outline := Some (processOutline docSample rawSample 0);
               d_metadata := None |})
    = inr (loadedPDFs1, (js "report.pdf", 3))
    /\ getFormattedOutline loadedPDFs1 (js "report.pdf")
       = inr (flat_map (outlineLine []) (flat_map (rawTitlesAt 0) rawSample)).
Proof.
  eexists. split; [unfold loadPDF; reflexivity|].
  apply (loadPDF_formatted_outline (rt := Sample.runtime) ∅ _ (js "/a/report.pdf")
           (js "report.pdf")
           {| d_pages := [js "P1"; js "P2"; js "P3"];
              d_outline := Some (processOutline docSample rawSample 0);
              d_metadata := None |}
           3 docSample rawSample);
    [reflexivity | discriminate | reflexivity].
Defined.

(** ** Images: the index of an image *)

Section ImagesMore.
Context {services : ImageServices}.

Lemma listLoop_indices (page : Page) (pageNum : Z) :
  forall ops imageIndex,
    map im_index (listLoop page pageNum ops imageIndex)
    = seq imageIndex (length (listLoop page pageNum ops imageIndex))
    /\ Forall (fun info => im_page info = pageNum) (listLoop page pageNum ops imageIndex)
    /\ length (listLoop page pageNum ops imageIndex)
       <= length (List.filter (fun op => isImageOp (fst op)) ops).
Proof.
  induction ops as [|[fn imageName] later IH]; intros imageIndex; cbn [listLoop].
  - split; [reflexivity|]. split; [constructor | cbn; lia].
  - cbn [List.filter fst].
    destruct (isImageOp fn); [|apply IH].
    assert (Hskip : map im_index (listLoop page pageNum later imageIndex)
                    = seq imageIndex (length (listLoop page pageNum later imageIndex))
                    /\ Forall (fun info => im_page info = pageNum)
                         (listLoop page pageNum later imageIndex)
                    /\ length (listLoop page pageNum later imageIndex)
                       <= length ((fn, imageName)
                                  :: List.filter (fun op => isImageOp (fst op)) later)).
    { destruct (IH imageIndex) as (H1 & H2 & H3). cbn [length]. auto with lia. }
    destruct (objs page imageName) as [| |imageObj]; [exact Hskip | exact Hskip|].
    destruct (_ && _)%bool; [|exact Hskip].
    destruct (IH (S imageIndex)) as (H1 & H2 & H3).
    cbn [map length seq im_index]. rewrite H1.
    split; [reflexivity|]. split; [now constructor | lia].
Qed.

Lemma extractLoop_indices (page : Page) (pageNum : Z) :
  forall ops imageIndex,
    map im_index (extractLoop page pageNum ops imageIndex)
    = seq imageIndex (length (extractLoop page pageNum ops imageIndex))
    /\ Forall (fun info => im_page info = pageNum /\ im_data info <> None)
         (extractLoop page pageNum ops imageIndex).
Proof.
  induction ops as [|[fn imageName] later IH]; intros imageIndex; cbn [extractLoop].
  - split; [reflexivity | constructor].
  - destruct (isImageOp fn); [|apply IH].
    destruct (objs page imageName) as [| |imageObj]; [apply IH | apply IH|].
    destruct (imageDataOf imageObj) as [[format imageData]|]; [|apply IH].
    destruct (IH (S imageIndex)) as (H1 & H2).
    cbn [map length seq im_index]. rewrite H1.
    split; [reflexivity|]. constructor; [|exact H2]. cbn. split; [reflexivity | discriminate].
Qed.

Lemma extractImagesFromPage_indices (page : Page) (pageNum dpi : Z) :
  map im_index (extractImagesFromPage page pageNum dpi)
  = seq 0 (length (extractImagesFromPage page pageNum dpi))
  /\ Forall (fun info => im_page info = pageNum /\ im_data info <> None)
       (extractImagesFromPage page pageNum dpi).
Proof.
  unfold extractImagesFromPage.
  destruct (_ && _)%bool; [|apply extractLoop_indices].
  destruct (renderWhole page dpi) as [[[width height] pngData]|].
  - split; [reflexivity|]. constructor; [|constructor].
    cbn. split; [reflexivity | discriminate].
  - split; [reflexivity | constructor].
Qed.

(** X29: the images of a page are numbered from 0 in the order of
    their operators, in the listing as in the extraction, and carry the
    number of the page; the listing has at most one image for every
    image operator, and every extracted image has its data. *)
Theorem image_indices (page : Page) (pageNum dpi : Z) :
  map im_index (listImagesFromPage page pageNum)
  = seq 0 (length (listImagesFromPage page pageNum))
  /\ map im_index (extractImagesFromPage page pageNum dpi)
     = seq 0 (length (extractImagesFromPage page pageNum dpi))
  /\ Forall (fun info => im_page info = pageNum) (listImagesFromPage page pageNum)
  /\ Forall (fun info => im_page info = pageNum /\ im_data info <> None)
       (extractImagesFromPage page pageNum dpi)
  /\ length (listImagesFromPage page pageNum)
     <= length (List.filter (fun op => isImageOp (fst op)) (operators page)).
Proof.
  destruct (listLoop_indices page pageNum (operators page) 0) as (H1 & H2 & H3).
  destruct (extractImagesFromPage_indices page pageNum dpi) as (H4 & H5).
  unfold listImagesFromPage. auto.
Qed.

(** Where the two loops agree on every object, they push images of the
    same pages, indices and sizes. *)
Lemma loops_agree (page : Page) (pageNum : Z) :
  forall ops imageIndex,
    (forall fn imageName imageObj,
        In (fn, imageName) ops -> isImageOp fn = true ->
        objs page imageName = ObjFound imageObj ->
        listed imageObj = extracted imageObj) ->
    map placeOf (extractLoop page pageNum ops imageIndex)
    = map placeOf (listLoop page pageNum ops imageIndex).
Proof.
  induction ops as [|[fn imageName] later IH]; intros imageIndex Hsame; [reflexivity|].
  assert (Hlater : forall i, map placeOf (extractLoop page pageNum later i)
                             = map placeOf (listLoop page pageNum later i)).
  { intros i. apply IH. intros f nm o Hin. apply Hsame. now right. }
  cbn [extractLoop listLoop].
  destruct (isImageOp fn) eqn:Eop; [|apply Hlater].
  destruct (objs page imageName) as [| |imageObj] eqn:Eobj; [apply Hlater | apply Hlater|].
  pose proof (Hsame fn imageName imageObj (or_introl eq_refl) Eop Eobj) as Hagree.
  unfold listed, extracted in Hagree. rewrite Hagree.
  destruct (imageDataOf imageObj) as [[format imageData]|]; [|apply Hlater].
  cbn [map]. now rewrite Hlater.
Qed.

Lemma encoded_places (images : list ImageInfo) :
  Forall (fun info => im_data info <> None) images ->
  map placeOfExtracted (encoded images) = map placeOf images.
Proof.
  induction 1 as [|info rest Hdata _ IH]; [reflexivity|].
  unfold encoded in *. cbn [omap list_omap].
  destruct (im_data info) as [data|]; [|congruence].
  cbn [fmap option_fmap option_map map]. now rewrite IH.
Qed.

Lemma listPages_in :
  forall pages pageNum images info,
    listPages pages pageNum = Some images -> In info images ->
    exists k page,
      pages !! k = Some (Some page)
      /\ In info (listImagesFromPage page (pageNum + Z.of_nat k)).
Proof.
  induction pages as [|[page|] later IH]; intros pageNum images info H Hin.
  - injection H as <-. destruct Hin.
  - cbn [listPages] in H.
    destruct (listPages later (pageNum + 1)) as [rest|] eqn:E; [|discriminate].
    injection H as <-. apply in_app_or in Hin as [Hin|Hin].
    + exists 0, page. split; [reflexivity|]. now rewrite Z.add_0_r.
    + destruct (IH _ _ _ E Hin) as (k & pg & Hk & Hpg). exists (S k), pg.
      split; [exact Hk|]. now replace (pageNum + Z.of_nat (S k))%Z
                            with (pageNum + 1 + Z.of_nat k)%Z by lia.
  - discriminate.
Qed.

(** The search of [extractImage] among images numbered in a row finds
    the image at the position of the index. *)
Lemma find_at_index (pageNumber : Z) :
  forall (images : list ExtractedImage) (first k : nat) (img : ExtractedImage),
    map e_index images = seq first (length images) ->
    Forall (fun i => e_page i = pageNumber) images ->
    images !! k = Some img ->
    List.find (fun i => ((e_page i =? pageNumber)%Z
                         && (Z.of_nat (e_index i) =? Z.of_nat (first + k))%Z)%bool)
              images
    = Some img.
Proof.
  induction images as [|x rest IH]; intros first k img Hidx Hpage Hk; [discriminate|].
  cbn [map length seq] in Hidx. injection Hidx as Hx Hrest.
  apply Forall_cons in Hpage as [Hpx Hprest]. cbn [List.find].
  rewrite Hpx, Z.eqb_refl, Hx. cbn [andb].
  destruct k as [|k].
  - injection Hk as <-. rewrite Nat.add_0_r, Z.eqb_refl. reflexivity.
  - replace (Z.of_nat first =? Z.of_nat (first + S k))%Z with false
      by (symmetry; apply Z.eqb_neq; lia).
    replace (first + S k) with (S first + k) by lia.
    now apply IH.
Qed.

(** X30: on a document on whose pages the listing and the extraction
    agree for every image object, an image that [listImages] lists is
    found by [extractImage] under its page and index, with its size. *)
Theorem extractImage_listed (loadedPDFs : gmap jsstring LoadedPDF) (pdfId : jsstring)
    (pdf : LoadedPDF) (doc : list (option Page)) (images : list ImageInfo)
    (info : ImageInfo) (dpi : Z) :
  loadedPDFs !! pdfId = Some pdf ->
  openDocument (path pdf) = Some doc ->
  (forall page, In (Some page) doc -> sameImages page) ->
  listImages loadedPDFs pdfId = inr images ->
  In info images ->
  exists img,
    extractImage loadedPDFs pdfId (im_page info) (Z.of_nat (im_index info)) dpi
    = inr (Some img)
    /\ placeOfExtracted img = placeOf info.
Proof.
  intros Hpdf Hopen Hsame Hlist Hin.
  unfold listImages in Hlist. rewrite Hpdf, Hopen in Hlist.
  destruct (listPages doc 1) as [l|] eqn:Hpages; [|discriminate].
  injection Hlist as ->.
  destruct (listPages_in doc 1 images info Hpages Hin) as (k & page & Hk & Hinfo).
  destruct (listLoop_indices page (1 + Z.of_nat k) (operators page) 0) as (L1 & L2 & _).
  fold (listImagesFromPage page (1 + Z.of_nat k)) in L1, L2.
  assert (Hpage : im_page info = (1 + Z.of_nat k)%Z).
  { rewrite List.Forall_forall in L2. now apply L2. }
  apply list_elem_of_In, list_elem_of_lookup in Hinfo as [j Hj].
  assert (Hindex : im_index info = j).
  { assert (H : map im_index (listImagesFromPage page (1 + Z.of_nat k)) !! j
                = Some (im_index info)) by now rewrite list_lookup_fmap, Hj.
    rewrite L1 in H. apply lookup_seq in H as [H _]. lia. }
  pose proof (loops_agree page (1 + Z.of_nat k) (operators page) 0) as Hagree.
  assert (Hs : sameImages page).
  { apply Hsame. apply list_elem_of_In. eapply list_elem_of_lookup_2, Hk. }
  specialize (Hagree Hs). fold (listImagesFromPage page (1 + Z.of_nat k)) in Hagree.
  assert (Hextract : extractImagesFromPage page (1 + Z.of_nat k) dpi
                     = extractLoop page (1 + Z.of_nat k) (operators page) 0).
  { unfold extractImagesFromPage.
    destruct (extractLoop page (1 + Z.of_nat k) (operators page) 0) as [|e es] eqn:E;
      [|reflexivity].
    destruct (listImagesFromPage page (1 + Z.of_nat k)); discriminate. }
  destruct (extractImagesFromPage_indices page (1 + Z.of_nat k) dpi) as (E1 & E2).
  set (pageImages := extractImagesFromPage page (1 + Z.of_nat k) dpi) in *.
  assert (Hplaces : map placeOfExtracted (encoded pageImages)
                    = map placeOf (listImagesFromPage page (1 + Z.of_nat k))).
  { rewrite encoded_places; [now rewrite Hextract|].
    eapply Forall_impl; [exact E2|]. now intros i [_ Hd]. }
  assert (Hj' : map placeOfExtracted (encoded pageImages) !! j = Some (placeOf info))
    by now rewrite Hplaces, list_lookup_fmap, Hj.
  rewrite list_lookup_fmap in Hj'.
  destruct (encoded pageImages !! j) as [img|] eqn:Himg; [|discriminate].
  assert (Hplace : placeOfExtracted img = placeOf info)
    by (cbn [fmap option_fmap option_map] in Hj'; congruence).
  exists img. split; [|exact Hplace].
  pose proof (lookup_lt_Some _ _ _ Hk) as Hlen.
  unfold extractImage, extractImages. rewrite Hpdf, Hopen. cbn [extractPages].
  rewrite Hpage.
  replace (1 + Z.of_nat k <? 1)%Z with false by (symmetry; apply Z.ltb_ge; lia).
  replace (Z.of_nat (length doc) <? 1 + Z.of_nat k)%Z with false
    by (symmetry; apply Z.ltb_ge; lia).
  cbn [orb]. replace (Z.to_nat (1 + Z.of_nat k - 1)) with k by lia.
  rewrite Hk. cbn [fmap option_fmap option_map]. rewrite app_nil_r.
  fold pageImages. rewrite Hindex. do 2 f_equal.
  apply (find_at_index (1 + Z.of_nat k) (encoded pageImages) 0 j img).
  - assert (Hmi : map e_index (encoded pageImages) = map im_index pageImages).
    { clear -E2. induction E2 as [|i rest [_ Hd] _ IH]; [reflexivity|].
      unfold encoded in *. cbn [omap list_omap].
      destruct (im_data i) as [data|]; [|congruence].
      cbn [fmap option_fmap option_map map]. now rewrite IH. }
    rewrite Hmi, E1. f_equal.
    rewrite <- (length_map e_index), Hmi. now rewrite length_map.
  - clear -E2. induction E2 as [|i rest [Hp Hd] _ IH]; [constructor|].
    unfold encoded in *. cbn [omap list_omap].
    destruct (im_data i) as [data|]; [|congruence].
    cbn [fmap option_fmap option_map]. constructor; [exact Hp | exact IH].
  - exact Himg.
Qed.

End ImagesMore.

Lemma extractImage_listed_witness :
  exists img,
    extractImage (services := sampleServices) reportStore (js "report.pdf")
      (im_page {| im_page := 1; im_index := 1; im_width := 5; im_height := 5;
                  im_format := FormatRaw; im_data := None |})
      (Z.of_nat (im_index {| im_page := 1; im_index := 1; im_width := 5; im_height := 5;
                             im_format := FormatRaw; im_data := None |}))
      96
    = inr (Some img)
    /\ placeOfExtracted img
       = placeOf {| im_page := 1; im_index := 1; im_width := 5; im_height := 5;
                    im_format := FormatRaw; im_data := None |}.
Proof.
  apply (extractImage_listed (services := sampleServices) reportStore (js "report.pdf")
           {| id := js "report.pdf"; path := js "/a/report.pdf"; pageCount := 1;
              markdown := js "text"; metadata := None; outline := None |}
           [Some photoPage]
           [ {| im_page := 1; im_index := 0; im_width := 10; im_height := 20;
                im_format := FormatJpeg; im_data := None |};
             {| im_page := 1; im_index := 1; im_width := 5; im_height := 5;
                im_format := FormatRaw; im_data := None |} ]).
  - vm_compute. reflexivity.
  - vm_compute. reflexivity.
  - intros page [Hpage|[]]. injection Hpage as <-.
    intros fn imageName imageObj [Hop|[Hop|[Hop|[]]]] Hfn Hobj;
      injection Hop as <- <-; try discriminate Hfn;
      vm_compute in Hobj; injection Hobj as <-; vm_compute; reflexivity.
  - vm_compute. reflexivity.
  - right. left. reflexivity.
Defined.

Example images_of_the_photo_page :
  listImagesFromPage photoPage 1
  = [ {| im_page := 1; im_index := 0; im_width := 10; im_height := 20;
         im_format := FormatJpeg; im_data := None |};
      {| im_page := 1; im_index := 1; im_width := 5; im_height := 5;
         im_format := FormatRaw; im_data := None |} ]
  /\ extractImagesFromPage (services := sampleServices) photoPage 1 96
     = [ {| im_page := 1; im_index := 0; im_width := 10; im_height := 20;
            im_format := FormatJpeg; im_data := Some [255; 216; 255]%N |};
         {| im_page := 1; im_index := 1; im_width := 5; im_height := 5;
            im_format := FormatPng; im_data := Some [137; 80; 1; 2; 3]%N |} ].
Proof. split; vm_compute; reflexivity. Qed.

(** An image object with a size and no data is listed and not
    extracted: the image listed after it under index 1 is extracted
    under index 0. *)
Example index_of_listing_is_not_that_of_extraction :
  listImages (services := sampleServices) maskStore (js "mask.pdf")
  = inr [ {| im_page := 1; im_index := 0; im_width := 8; im_height := 8;
             im_format := FormatUnknown; im_data := None |};
          {| im_page := 1; im_index := 1; im_width := 10; im_height := 20;
             im_format := FormatJpeg; im_data := None |} ]
  /\ extractImage (services := sampleServices) maskStore (js "mask.pdf") 1 1 96
     = inr None
  /\ extractImage (services := sampleServices) maskStore (js "mask.pdf") 1 0 96
     = inr (Some {| e_page := 1; e_index := 0; e_width := 10; e_height := 20;
                    e_format := FormatJpeg; e_base64 := [255; 216; 255]%N |}).
Proof. repeat split; vm_compute; reflexivity. Qed.

(** ** Further runs *)

Example empty_paragraph_kept_on_a_page :
  paginateContent (js "a\n\n\n\nb") 5 = [js "a\n\n"; js "b"]
  /\ startsEmptyPage 5 (splitParagraphs (js "a\n\n\n\nb")) [] = false.
Proof. split; vm_compute; reflexivity. Qed.

Example empty_paragraph_lost_at_a_page_start :
  paginateContent (js "a\n\n\n\nb") 2 = [js "a"; js "b"]
  /\ startsEmptyPage 2 (splitParagraphs (js "a\n\n\n\nb")) [] = true.
Proof. split; vm_compute; reflexivity. Qed.

Example blank_title_gives_first_section :
  extractSection (rt := Sample.runtime) (oneDocument nestedSections) (js "doc")
    (js "  ") 1 4000
  = inr {| sp_page := 1; totalPages := 1;
           content := js "# One\nintro\n## Part\ndeep"; section := js "One" |}
  /\ sectionLines (splitChar NL nestedSections) 0 1
     = [js "# One"; js "intro"; js "## Part"; js "deep"].
Proof. split; vm_compute; reflexivity. Qed.

Example regex_ignoring_case :
  searchPDF (rt := Sample.runtime) 10 (oneDocument (js "aA")) (js "doc") (js "A")
    false true None 0
  = Some (inr [ {| r_page := 0; r_section := js "Document Start";
                   r_matches := [(js "a", js "a"); (js "A", js "A")] |} ]).
Proof. vm_compute. reflexivity. Qed.
